(** * util.ts of vscode-cmake-tools: a shallow embedding and its properties

    The development follows [src/util.ts].  The functions of that file are
    built on the JavaScript runtime: regular expressions, the methods of
    [String.prototype], Node's [path] module and the process table of the
    operating system.  The runtime comes first (modules [Str] and [RegExp]),
    what depends on the host is gathered in a record ([Host], with Node's
    [path.posix] as module [Posix]), and the functions of util.ts follow under
    their own names.  The properties are in the second part.

    Strings are sequences of code units; the model covers the code units
    below 256 and writes them as [ascii].  A function that may throw returns a
    [result]. *)

From Stdlib Require Import Strings.String Strings.Ascii Lists.List Bool.Bool.
From Stdlib Require Import Arith.Arith ZArith.ZArith micromega.Lia.
From Stdlib Require Import Numbers.DecimalString Floats.SpecFloat.
From Stdlib Require Numbers.DecimalPos.
Import ListNotations.

Open Scope list_scope.
Open Scope string_scope.

(* ------------------------------------------------------------------ *)
(** ** Strings *)

Module Str.

Definition dquote : ascii := "034"%char.
Definition backslash : ascii := "092"%char.
Definition newline : ascii := "010"%char.

(** A one-character string. *)
Definition char (c : ascii) : string := String c EmptyString.

Fixpoint take (n : nat) (s : string) : string :=
  match n, s with
  | S k, String c t => String c (take k t)
  | _, _ => EmptyString
  end.

Fixpoint drop (n : nat) (s : string) : string :=
  match n, s with
  | S k, String _ t => drop k t
  | _, _ => s
  end.

Fixpoint all (p : ascii -> bool) (s : string) : bool :=
  match s with
  | EmptyString => true
  | String c t => p c && all p t
  end.

Fixpoint last (s : string) : option ascii :=
  match s with
  | EmptyString => None
  | String c EmptyString => Some c
  | String _ t => last t
  end.

(** [includes s sub]: [s.includes(sub)]. *)
Fixpoint includes (s sub : string) : bool :=
  prefix sub s ||
  match s with
  | EmptyString => false
  | String _ t => includes t sub
  end.

(** [s.endsWith(suffix)]. *)
Definition endsWith (s suffix : string) : bool :=
  (String.length suffix <=? String.length s)%nat &&
  String.eqb (drop (String.length s - String.length suffix) s) suffix.

(** [s.split(sep)] for a one-character separator: the pieces between the
    occurrences of [sep]; the empty string gives one empty piece. *)
Fixpoint split (sep : ascii) (s : string) : list string :=
  match s with
  | EmptyString => [EmptyString]
  | String c t =>
      if Ascii.eqb c sep then EmptyString :: split sep t
      else match split sep t with
           | piece :: pieces => String c piece :: pieces
           | [] => [char c]
           end
  end.

Definition code (c : ascii) : nat := nat_of_ascii c.

Definition between (lo hi : nat) (c : ascii) : bool :=
  ((lo <=? code c) && (code c <=? hi))%nat.

Definition is_digit (c : ascii) : bool := between 48 57 c.
Definition is_upper (c : ascii) : bool := between 65 90 c.
Definition is_lower (c : ascii) : bool := between 97 122 c.

(** [\w] *)
Definition is_word (c : ascii) : bool :=
  is_digit c || is_upper c || is_lower c || Ascii.eqb c "_".

(** WhiteSpace and LineTerminator code units below 256. *)
Definition is_space (c : ascii) : bool :=
  between 9 13 c || (code c =? 32)%nat || (code c =? 160)%nat.

(** LineTerminator: what [.] refuses. *)
Definition is_line_terminator (c : ascii) : bool :=
  (code c =? 10)%nat || (code c =? 13)%nat.

Fixpoint trimStart (s : string) : string :=
  match s with
  | String c t => if is_space c then trimStart t else s
  | EmptyString => EmptyString
  end.

Fixpoint rev_onto (s acc : string) : string :=
  match s with
  | EmptyString => acc
  | String c t => rev_onto t (String c acc)
  end.

Definition rev (s : string) : string := rev_onto s EmptyString.

(** [s.trim()] *)
Definition trim (s : string) : string :=
  rev (trimStart (rev (trimStart s))).

End Str.

(* ------------------------------------------------------------------ *)
(** ** Exceptions *)

Inductive JsError : Type :=
| SyntaxError (pattern : string)      (* new RegExp on a bad pattern *)
| TypeError (message : string)
| AssertionError
| Error (message : string).          (* new Error(message) *)

Inductive result (A : Type) : Type :=
| Ok (a : A)
| Throw (e : JsError).

Arguments Ok {A} a.
Arguments Throw {A} e.

Definition bind {A B : Type} (m : result A) (f : A -> result B) : result B :=
  match m with
  | Ok a => f a
  | Throw e => Throw e
  end.

Notation "x <- m ;; k" := (bind m (fun x => k))
  (at level 61, m at next level, right associativity).

Definition succeeds {A : Type} (m : result A) : bool :=
  match m with Ok _ => true | Throw _ => false end.

(* ------------------------------------------------------------------ *)
(** ** Regular expressions

    The part of ECMAScript's RegExp that util.ts relies on: patterns are
    parsed from their text, matched by backtracking in the order the
    standard prescribes (alternatives left to right, quantifiers greedy), and
    used by [String.prototype.replace] and [String.prototype.match].  No
    flag but [g] occurs in util.ts. *)

Module RegExp.

Inductive ClassItem : Type :=
| One (c : ascii)
| Range (lo hi : ascii)
| WordChars          (* \w *)
| Digits             (* \d *)
| Spaces.            (* \s *)

Inductive Regex : Type :=
| Empty
| Char (c : ascii)
| Dot
| Class (negated : bool) (items : list ClassItem)
| Seq (r1 r2 : Regex)
| Alt (r1 r2 : Regex)
| Star (r : Regex)
| Plus (r : Regex)
| Opt (r : Regex)
| Group (index : nat) (r : Regex)
| Bol                (* ^ *)
| Eol.               (* $ *)

Definition item_matches (i : ClassItem) (c : ascii) : bool :=
  match i with
  | One a => Ascii.eqb c a
  | Range lo hi => Str.between (Str.code lo) (Str.code hi) c
  | WordChars => Str.is_word c
  | Digits => Str.is_digit c
  | Spaces => Str.is_space c
  end.

Definition class_matches (negated : bool) (items : list ClassItem)
    (c : ascii) : bool :=
  xorb negated (existsb (fun i => item_matches i c) items).

(** *** Matching *)

(** The state of a match: the index reached, the input from there on, and
    the captures made so far (latest first). *)
Record MState : Type := mkState {
  endIndex : nat;
  rest : string;
  captures : list (nat * string)
}.

Definition Cont : Type := MState -> option MState.

Definition consume (p : ascii -> bool) (st : MState) (k : Cont)
    : option MState :=
  match rest st with
  | String c t =>
      if p c then k (mkState (S (endIndex st)) t (captures st)) else None
  | EmptyString => None
  end.

(** Backtracking: the first choice if it succeeds, else the second. *)
Notation "a <|> b" :=
  (match a with Some res => Some res | None => b end)
  (at level 55, right associativity, only parsing).

(** RepeatMatcher with minimum 0: another round of [body] first, provided
    it consumes input, then the continuation.  A round consumes at least one
    code unit, so [fuel] above the length of the input never runs out
    ([FuelFacts.repeat_fuel]).  The captures of groups inside [body] are
    kept from round to round, where the standard resets them; util.ts reads
    no such group. *)
Fixpoint repeat (body : MState -> Cont -> option MState) (fuel : nat)
    (st : MState) (k : Cont) : option MState :=
  match fuel with
  | O => k st
  | S f =>
      body st (fun st1 =>
        if (endIndex st1 =? endIndex st)%nat then None
        else repeat body f st1 k)
      <|> k st
  end.

Definition capture (index : nat) (from to : MState) : MState :=
  mkState (endIndex to) (rest to)
    ((index, Str.take (endIndex to - endIndex from) (rest from))
       :: captures to).

Fixpoint matcher (r : Regex) (st : MState) (k : Cont) {struct r}
    : option MState :=
  match r with
  | Empty => k st
  | Char c => consume (Ascii.eqb c) st k
  | Dot => consume (fun a => negb (Str.is_line_terminator a)) st k
  | Class negated items => consume (class_matches negated items) st k
  | Seq r1 r2 => matcher r1 st (fun st1 => matcher r2 st1 k)
  | Alt r1 r2 => matcher r1 st k <|> matcher r2 st k
  | Star r1 => repeat (matcher r1) (S (String.length (rest st))) st k
  | Plus r1 =>
      matcher r1 st (fun st1 =>
        repeat (matcher r1) (S (String.length (rest st1))) st1 k)
  | Opt r1 =>
      matcher r1 st (fun st1 =>
        if (endIndex st1 =? endIndex st)%nat then None else k st1)
      <|> k st
  | Group index r1 => matcher r1 st (fun st1 => k (capture index st st1))
  | Bol => if (endIndex st =? 0)%nat then k st else None
  | Eol => match rest st with EmptyString => k st | _ => None end
  end.

(** One attempt at index [pos], where [s] is the input from [pos] on. *)
Definition match_at (r : Regex) (pos : nat) (s : string) : option MState :=
  matcher r (mkState pos s []) Some.

Fixpoint lookup (index : nat) (caps : list (nat * string)) : option string :=
  match caps with
  | [] => None
  | (i, v) :: more => if (i =? index)%nat then Some v else lookup index more
  end.

Fixpoint groups (r : Regex) : nat :=
  match r with
  | Seq r1 r2 | Alt r1 r2 => groups r1 + groups r2
  | Star r1 | Plus r1 | Opt r1 => groups r1
  | Group _ r1 => S (groups r1)
  | _ => 0
  end.

(** *** Replacement templates (GetSubstitution)

    [$$], [$&], [$`], [$'] and [$n], [$nn] for an existing group are
    patterns; any other [$] stands for itself. *)

Definition digit_value (c : ascii) : nat := Str.code c - 48.

Definition group_text (index : nat) (caps : list (nat * string)) : string :=
  match lookup index caps with
  | Some v => v
  | None => EmptyString
  end.

Section Expand.
Variables (matched before after : string).
Variables (caps : list (nat * string)) (m : nat).

Definition valid_group (n : nat) : bool := ((1 <=? n) && (n <=? m))%nat.

Definition group_or_dollar (c : ascii) (t expanded_t : string)
    (expand_after_two : string) : string :=
  let two :=
    match t with
    | String d _ =>
        if Str.is_digit d
           && valid_group (10 * digit_value c + digit_value d)
        then Some (10 * digit_value c + digit_value d)
        else None
    | EmptyString => None
    end in
  match two with
  | Some n => group_text n caps ++ expand_after_two
  | None =>
      if valid_group (digit_value c)
      then group_text (digit_value c) caps ++ expanded_t
      else String "$" (String c expanded_t)
  end.

Fixpoint expand (template : string) : string :=
  match template with
  | EmptyString => EmptyString
  | String c t =>
      if negb (Ascii.eqb c "$") then String c (expand t)
      else
        match t with
        | EmptyString => "$"
        | String c1 t1 =>
            if Ascii.eqb c1 "$" then String "$" (expand t1)
            else if Ascii.eqb c1 "&" then matched ++ expand t1
            else if Ascii.eqb c1 "`" then before ++ expand t1
            else if Ascii.eqb c1 "'" then after ++ expand t1
            else if Str.is_digit c1 then
              group_or_dollar c1 t1 (expand t1)
                match t1 with
                | String _ t2 => expand t2
                | EmptyString => EmptyString
                end
            else String "$" (expand t)
        end
  end.
End Expand.

(** *** String.prototype.replace and String.prototype.match

    The scans walk the input once.  [before] is the input already passed
    and [skip] the number of code units still covered by the last match;
    a match is attempted where [skip] is 0, so the attempt after an empty
    match is one code unit further on (AdvanceStringIndex). *)

Definition matched_text (pos : nat) (s : string) (res : MState) : string :=
  Str.take (endIndex res - pos) s.

Definition substitution (r : Regex) (template before s : string)
    (res : MState) : string :=
  let len := endIndex res - String.length before in
  expand (Str.take len s) before (Str.drop len s) (captures res) (groups r)
    template.

(** [s.replace(r, template)] for a global [r]. *)
Fixpoint replace_scan (r : Regex) (template before s : string) (skip : nat)
    : string :=
  match skip with
  | S n =>
      match s with
      | String c t => replace_scan r template (before ++ Str.char c) t n
      | EmptyString => EmptyString
      end
  | O =>
      match match_at r (String.length before) s with
      | Some res =>
          substitution r template before s res ++
          match s with
          | EmptyString => EmptyString
          | String c t =>
              match endIndex res - String.length before with
              | O => String c
                       (replace_scan r template (before ++ Str.char c) t 0)
              | S n => replace_scan r template (before ++ Str.char c) t n
              end
          end
      | None =>
          match s with
          | EmptyString => EmptyString
          | String c t =>
              String c (replace_scan r template (before ++ Str.char c) t 0)
          end
      end
  end.

Definition replace_global (r : Regex) (s template : string) : string :=
  replace_scan r template EmptyString s 0.

(** [s.replace(r, template)] for an [r] without the [g] flag: the first
    match only. *)
Fixpoint replace_first_scan (r : Regex) (template before s : string)
    : string :=
  match match_at r (String.length before) s with
  | Some res =>
      substitution r template before s res
        ++ Str.drop (endIndex res - String.length before) s
  | None =>
      match s with
      | EmptyString => EmptyString
      | String c t =>
          String c (replace_first_scan r template (before ++ Str.char c) t)
      end
  end.

Definition replace_first (r : Regex) (s template : string) : string :=
  replace_first_scan r template EmptyString s.

(** The matches of a global [r] in order. *)
Fixpoint match_scan (r : Regex) (pos : nat) (s : string) (skip : nat)
    : list string :=
  match skip with
  | S n =>
      match s with
      | String _ t => match_scan r (S pos) t n
      | EmptyString => []
      end
  | O =>
      match match_at r pos s with
      | Some res =>
          matched_text pos s res ::
          match s with
          | EmptyString => []
          | String _ t => match_scan r (S pos) t (endIndex res - pos - 1)
          end
      | None =>
          match s with
          | EmptyString => []
          | String _ t => match_scan r (S pos) t 0
          end
      end
  end.

(** [s.match(r)] for a global [r]: [null] ([None]) when nothing matches. *)
Definition match_global (r : Regex) (s : string) : option (list string) :=
  match match_scan r 0 s 0 with
  | [] => None
  | found => Some found
  end.

(** *** Patterns

    [parse] reads the text of a pattern.  It covers the syntax that the
    literals of util.ts and the patterns built by [replaceAll] use:
    alternation, sequence, the greedy quantifiers, groups, classes with
    ranges, [.], [^], [$] and escapes.  What it does not cover (lazy and
    counted quantifiers, look-around, [\b], back references and the
    hexadecimal and control escapes) is refused like a pattern in error. *)

Definition is_one_of (chars : string) (c : ascii) : bool :=
  negb (Str.all (fun a => negb (Ascii.eqb c a)) chars).

Definition is_alnum (c : ascii) : bool :=
  Str.is_digit c || Str.is_upper c || Str.is_lower c.

(** The character class escapes, then the control escapes. *)
Definition escape_class (e : ascii) : option (bool * ClassItem) :=
  if Ascii.eqb e "w" then Some (false, WordChars)
  else if Ascii.eqb e "d" then Some (false, Digits)
  else if Ascii.eqb e "s" then Some (false, Spaces)
  else if Ascii.eqb e "W" then Some (true, WordChars)
  else if Ascii.eqb e "D" then Some (true, Digits)
  else if Ascii.eqb e "S" then Some (true, Spaces)
  else None.

Definition escape_char (e : ascii) : option ascii :=
  if Ascii.eqb e "n" then Some "010"%char
  else if Ascii.eqb e "t" then Some "009"%char
  else if Ascii.eqb e "r" then Some "013"%char
  else if Ascii.eqb e "f" then Some "012"%char
  else if Ascii.eqb e "v" then Some "011"%char
  else if Ascii.eqb e "0" then Some "000"%char
  else if is_alnum e then None
  else Some e.

(** An atom escape, after its backslash. *)
Definition parse_escape (s : string) : option (Regex * string) :=
  match s with
  | EmptyString => None
  | String e t =>
      match escape_class e with
      | Some (negated, item) => Some (Class negated [item], t)
      | None =>
          match escape_char e with
          | Some c => Some (Char c, t)
          | None => None
          end
      end
  end.

Definition parse_class_atom (s : string) : option (ClassItem * string) :=
  match s with
  | EmptyString => None
  | String c t =>
      if Ascii.eqb c Str.backslash then
        match t with
        | EmptyString => None
        | String e t1 =>
            match escape_class e with
            | Some (false, item) => Some (item, t1)
            | Some (true, _) => None
            | None =>
                if Ascii.eqb e "b" then Some (One "008"%char, t1)
                else match escape_char e with
                     | Some a => Some (One a, t1)
                     | None => None
                     end
            end
        end
      else Some (One c, t)
  end.

Definition cons_items (items : list ClassItem)
    (more : option (list ClassItem * string))
    : option (list ClassItem * string) :=
  match more with
  | Some (found, t) => Some ((items ++ found)%list, t)
  | None => None
  end.

(** The items of a class up to its closing bracket. *)
Fixpoint parse_class_items (fuel : nat) (s : string)
    : option (list ClassItem * string) :=
  match fuel, s with
  | S f, String c t =>
      if Ascii.eqb c "]" then Some ([], t)
      else
        match parse_class_atom s with
        | None => None
        | Some (a, t1) =>
            match a, t1 with
            | One lo, String dash (String c2 _ as t2) =>
                if Ascii.eqb dash "-" && negb (Ascii.eqb c2 "]") then
                  match parse_class_atom t2 with
                  | Some (One hi, t3) =>
                      if (Str.code lo <=? Str.code hi)%nat
                      then cons_items [Range lo hi] (parse_class_items f t3)
                      else None
                  | Some (item, t3) =>
                      cons_items [a; One "-"%char; item]
                        (parse_class_items f t3)
                  | None => None
                  end
                else cons_items [a] (parse_class_items f t1)
            | _, _ => cons_items [a] (parse_class_items f t1)
            end
        end
  | _, _ => None
  end.

Definition parse_class (s : string) : option (Regex * string) :=
  let '(negated, body) :=
    match s with
    | String c t => if Ascii.eqb c "^" then (true, t) else (false, s)
    | EmptyString => (false, s)
    end in
  match parse_class_items (S (String.length body)) body with
  | Some (items, t) => Some (Class negated items, t)
  | None => None
  end.

(** A quantifier after the atom [a], if there is one. *)
Definition quantify (a : Regex) (s : string) : option (Regex * string) :=
  match s with
  | EmptyString => Some (a, s)
  | String q t =>
      let greedy (r : Regex) :=
        match t with
        | String c _ => if Ascii.eqb c "?" then None else Some (r, t)
        | EmptyString => Some (r, t)
        end in
      if Ascii.eqb q "*" then greedy (Star a)
      else if Ascii.eqb q "+" then greedy (Plus a)
      else if Ascii.eqb q "?" then greedy (Opt a)
      else if Ascii.eqb q "{" then None
      else Some (a, s)
  end.

(** Disjunction, Alternative and Term; [g] counts the groups opened so
    far, which numbers them from the left. *)
Fixpoint parse_disjunction (fuel : nat) (s : string) (g : nat)
    : option (Regex * string * nat) :=
  match fuel with
  | O => None
  | S f =>
      match parse_alternative f s g with
      | Some (r1, String c t, g1) =>
          if Ascii.eqb c "|" then
            match parse_disjunction f t g1 with
            | Some (r2, t2, g2) => Some (Alt r1 r2, t2, g2)
            | None => None
            end
          else Some (r1, String c t, g1)
      | other => other
      end
  end
with parse_alternative (fuel : nat) (s : string) (g : nat)
    : option (Regex * string * nat) :=
  match fuel with
  | O => None
  | S f =>
      match s with
      | EmptyString => Some (Empty, s, g)
      | String c _ =>
          if Ascii.eqb c "|" || Ascii.eqb c ")" then Some (Empty, s, g)
          else
            match parse_term f s g with
            | Some (r1, t, g1) =>
                match parse_alternative f t g1 with
                | Some (r2, t2, g2) => Some (Seq r1 r2, t2, g2)
                | None => None
                end
            | None => None
            end
      end
  end
with parse_term (fuel : nat) (s : string) (g : nat)
    : option (Regex * string * nat) :=
  match fuel with
  | O => None
  | S f =>
      match s with
      | EmptyString => None
      | String c t =>
          if Ascii.eqb c "^" then Some (Bol, t, g)
          else if Ascii.eqb c "$" then Some (Eol, t, g)
          else
            let atom :=
              if Ascii.eqb c "(" then
                match t with
                | String "?" _ => None
                | _ =>
                    match parse_disjunction f t (S g) with
                    | Some (r, String ")" t2, g2) =>
                        Some (Group (S g) r, t2, g2)
                    | _ => None
                    end
                end
              else if Ascii.eqb c "[" then
                option_map (fun '(r, t1) => (r, t1, g)) (parse_class t)
              else if Ascii.eqb c "." then Some (Dot, t, g)
              else if Ascii.eqb c Str.backslash then
                option_map (fun '(r, t1) => (r, t1, g)) (parse_escape t)
              else if is_one_of "*+?){|" c then None
              else Some (Char c, t, g) in
            match atom with
            | Some (a, t1, g1) =>
                option_map (fun '(r, t2) => (r, t2, g1)) (quantify a t1)
            | None => None
            end
      end
  end.

Definition parse (pattern : string) : option Regex :=
  match parse_disjunction (3 * String.length pattern + 4) pattern 0 with
  | Some (r, EmptyString, _) => Some r
  | _ => None
  end.

(** [new RegExp(pattern, 'g')] *)
Definition create (pattern : string) : result Regex :=
  match parse pattern with
  | Some r => Ok r
  | None => Throw (SyntaxError pattern)
  end.

(** A regular expression literal [/source/]; its syntax was checked when
    the program was loaded. *)
Definition of_literal (source : string) : Regex :=
  match parse source with
  | Some r => r
  | None => Empty
  end.

(** The pattern that matches the text [s] and nothing else. *)
Fixpoint literal (s : string) : Regex :=
  match s with
  | EmptyString => Empty
  | String c t => Seq (Char c) (literal t)
  end.

End RegExp.

(* ------------------------------------------------------------------ *)
(** ** util.ts: text utilities *)

(** The literal [/([.*+?^=!:${}()|\[\]\/\\])/g]. *)
Definition escape_re : RegExp.Regex :=
  RegExp.of_literal "([.*+?^=!:${}()|\[\]\/\\])".

(** Escape a string so it can be used as a regular expression. *)
Definition escapeStringForRegex (str : string) : string :=
  RegExp.replace_global escape_re str "\$1".

(** Replace all occurrences of [needle] in [str] with [what]. *)
Definition replaceAll (str needle what : string) : result string :=
  let pattern := escapeStringForRegex needle in
  re <- RegExp.create pattern ;;
  Ok (RegExp.replace_global re str what).

(** [Array.prototype.reduce] with an initial value, for a callback that may
    throw. *)
Fixpoint Array_reduce {A B : Type} (f : B -> A -> result B) (arr : list A)
    (init : B) : result B :=
  match arr with
  | [] => Ok init
  | x :: more => acc <- f init x ;; Array_reduce f more acc
  end.

(** Remove all occurrences of a list of strings from a string. *)
Definition removeAllPatterns (str : string) (patterns : list string)
    : result string :=
  Array_reduce (fun acc needle => replaceAll acc needle EmptyString)
    patterns str.

(* ------------------------------------------------------------------ *)
(** ** The host: platform, Node's [path] and the console *)

Record Host : Type := mkHost {
  win32 : bool;                           (* process.platform === 'win32' *)
  path_sep : ascii;                       (* path.sep *)
  path_normalize : string -> string;      (* path.normalize *)
  path_basename : string -> string;       (* path.basename *)
  toLocaleLowerCase : string -> string;   (* s.toLocaleLowerCase().normalize() *)
  assert_throws : bool                    (* console.assert throws (Node before 10) *)
}.

(** Node's [path.posix]. *)
Module Posix.

Definition is_dir (seg : string) : bool :=
  negb (String.eqb seg EmptyString || String.eqb seg ".").

(** The segments of a path, resolved from the left; [stack] holds the
    segments kept so far, the last one first. *)
Fixpoint resolve (allowAboveRoot : bool) (stack segs : list string)
    : list string :=
  match segs with
  | [] => List.rev stack
  | seg :: more =>
      if String.eqb seg ".." then
        match stack with
        | top :: below =>
            if String.eqb top ".."
            then resolve allowAboveRoot (".." :: stack) more
            else resolve allowAboveRoot below more
        | [] =>
            if allowAboveRoot
            then resolve allowAboveRoot [".."] more
            else resolve allowAboveRoot [] more
        end
      else resolve allowAboveRoot (seg :: stack) more
  end.

Definition normalizeString (p : string) (allowAboveRoot : bool) : string :=
  String.concat "/"
    (resolve allowAboveRoot [] (List.filter is_dir (Str.split "/" p))).

Definition normalize (p : string) : string :=
  match p with
  | EmptyString => "."
  | String first _ =>
      let isAbsolute := Ascii.eqb first "/" in
      let trailingSeparator :=
        match Str.last p with
        | Some c => Ascii.eqb c "/"
        | None => false
        end in
      let body := normalizeString p (negb isAbsolute) in
      match body with
      | EmptyString =>
          if isAbsolute then "/"
          else if trailingSeparator then "./" else "."
      | _ =>
          (if isAbsolute then "/" else EmptyString)
            ++ body ++ (if trailingSeparator then "/" else EmptyString)
      end
  end.

(** [path.posix.basename(p)]: the last segment, trailing separators
    aside. *)
Definition basename (p : string) : string :=
  List.last (List.filter (fun seg => negb (String.eqb seg EmptyString))
               (Str.split "/" p))
    EmptyString.

Definition lower (c : ascii) : ascii :=
  if Str.is_upper c then ascii_of_nat (Str.code c + 32) else c.

Fixpoint toLowerCase (s : string) : string :=
  match s with
  | EmptyString => EmptyString
  | String c t => String (lower c) (toLowerCase t)
  end.

Definition host : Host :=
  mkHost false "/" normalize basename toLowerCase true.

End Posix.

(* ------------------------------------------------------------------ *)
(** ** util.ts: paths and variables *)

(** [s.replace(pattern, replacement)] for a string [pattern]: the first
    occurrence only. *)
Fixpoint replace_string_scan (pattern replacement before s : string)
    : string :=
  if prefix pattern s then
    RegExp.expand pattern before (Str.drop (String.length pattern) s) [] 0
      replacement
      ++ Str.drop (String.length pattern) s
  else
    match s with
    | EmptyString => EmptyString
    | String c t =>
        String c
          (replace_string_scan pattern replacement (before ++ Str.char c) t)
    end.

Definition replace_string (s pattern replacement : string) : string :=
  replace_string_scan pattern replacement EmptyString s.

(** The literal [/\/$/]. *)
Definition trailing_slash_re : RegExp.Regex := RegExp.of_literal "\/$".

(** What replaceVars reads from its surroundings:
    [vscode.workspace.rootPath] and [config.toolset]. *)
Record Workspace : Type := mkWorkspace {
  rootPath : option string;
  toolset : option string
}.

Section WithHost.

Variable host : Host.

(** [while (path.sep !== path.posix.sep && norm.includes(path.sep))
      norm = norm.replace(path.sep, path.posix.sep);]
    Each round removes one separator, so [fuel] above the length of [norm]
    never runs out ([LoopFacts.posix_separators_ends]). *)
Fixpoint posix_separators (fuel : nat) (norm : string) : string :=
  match fuel with
  | O => norm
  | S f =>
      if negb (Ascii.eqb (path_sep host) "/")
         && Str.includes norm (Str.char (path_sep host))
      then posix_separators f
             (replace_string norm (Str.char (path_sep host)) "/")
      else norm
  end.

(** [while (norm.includes('//')) norm = replaceAll(norm, '//', '/');]
    Each round shortens [norm], so [fuel] above its length never runs out
    ([LoopFacts.collapse_ends]). *)
Fixpoint collapse_separators (fuel : nat) (norm : string) : result string :=
  match fuel with
  | O => Ok norm
  | S f =>
      if Str.includes norm "//"
      then norm1 <- replaceAll norm "//" "/" ;; collapse_separators f norm1
      else Ok norm
  end.

(** Completely normalize/canonicalize a path. *)
Definition normalizePath (p : string) (normalize_case : bool)
    : result string :=
  let norm := path_normalize host p in
  let norm := posix_separators (S (String.length norm)) norm in
  let norm :=
    if normalize_case && win32 host then toLocaleLowerCase host norm
    else norm in
  let norm := RegExp.replace_first trailing_slash_re norm EmptyString in
  collapse_separators (S (String.length norm)) norm.

(** [v || fallback] on a string that may be undefined. *)
Definition or_else (v : option string) (fallback : string) : string :=
  match v with
  | Some s => if String.eqb s EmptyString then fallback else s
  | None => fallback
  end.

Definition replacements (ws : Workspace) : list (string * string) :=
  [ ("${workspaceRoot}", or_else (rootPath ws) ".");
    ("${workspaceRootFolderName}",
       path_basename host (or_else (rootPath ws) "."));
    ("${toolset}", or_else (toolset ws) "unknown") ].

Definition Object_keys (o : list (string * string)) : list string :=
  List.map fst o.

Fixpoint get (o : list (string * string)) (key : string) : string :=
  match o with
  | [] => EmptyString
  | (k, v) :: more => if String.eqb k key then v else get more key
  end.

(** Replace variable references with the corresponding variables. *)
Definition replaceVars (ws : Workspace) (str : string) : result string :=
  Array_reduce
    (fun acc key => replaceAll acc key (get (replacements ws) key))
    (Object_keys (replacements ws)) str.

End WithHost.

(* ------------------------------------------------------------------ *)
(** ** Values *)

(** A number is an IEEE 754 binary64 value, held with its sign, mantissa
    and exponent.  The type has room for mantissas and exponents that no
    binary64 value has; what is proved for all its values holds for the
    numbers. *)
Definition JsNumber : Type := spec_float.

#[warnings="-register-all"] Inductive JsValue : Type :=
| VUndefined
| VNull
| VBool (b : bool)
| VNumber (n : JsNumber)
| VString (s : string)
| VNumberObject (n : JsNumber)     (* new Number(n) *)
| VArray (elems : list JsValue)
| VObject (text : string).         (* another object; [text] is what its
                                      toString() returns *)

Module Number.

(** The integer a finite number stands for, if it stands for one. *)
Definition to_integer (negative : bool) (m : positive) (e : Z) : option Z :=
  let magnitude :=
    if (0 <=? e)%Z then Some (Z.pos m * 2 ^ e)%Z
    else if (Z.pos m mod 2 ^ (- e) =? 0)%Z
         then Some (Z.pos m / 2 ^ (- e))%Z
         else None in
  option_map (fun z => if negative then (- z)%Z else z) magnitude.

(** The nearest number to a positive integer: the integer itself below
    2^53, beyond it the integer rounded to 53 bits, to the even one of two
    that are as near, and the infinity where the rounding reaches
    2^1024. *)
Definition nearest (negative : bool) (p : positive) : JsNumber :=
  let bits := (Z.log2 (Z.pos p) + 1)%Z in
  if (bits <=? 53)%Z then S754_finite negative p 0
  else
    let k := (bits - 53)%Z in
    let q := (Z.pos p / 2 ^ k)%Z in
    let r := (Z.pos p mod 2 ^ k)%Z in
    let half := (2 ^ (k - 1))%Z in
    let m :=
      if (half <? r)%Z || ((r =? half)%Z && Z.odd q)
      then (q + 1)%Z else q in
    if (2 ^ 1024 <=? m * 2 ^ k)%Z then S754_infinity negative
    else match m with
         | Zpos m1 => S754_finite negative m1 k
         | _ => S754_zero negative
         end.

(** The number that an integer is as a value of the program. *)
Definition of_Z (z : Z) : JsNumber :=
  match z with
  | Z0 => S754_zero false
  | Zpos p => nearest false p
  | Zneg p => nearest true p
  end.

Section Rendering.

(** The text of a number that is not an integer below 2^53: the
    shortest digits that read back as the number, with an exponent from
    10^21 on, are left to the runtime. *)
Variable render_other : JsNumber -> string.

(** [Number.prototype.toString()]: an integer below 2^53 is written
    with all its digits. *)
Definition toString (n : JsNumber) : string :=
  match n with
  | S754_nan => "NaN"
  | S754_zero _ => "0"
  | S754_infinity negative => if negative then "-Infinity" else "Infinity"
  | S754_finite negative m e =>
      match to_integer negative m e with
      | Some z =>
          if (Z.abs z <? 2 ^ 53)%Z
          then NilZero.string_of_int (Z.to_int z)
          else render_other n
      | None => render_other n
      end
  end.

End Rendering.

(** ToBoolean on a number. *)
Definition toBoolean (n : JsNumber) : bool :=
  match n with
  | S754_zero _ | S754_nan => false
  | _ => true
  end.

End Number.

Section Values.

Variable render_other : JsNumber -> string.

(** [arr.join(sep)] given the conversion of the elements: undefined and
    null give the empty string. *)
Definition join_with (toString : JsValue -> string) (sep : string)
    : list JsValue -> string :=
  fix join (elems : list JsValue) : string :=
    let text (v : JsValue) :=
      match v with
      | VUndefined | VNull => EmptyString
      | _ => toString v
      end in
    match elems with
    | [] => EmptyString
    | [v] => text v
    | v :: more => text v ++ sep ++ join more
    end.

(** ToString, as a template literal applies it. *)
Fixpoint ToString (v : JsValue) : string :=
  match v with
  | VUndefined => "undefined"
  | VNull => "null"
  | VBool b => if b then "true" else "false"
  | VNumber n | VNumberObject n => Number.toString render_other n
  | VString s => s
  | VArray elems => join_with ToString "," elems
  | VObject text => text
  end.

(** [arr.join(sep)] *)
Definition Array_join (elems : list JsValue) (sep : string) : string :=
  join_with ToString sep elems.

(** ToBoolean: [!!value] *)
Definition ToBoolean (v : JsValue) : bool :=
  match v with
  | VUndefined | VNull => false
  | VBool b => b
  | VNumber n => Number.toBoolean n
  | VString s => negb (String.eqb s EmptyString)
  | VNumberObject _ | VArray _ | VObject _ => true
  end.

(** [arr.indexOf(x)] on an array of strings: -1 when [x] is not there. *)
Fixpoint indexOf (arr : list string) (x : string) : Z :=
  match arr with
  | [] => (-1)%Z
  | y :: more =>
      if String.eqb y x then 0%Z
      else let i := indexOf more x in
           if (i <? 0)%Z then (-1)%Z else (i + 1)%Z
  end.

(** Check if a value is "truthy" according to CMake's own language
    rules. *)
Definition isTruthy (value : JsValue) : bool :=
  match value with
  | VString s =>
      negb ((0 <=? indexOf [ EmptyString; "FALSE"; "OFF"; "0"; "NOTFOUND";
                             "NO"; "N"; "IGNORE" ] s)%Z
            || Str.endsWith s "-NOTFOUND")
  | _ => ToBoolean value
  end.

Inductive CMakeType : Type := UNKNOWN | BOOL | STRING.

Record CMakeValue : Type := mkCMakeValue {
  type : CMakeType;
  value : string
}.

(** The branches are the tests of the source in their order:
    [value === true || value === false], [typeof value === 'string'],
    [value instanceof Number || typeof value === 'number'],
    [value instanceof Array], and the [throw] for the rest. *)
Definition cmakeify (v : JsValue) : result CMakeValue :=
  match v with
  | VBool b => Ok (mkCMakeValue BOOL (if b then "TRUE" else "FALSE"))
  | VString s =>
      text <- replaceAll s ";" "\;" ;; Ok (mkCMakeValue STRING text)
  | VNumber n | VNumberObject n =>
      Ok (mkCMakeValue STRING (Number.toString render_other n))
  | VArray elems => Ok (mkCMakeValue STRING (Array_join elems ";"))
  | _ =>
      Throw (Error ("Invalid value to convert to cmake value: "
                      ++ ToString v))
  end.

End Values.

(* ------------------------------------------------------------------ *)
(** ** util.ts: the command line *)

(** The literal of [cmd_re]: a single-quoted span, a double-quoted span, a
    run of escaped blanks and of code units other than the blank, or a run
    of word characters and hyphens.  The double quote is spliced into the
    text as [Str.dquote]. *)
Definition cmd_re : RegExp.Regex :=
  RegExp.of_literal
    ("('(\\'|[^'])*'|" ++ Str.char Str.dquote ++ "(\\" ++ Str.char Str.dquote
       ++ "|[^" ++ Str.char Str.dquote ++ "])*" ++ Str.char Str.dquote
       ++ "|(\\ |[^ ])+|[\w-]+)").

(** The literal of the first replace: a backslash, then a double quote as
    group 1. *)
Definition escaped_quote_re : RegExp.Regex :=
  RegExp.of_literal ("\\(" ++ Str.char Str.dquote ++ ")").

(** The literal of the second replace: from the start a double quote, group
    1 of any code units but line terminators, a double quote at the end. *)
Definition quoted_re : RegExp.Regex :=
  RegExp.of_literal
    ("^" ++ Str.char Str.dquote ++ "(.*)" ++ Str.char Str.dquote ++ "$").

(** The two replaces that [splitCommandLine] maps over the matches, both
    with the template [$1]. *)
Definition unquote (arg : string) : string :=
  RegExp.replace_global quoted_re
    (RegExp.replace_global escaped_quote_re arg "$1") "$1".

Definition splitCommandLine (host : Host) (cmd : string)
    : result (list string) :=
  match RegExp.match_global cmd_re cmd with
  | None =>
      (* console.assert(null), then null.map *)
      if assert_throws host then Throw AssertionError
      else Throw (TypeError "Cannot read property 'map' of null")
  | Some quoted_args => Ok (List.map unquote quoted_args)
  end.

(* ------------------------------------------------------------------ *)
(** ** util.ts: process trees *)

(** [Number.parseInt(s)] without a radix; [None] is NaN.  Integers are
    taken as exact. *)
Module ParseInt.

Definition digit (radix : Z) (c : ascii) : option Z :=
  let d :=
    if Str.is_digit c then Some (Z.of_nat (Str.code c) - 48)%Z
    else if Str.is_lower c then Some (Z.of_nat (Str.code c) - 87)%Z
    else if Str.is_upper c then Some (Z.of_nat (Str.code c) - 55)%Z
    else None in
  match d with
  | Some v => if (v <? radix)%Z then Some v else None
  | None => None
  end.

(** The value of the longest prefix of digits; [acc] is the value read so
    far, if a digit was read. *)
Fixpoint digits (radix : Z) (acc : option Z) (s : string) : option Z :=
  match s with
  | EmptyString => acc
  | String c t =>
      match digit radix c with
      | Some v =>
          digits radix
            (Some (match acc with
                   | Some a => a * radix + v
                   | None => v
                   end)%Z) t
      | None => acc
      end
  end.

Definition parseInt (s : string) : option Z :=
  let s1 := Str.trimStart s in
  let '(negative, s2) :=
    match s1 with
    | String c t =>
        if Ascii.eqb c "-" then (true, t)
        else if Ascii.eqb c "+" then (false, t)
        else (false, s1)
    | EmptyString => (false, s1)
    end in
  let '(radix, s3) :=
    match s2 with
    | String z (String x t) =>
        if Ascii.eqb z "0" && (Ascii.eqb x "x" || Ascii.eqb x "X")
        then (16, t) else (10, s2)
    | _ => (10, s2)
    end%Z in
  option_map (fun v => if negative then (- v)%Z else v)
    (digits radix None s3).

End ParseInt.

(** What [process.kill(pid, 'SIGINT')] does. *)
Inductive KillResult : Type :=
| Delivered
| NoSuchProcess                 (* throws, e.code === 'ESRCH' *)
| Refused (code : string).      (* throws with another code *)

(** The operating system as [_killTree] sees it: the output of
    [pgrep -P pid] and the result of a signal, per process identifier. *)
Record OS : Type := mkOS {
  pgrep : Z -> string;
  kill : Z -> KillResult
}.

Inductive Event : Type :=
| Signal (pid : Z)              (* process.kill(pid, 'SIGINT') was called *)
| TaskKill (pid : Z).           (* taskkill /pid pid /T /F was started *)

(** A run ends with a result and the events it caused, in order; [None]
    stands for a run that did not end within its fuel. *)
Definition Run (A : Type) : Type := option (result A * list Event).

Definition truthy (n : option Z) : bool :=
  match n with
  | Some z => negb (z =? 0)%Z
  | None => false
  end.

(** [for (const other of children) body(other)], left when [body] throws. *)
Fixpoint for_of (body : option Z -> Run unit) (children : list (option Z))
    : Run unit :=
  match children with
  | [] => Some (Ok tt, [])
  | other :: more =>
      match body other with
      | None => None
      | Some (Throw e, events) => Some (Throw e, events)
      | Some (Ok _, events) =>
          match for_of body more with
          | None => None
          | Some (r, events1) => Some (r, (events ++ events1)%list)
          end
      end
  end.

Section Processes.

Variables (host : Host) (os : OS).

(** The children that [_killTree] reads from pgrep's output. *)
Definition children_of (pid : Z) : list (option Z) :=
  let stdout := Str.trim (pgrep os pid) in
  if negb (String.length stdout =? 0)%nat
  then List.map ParseInt.parseInt (Str.split Str.newline stdout)
  else [].

Fixpoint _killTree (fuel : nat) (pid : Z) : Run unit :=
  if negb (win32 host) then
    match fuel with
    | O => None
    | S f =>
        match
          for_of (fun other =>
                    if truthy other
                    then match other with
                         | Some child => _killTree f child
                         | None => Some (Ok tt, [])
                         end
                    else Some (Ok tt, []))
            (children_of pid)
        with
        | None => None
        | Some (Throw e, events) => Some (Throw e, events)
        | Some (Ok _, events) =>
            match kill os pid with
            | Delivered | NoSuchProcess =>
                Some (Ok tt, (events ++ [Signal pid])%list)
            | Refused code =>
                Some (Throw (Error code), (events ++ [Signal pid])%list)
            end
        end
    end
  else Some (Ok tt, [TaskKill pid]).

(** A child process handle. *)
Record ChildProcess : Type := mkChild { pid : Z }.

Definition termProc (fuel : nat) (child : ChildProcess) : Run bool :=
  match _killTree fuel (pid child) with
  | None => None
  | Some (Ok _, events) => Some (Ok true, events)
  | Some (Throw e, events) => Some (Throw e, events)
  end.

End Processes.

(* ------------------------------------------------------------------ *)
(** ** Reading a list back *)

(** The decoder of a marshalled list, written from the words of the
    specification (util.ts has no decoder): the text is split at every
    semicolon that no backslash precedes; the empty text is the empty list. *)
Module Decode.

(** [current] is the element being read, reversed; [escaped] tells that
    the code unit before was a backslash. *)
Fixpoint split_from (current : string) (escaped : bool) (s : string)
    : list string :=
  match s with
  | EmptyString => [Str.rev current]
  | String c t =>
      if Ascii.eqb c ";" && negb escaped
      then Str.rev current :: split_from EmptyString false t
      else split_from (String c current) (Ascii.eqb c Str.backslash) t
  end.

Definition split_unescaped (text : string) : list string :=
  match text with
  | EmptyString => []
  | _ => split_from EmptyString false text
  end.

End Decode.

(* ------------------------------------------------------------------ *)
(** ** Literal replacement

    What [replaceAll] is meant to compute, written without regular
    expressions: the occurrences of [needle] are found from the left and do
    not overlap; the empty [needle] occurs before every code unit and at the
    end.  [skip] counts the code units still covered by the occurrence just
    replaced. *)

Fixpoint replace_literal_scan (needle what s : string) (skip : nat) : string :=
  match skip with
  | S n =>
      match s with
      | String _ t => replace_literal_scan needle what t n
      | EmptyString => EmptyString
      end
  | O =>
      if prefix needle s then
        what ++
        match s with
        | EmptyString => EmptyString
        | String c t =>
            match String.length needle with
            | O => String c (replace_literal_scan needle what t 0)
            | S n => replace_literal_scan needle what t n
            end
        end
      else
        match s with
        | EmptyString => EmptyString
        | String c t => String c (replace_literal_scan needle what t 0)
        end
  end.

Definition replace_literal (str needle what : string) : string :=
  replace_literal_scan needle what str 0.

(** A replacement text without patterns: no [$] is followed by [$], [&],
    a backquote, a quote or a digit. *)
Fixpoint plain (what : string) : bool :=
  match what with
  | EmptyString => true
  | String c t =>
      (if Ascii.eqb c "$" then
         match t with
         | EmptyString => true
         | String c1 _ =>
             negb (RegExp.is_one_of "$&`'" c1 || Str.is_digit c1)
         end
       else true)
      && plain t
  end.

(** The code units that [escapeStringForRegex] escapes. *)
Definition is_special (c : ascii) : bool :=
  RegExp.is_one_of ".*+?^=!:${}()|[]/\" c.

Fixpoint escaped (s : string) : string :=
  match s with
  | EmptyString => EmptyString
  | String c t =>
      if is_special c then String Str.backslash (String c (escaped t))
      else String c (escaped t)
  end.

(** Every semicolon of [s] with a backslash before it. *)
Fixpoint escape_semicolons (s : string) : string :=
  match s with
  | EmptyString => EmptyString
  | String c t =>
      if Ascii.eqb c ";" then String Str.backslash (String c (escape_semicolons t))
      else String c (escape_semicolons t)
  end.

(** The values that [cmakeify] converts. *)
Definition convertible (v : JsValue) : bool :=
  match v with
  | VBool _ | VString _ | VNumber _ | VNumberObject _ | VArray _ => true
  | VUndefined | VNull | VObject _ => false
  end.

Definition denylist : list string :=
  [ "FALSE"; "OFF"; "0"; "NOTFOUND"; "NO"; "N"; "IGNORE" ].

(** A substitution in one pass, as a reader of the word expects it: the
    template is read once from the left, a placeholder found at the current
    position is replaced by its value, and the value is not read again. *)
Fixpoint find_placeholder (table : list (string * string)) (s : string)
    : option (string * string) :=
  match table with
  | [] => None
  | (key, v) :: more =>
      if prefix key s then Some (key, v) else find_placeholder more s
  end.

Fixpoint single_pass_scan (table : list (string * string)) (s : string)
    (skip : nat) : string :=
  match skip, s with
  | _, EmptyString => EmptyString
  | S n, String _ t => single_pass_scan table t n
  | O, String c t =>
      match find_placeholder table s with
      | Some (key, v) => v ++ single_pass_scan table t (String.length key - 1)
      | None => String c (single_pass_scan table t 0)
      end
  end.

Definition single_pass (table : list (string * string)) (s : string)
    : string :=
  single_pass_scan table s 0.

(** A stand-in for the rendering that is left to the runtime, for the
    examples that need none of it. *)
Definition unrendered : JsNumber -> string := fun _ => "?".

(** An element that a list can carry: it holds no semicolon and does not
    end with a backslash. *)
Definition listable (s : string) : Prop :=
  Str.all (fun c => negb (Ascii.eqb c ";")) s = true
  /\ Str.last s <> Some Str.backslash.

(* ------------------------------------------------------------------ *)
(** ** Process trees, as [_killTree] finds them *)

Section Trees.

Variable os : OS.

(** [child] is a process that [_killTree parent] descends into. *)
Definition is_child (parent child : Z) : Prop :=
  In (Some child) (children_of os parent) /\ child <> 0%Z.

Inductive descendant (ancestor : Z) : Z -> Prop :=
| descendant_child (c : Z) :
    is_child ancestor c -> descendant ancestor c
| descendant_below (c d : Z) :
    is_child ancestor c -> descendant c d -> descendant ancestor d.

(** The tree below [root] has at most [depth] levels. *)
Inductive finite_tree : nat -> Z -> Prop :=
| finite_tree_node (depth : nat) (root : Z) :
    (forall c, is_child root c -> finite_tree depth c) ->
    finite_tree (S depth) root.

(** Where a signal to a process occurs, the signals to its descendants
    come before. *)
Definition children_first (events : list Event) : Prop :=
  forall (before : list Event) (q : Z) (after : list Event),
    events = (before ++ Signal q :: after)%list ->
    forall d, descendant q d -> In (Signal d) before.

End Trees.

(** A process 100 with the children 101 and 102, of which 102 has exited
    by the time it is signalled. *)
Definition two_children : OS :=
  mkOS (fun p => if (p =? 100)%Z
                 then "101" ++ Str.char Str.newline ++ "102"
                        ++ Str.char Str.newline
                 else EmptyString)
       (fun p => if (p =? 102)%Z then NoSuchProcess else Delivered).

(** No process at all. *)
Definition no_process : OS :=
  mkOS (fun _ => EmptyString) (fun _ => NoSuchProcess).

(* ------------------------------------------------------------------ *)
(** ** The parts of [cmd_re] and the commands they are read on *)

Module Cmd.
Import RegExp.

(** One code unit inside a span that [quote] closes: the escaped
    [quote], or any code unit but [quote]. *)
Definition unit_re (group : nat) (quote : ascii) : Regex :=
  Group group
    (Alt (Seq (Char Str.backslash) (Seq (Char quote) Empty))
         (Seq (Class true [One quote]) Empty)).

Definition span_re (group : nat) (quote : ascii) : Regex :=
  Seq (Char quote)
    (Seq (Star (unit_re group quote)) (Seq (Char quote) Empty)).

Definition run_re : Regex := Seq (Plus (unit_re 4 " ")) Empty.

Definition word_re : Regex :=
  Seq (Plus (Class false [WordChars; One "-"%char])) Empty.

(** A code unit of a double-quoted span. *)
Inductive Piece : Type :=
| Plain (c : ascii)
| EscapedQuote.             (* a backslash and a double quote *)

(** An argument as it is written on the command line. *)
Inductive Item : Type :=
| Bare (word : string)
| SingleQuoted (body : string)
| DoubleQuoted (body : list Piece).

(** The text of a span body in which the escaped code unit is [quote]. *)
Fixpoint raw (quote : ascii) (body : list Piece) : string :=
  match body with
  | [] => EmptyString
  | Plain c :: more => String c (raw quote more)
  | EscapedQuote :: more =>
      String Str.backslash (String quote (raw quote more))
  end.

Fixpoint cooked (body : list Piece) : string :=
  match body with
  | [] => EmptyString
  | Plain c :: more => String c (cooked more)
  | EscapedQuote :: more => String Str.dquote (cooked more)
  end.

Fixpoint plain_pieces (s : string) : list Piece :=
  match s with
  | EmptyString => []
  | String c t => Plain c :: plain_pieces t
  end.

Definition quoted (quote : ascii) (body : string) : string :=
  String quote (body ++ Str.char quote).

(** What is typed. *)
Definition text (i : Item) : string :=
  match i with
  | Bare word => word
  | SingleQuoted body => quoted "'" body
  | DoubleQuoted body => quoted Str.dquote (raw Str.dquote body)
  end.

(** What [splitCommandLine] makes of it. *)
Definition token (i : Item) : string :=
  match i with
  | Bare word => word
  | SingleQuoted body => quoted "'" body
  | DoubleQuoted body => cooked body
  end.

Definition none_of (chars : string) (s : string) : bool :=
  Str.all (fun c => negb (is_one_of chars c)) s.

Definition plain_piece (p : Piece) : bool :=
  match p with
  | Plain c =>
      negb (Ascii.eqb c Str.dquote || Ascii.eqb c Str.backslash
            || Str.is_line_terminator c)
  | EscapedQuote => true
  end.

(** A bare word is not empty and holds no blank, backslash or quote; a
    single-quoted body holds no single quote and no backslash; a
    double-quoted body holds no line terminator, and double quotes and
    backslashes only as escaped quotes. *)
Definition well_formed (i : Item) : bool :=
  match i with
  | Bare word =>
      negb (String.eqb word EmptyString)
      && none_of (String " " (String Str.backslash
                    (String "'" (String Str.dquote EmptyString)))) word
  | SingleQuoted body =>
      none_of (String "'" (String Str.backslash EmptyString)) body
  | DoubleQuoted body => List.forallb plain_piece body
  end.

Fixpoint blanks (n : nat) : string :=
  match n with
  | O => EmptyString
  | S k => String " " (blanks k)
  end.

(** The items of a command, each with the number of blanks put before it
    beyond the one that separates it from the item before. *)
Fixpoint spaced (items : list (nat * Item)) : string :=
  match items with
  | [] => EmptyString
  | (gap, i) :: more =>
      blanks gap ++ text i ++
      match more with
      | [] => EmptyString
      | _ => String " " (spaced more)
      end
  end.

(** A command: its items and the blanks at its end. *)
Definition command (items : list (nat * Item)) (trailing : nat) : string :=
  spaced items ++ blanks trailing.

Definition tokens (items : list (nat * Item)) : list string :=
  List.map (fun gi => token (snd gi)) items.

Definition all_well_formed (items : list (nat * Item)) : bool :=
  List.forallb (fun gi => well_formed (snd gi)) items.

End Cmd.

Definition is_blank (c : ascii) : bool := Ascii.eqb c " ".

(** The run of a match ends at index [e]. *)
Definition ends_at (o : option RegExp.MState) (e : nat) : Prop :=
  exists res, o = Some res /\ RegExp.endIndex res = e.

(** What may follow a body that [quote] closes. *)
Definition stops (quote : ascii) (tail : string) : Prop :=
  tail = EmptyString \/ exists t, tail = String quote t.

Definition piece_ok (quote : ascii) (p : Cmd.Piece) : Prop :=
  match p with
  | Cmd.Plain c =>
      Ascii.eqb c quote = false /\ Ascii.eqb Str.backslash c = false
  | Cmd.EscapedQuote => True
  end.

(** The command of the first example: build, --target, My App between
    double quotes, -j4. *)
Definition build_command : list (nat * Cmd.Item) :=
  [ (0, Cmd.Bare "build"); (0, Cmd.Bare "--target");
    (0, Cmd.DoubleQuoted (Cmd.plain_pieces "My App")); (0, Cmd.Bare "-j4") ].

(** The command of the second example: echo and, between double quotes,
    say and hi, with hi between escaped double quotes. *)
Definition echo_command : list (nat * Cmd.Item) :=
  [ (0, Cmd.Bare "echo");
    (0, Cmd.DoubleQuoted
          (Cmd.plain_pieces "say " ++ [Cmd.EscapedQuote]
             ++ Cmd.plain_pieces "hi" ++ [Cmd.EscapedQuote])%list) ].

(** A command with blanks around its items and between them. *)
Definition padded_command : list (nat * Cmd.Item) :=
  [ (2, Cmd.Bare "cmake"); (1, Cmd.SingleQuoted "a b");
    (0, Cmd.DoubleQuoted [Cmd.Plain "x"; Cmd.EscapedQuote; Cmd.Plain " "]) ].

(* ------------------------------------------------------------------ *)
(** ** Notions used in the proofs *)

Definition specials : list ascii :=
  [ "."; "*"; "+"; "?"; "^"; "="; "!"; ":"; "$"; "{"; "}"; "("; ")"; "|";
    "["; "]"; "/"; Str.backslash ]%char.

(** Whether the code unit before the current one was a backslash, after
    [x] has been read. *)
Definition ends_escaped (escaped : bool) (x : string) : bool :=
  match Str.last x with
  | Some c => Ascii.eqb c Str.backslash
  | None => escaped
  end.

Definition not_backslash (c : ascii) : bool :=
  negb (Ascii.eqb Str.backslash c).

Definition not_terminator (c : ascii) : bool :=
  negb (Str.is_line_terminator c).

Section Visits.

Variables (host : Host) (os : OS).

(** The body of the loop over the children. *)
Definition visit (fuel : nat) (other : option Z) : Run unit :=
  if truthy other
  then match other with
       | Some child => _killTree host os fuel child
       | None => Some (Ok tt, [])
       end
  else Some (Ok tt, []).

(** What a finished run on [p] has done. *)
Definition node_done (p : Z) (r : result unit) (events : list Event)
    : Prop :=
  children_first os events
  /\ (r = Ok tt ->
      exists body, events = (body ++ [Signal p])%list
                   /\ forall d, descendant os p d -> In (Signal d) body).

Definition deliverable (q : Z) : Prop :=
  kill os q = Delivered \/ kill os q = NoSuchProcess.

End Visits.

(** [st1] is a state further on in the input of [st]. *)
Definition extends (st st1 : RegExp.MState) : Prop :=
  exists consumed,
    RegExp.rest st = consumed ++ RegExp.rest st1
    /\ RegExp.endIndex st1 = RegExp.endIndex st + String.length consumed.

(* ------------------------------------------------------------------ *)
(** ** Paths on a POSIX host *)

(** [s] without one separator at its end. *)
Fixpoint strip_slash (s : string) : string :=
  match s with
  | EmptyString => EmptyString
  | String c t =>
      match t with
      | EmptyString => if Ascii.eqb "/" c then EmptyString else s
      | _ => String c (strip_slash t)
      end
  end.

Definition no_slash (seg : string) : bool :=
  Str.all (fun c => negb (Ascii.eqb c "/")) seg.

(** A segment that [path.normalize] keeps. *)
Definition proper (seg : string) : bool := Posix.is_dir seg && no_slash seg.

Definition is_dotdot (seg : string) : bool := String.eqb seg "..".

(** A list of segments that holds [..] at its front only, and only where
    the path may leave its root. *)
Definition settled (allowAboveRoot : bool) (segs : list string) : Prop :=
  exists n names,
    segs = (List.repeat ".." n ++ names)%list
    /\ forallb (fun seg => negb (is_dotdot seg)) names = true
    /\ (allowAboveRoot = false -> n = 0).

(** No two separators in a row. *)
Fixpoint single_slashes (s : string) : bool :=
  match s with
  | EmptyString => true
  | String c t =>
      negb (Ascii.eqb c "/"
            && match t with
               | String c1 _ => Ascii.eqb c1 "/"
               | EmptyString => false
               end)
      && single_slashes t
  end.

(** The stack of [resolve], the last segment first: names on top of the
    [..] that left the root. *)
Definition stacked (allow : bool) (stack : list string) : Prop :=
  exists n names,
    stack = (names ++ List.repeat ".." n)%list
    /\ forallb (fun seg => negb (is_dotdot seg)) names = true
    /\ (allow = false -> n = 0).

(** What [path.posix.normalize] puts together from the resolved
    segments. *)
Definition render (isAbsolute trailingSeparator : bool) (segs : list string)
    : string :=
  match segs with
  | [] =>
      if isAbsolute then "/"
      else if trailingSeparator then "./" else "."
  | _ =>
      (if isAbsolute then "/" else EmptyString)
        ++ String.concat "/" segs
        ++ (if trailingSeparator then "/" else EmptyString)
  end.

(** [s] starts, or ends, with a code unit that is no separator. *)
Definition head_ok (s : string) : bool :=
  match s with
  | String c _ => negb (Ascii.eqb c "/")
  | EmptyString => false
  end.

Definition last_ok (s : string) : bool :=
  match Str.last s with
  | Some c => negb (Ascii.eqb c "/")
  | None => false
  end.

(** The number of occurrences of a code unit. *)
Fixpoint count (c : ascii) (s : string) : nat :=
  match s with
  | EmptyString => 0
  | String a t => (if Ascii.eqb a c then 1 else 0) + count c t
  end.

(* ------------------------------------------------------------------ *)
(** ** Further hosts and process listings *)

(** Node's [path.win32] and a Windows host.  Both the slash and the
    backslash separate; the root of a path is a drive, a UNC share or a
    single separator.  This is the module as Node 6 to 18 have it; later
    versions also guard a relative path whose result would start like a
    drive. *)
Module Win32.

Definition isPathSeparator (c : ascii) : bool :=
  Ascii.eqb c "/" || Ascii.eqb c Str.backslash.

Definition isWindowsDeviceRoot (c : ascii) : bool :=
  Str.is_upper c || Str.is_lower c.

Definition is_empty (s : string) : bool :=
  match s with
  | EmptyString => true
  | String _ _ => false
  end.

(** The code units before the first separator, and the rest from that
    separator on. *)
Fixpoint until_separator (s : string) : string * string :=
  match s with
  | EmptyString => (EmptyString, EmptyString)
  | String c t =>
      if isPathSeparator c then (EmptyString, s)
      else let '(name, rest) := until_separator t in (String c name, rest)
  end.

Fixpoint skip_separators (s : string) : string :=
  match s with
  | EmptyString => EmptyString
  | String c t => if isPathSeparator c then skip_separators t else s
  end.

(** The segments between separators of either kind. *)
Fixpoint segments (s : string) : list string :=
  match s with
  | EmptyString => [EmptyString]
  | String c t =>
      if isPathSeparator c then EmptyString :: segments t
      else match segments t with
           | seg :: more => String c seg :: more
           | [] => [String c EmptyString]
           end
  end.

Definition normalizeString (p : string) (allowAboveRoot : bool) : string :=
  String.concat (Str.char Str.backslash)
    (Posix.resolve allowAboveRoot []
       (List.filter Posix.is_dir (segments p))).

(** What the search for a root finds: the whole result for a path that is
    a UNC root and nothing more, or else the device, if any, whether the
    path is absolute, and the path from the end of the root on. *)
Inductive Root : Type :=
| Whole (normalized : string)
| Rooted (device : option string) (isAbsolute : bool) (rest : string).

Definition unc (firstPart secondPart : string) : string :=
  String Str.backslash (String Str.backslash firstPart)
    ++ String Str.backslash secondPart.

(** The root of a path of two code units or more.  Where two separators
    open the path and no share follows the server name, the root is empty
    and the path is absolute. *)
Definition root (path : string) : Root :=
  match path with
  | String c0 (String c1 after) =>
      if isPathSeparator c0 then
        if isPathSeparator c1 then
          let '(firstPart, rest1) := until_separator after in
          if negb (is_empty rest1) && negb (is_empty firstPart) then
            let rest2 := skip_separators rest1 in
            if negb (is_empty rest2) then
              let '(secondPart, rest3) := until_separator rest2 in
              if is_empty rest3
              then Whole (unc firstPart secondPart
                            ++ Str.char Str.backslash)
              else Rooted (Some (unc firstPart secondPart)) true rest3
            else Rooted None true path
          else Rooted None true path
        else Rooted None true (String c1 after)
      else if isWindowsDeviceRoot c0 && Ascii.eqb c1 ":" then
        let device := String c0 (String c1 EmptyString) in
        match after with
        | String c2 t =>
            if isPathSeparator c2 then Rooted (Some device) true t
            else Rooted (Some device) false after
        | EmptyString => Rooted (Some device) false EmptyString
        end
      else Rooted None false path
  | _ => Rooted None false path
  end.

(** [path.win32.normalize(path)]. *)
Definition normalize (path : string) : string :=
  match path with
  | EmptyString => "."
  | String c EmptyString =>
      if isPathSeparator c then Str.char Str.backslash else path
  | _ =>
      match root path with
      | Whole normalized => normalized
      | Rooted device isAbsolute rest =>
          let tail0 := normalizeString rest (negb isAbsolute) in
          let tail1 :=
            if is_empty tail0 && negb isAbsolute then "." else tail0 in
          let trailingSeparator :=
            match Str.last path with
            | Some c => isPathSeparator c
            | None => false
            end in
          let tail :=
            if negb (is_empty tail1) && trailingSeparator
            then tail1 ++ Str.char Str.backslash else tail1 in
          let from_root :=
            if isAbsolute then String Str.backslash tail else tail in
          match device with
          | None => from_root
          | Some d => d ++ from_root
          end
      end
  end.

(** [path.win32.basename(path)]: the last segment that is not empty, a
    drive at the start and separators at the end aside. *)
Definition basename (path : string) : string :=
  let after_drive :=
    match path with
    | String c0 (String c1 after) =>
        if isWindowsDeviceRoot c0 && Ascii.eqb c1 ":" then after else path
    | _ => path
    end in
  List.last (List.filter (fun seg => negb (is_empty seg))
               (segments after_drive))
    EmptyString.

(** The lower case of a code unit below 256 in a locale without rules of
    its own: the letters A to Z and the capital letters from 192 to 222,
    the multiplication sign 215 apart. *)
Definition lower (c : ascii) : ascii :=
  if Str.is_upper c
     || (Str.between 192 222 c && negb (Str.code c =? 215)%nat)
  then ascii_of_nat (Str.code c + 32) else c.

(** [s.toLocaleLowerCase().normalize()]; the code units below 256 are in
    normal form as they are. *)
Fixpoint toLocaleLowerCase (s : string) : string :=
  match s with
  | EmptyString => EmptyString
  | String c t => String (lower c) (toLocaleLowerCase t)
  end.

Definition host : Host :=
  mkHost true Str.backslash normalize basename toLocaleLowerCase true.

End Win32.

(** A host on which [console.assert] only logs, as Node does from version
    10 on and the browsers do. *)
Definition logging (host : Host) : Host :=
  mkHost (win32 host) (path_sep host) (path_normalize host)
    (path_basename host) (toLocaleLowerCase host) false.

(** The number [n] is the integer [z]: its sign, mantissa and exponent give
    [z] exactly. *)
Definition is_integer (n : JsNumber) (z : Z) : Prop :=
  match n with
  | S754_zero _ => z = 0%Z
  | S754_finite negative m e =>
      ((if negative then - z else z) * 2 ^ Z.max 0 (- e)
       = Z.pos m * 2 ^ Z.max 0 e)%Z
  | _ => False
  end.

(** The process 100 with the children 101 and 102, where the signal to 101
    is refused. *)
Definition refused_child : OS :=
  mkOS (pgrep two_children)
       (fun p => if (p =? 101)%Z then Refused "EPERM" else Delivered).

(** A listing with a cycle: 7 is listed below 8 and 8 below 7. *)
Definition looping : OS :=
  mkOS (fun p => if (p =? 7)%Z then "8"
                 else if (p =? 8)%Z then "7" else EmptyString)
       (fun _ => Delivered).

(* ------------------------------------------------------------------ *)
(** ** Replacement templates *)

(** A replacement text whose patterns do not look at the text around the
    match: no [$] is followed by a backquote or a quote where a pattern may
    start.  [$$] and [$&] are allowed. *)
Fixpoint context_free (what : string) : bool :=
  match what with
  | EmptyString => true
  | String c t =>
      if negb (Ascii.eqb c "$") then context_free t
      else
        match t with
        | EmptyString => true
        | String c1 t1 =>
            if Ascii.eqb c1 "$" then context_free t1
            else if Ascii.eqb c1 "&" then context_free t1
            else if Ascii.eqb c1 "`" then false
            else if Ascii.eqb c1 "'" then false
            else context_free t
        end
  end.

(** [a] is [b] with some code units deleted. *)
Inductive subsequence : string -> string -> Prop :=
| subsequence_end : subsequence EmptyString EmptyString
| subsequence_keep (c : ascii) (a b : string) :
    subsequence a b -> subsequence (String c a) (String c b)
| subsequence_drop (c : ascii) (a b : string) :
    subsequence a b -> subsequence a (String c b).

(* ------------------------------------------------------------------ *)
(** ** Arrays of values *)

(** [prev.concat(item)]: the elements of an array are appended, any other
    value is appended as it is. *)
Definition Array_concat (prev : list JsValue) (item : JsValue)
    : list JsValue :=
  match item with
  | VArray elems => (prev ++ elems)%list
  | _ => (prev ++ [item])%list
  end.

(** The Cartesian product of the arrays: [acc] holds the tuples over the
    arrays already taken. *)
Definition product (arrays : list (list JsValue)) : list (list JsValue) :=
  fold_left
    (fun acc curr =>
       fold_left (fun a b => (a ++ b)%list)
         (List.map
            (fun prev => List.map (fun item => Array_concat prev item) curr)
            acc)
         [])
    arrays [[]].

Definition is_array (v : JsValue) : bool :=
  match v with
  | VArray _ => true
  | _ => false
  end.

(** No element of the arrays is an array itself. *)
Definition flat (arrays : list (list JsValue)) : bool :=
  forallb (forallb (fun v => negb (is_array v))) arrays.

(** The tuples that take one element of each array, the elements of the
    first array varying slowest. *)
Fixpoint tuples (arrays : list (list JsValue)) : list (list JsValue) :=
  match arrays with
  | [] => [[]]
  | first :: more =>
      flat_map (fun item => List.map (cons item) (tuples more)) first
  end.

(* ------------------------------------------------------------------ *)
(** ** Bare words with escaped blanks *)

(** A code unit of such a word: an escaped blank, or a code unit other than
    the blank, the backslash and the two quotes. *)
Definition word_piece (p : Cmd.Piece) : bool :=
  match p with
  | Cmd.Plain c =>
      negb (RegExp.is_one_of
              (String " " (String Str.backslash
                 (String "'" (String Str.dquote EmptyString)))) c)
  | Cmd.EscapedQuote => true
  end.

Definition escaped_word (w : list Cmd.Piece) : bool :=
  negb (Nat.eqb (List.length w) 0) && forallb word_piece w.

(** The word as it is typed: the backslash stands before each escaped
    blank. *)
Definition word_text (w : list Cmd.Piece) : string := Cmd.raw " " w.

(* ------------------------------------------------------------------ *)
(** ** Reading a marshalled string back *)

(** [s] without the backslash before a semicolon. *)
Fixpoint unescape_semicolons (s : string) : string :=
  match s with
  | EmptyString => EmptyString
  | String c t =>
      if Ascii.eqb c Str.backslash
         && match t with
            | String c1 _ => Ascii.eqb c1 ";"
            | EmptyString => false
            end
      then unescape_semicolons t
      else String c (unescape_semicolons t)
  end.

(* ------------------------------------------------------------------ *)
(** ** Objects as lists of properties *)

Section Objects.

Variable V : Type.

(** The own properties of an object, in the order in which
    [Object.getOwnPropertyNames] lists them. *)
Definition JsObject : Type := list (string * V).

Definition getOwnPropertyNames (obj : JsObject) : list string :=
  List.map fst obj.

(** [obj[key]]; [None] is undefined. *)
Fixpoint property (obj : JsObject) (key : string) : option V :=
  match obj with
  | [] => None
  | (k, v) :: more => if String.eqb k key then Some v else property more key
  end.

(** Generate an array of key-value pairs from an object using
    [getOwnPropertyNames]. *)
Definition objectPairs (obj : JsObject) : list (string * option V) :=
  List.map (fun key => (key, property obj key)) (getOwnPropertyNames obj).

End Objects.

Arguments getOwnPropertyNames {V} obj.
Arguments property {V} obj key.
Arguments objectPairs {V} obj.

(* ------------------------------------------------------------------ *)
(** ** The output of pgrep *)

(** A process identifier in decimal digits. *)
Definition decimal (p : positive) : string :=
  NilZero.string_of_uint (Pos.to_uint p).

(** What [pgrep -P] prints for the children it finds: one identifier on
    each line. *)
Fixpoint listing (pids : list positive) : string :=
  match pids with
  | [] => EmptyString
  | p :: more => decimal p ++ String Str.newline (listing more)
  end.

(** A process 1 whose children are 20, 300 and 4000, as pgrep prints
    them. *)
Definition three_children : OS :=
  mkOS (fun p => if (p =? 1)%Z then listing [20; 300; 4000]%positive
                 else EmptyString)
       (fun _ => Delivered).

(* ------------------------------------------------------------------ *)
(** ** The process table *)

(** The processes as the operating system has them, whatever [_killTree]
    reads of them: [table p] holds the children of the process [p]. *)
Module Table.

Section Processes.

Variable table : Z -> list positive.

Definition child_in (parent child : Z) : Prop :=
  exists c, In c (table parent) /\ child = Z.pos c.

Inductive below (ancestor : Z) : Z -> Prop :=
| below_child (c : Z) :
    child_in ancestor c -> below ancestor c
| below_deeper (c d : Z) :
    child_in ancestor c -> below c d -> below ancestor d.



(** [pgrep -P] prints the children that the table holds, one
    identifier on each line. *)
Definition printed_by (os : OS) : Prop :=
  forall p, pgrep os p = listing (table p).

End Processes.

(** The table of [two_children] and of [refused_child]: 101 and 102 are
    the children of 100. *)
Definition two (p : Z) : list positive :=
  if (p =? 100)%Z then [101; 102]%positive else [].

End Table.

(* ------------------------------------------------------------------ *)
(** ** Iterables and the generators of [map] *)

(** What a [for ... of] loop runs over: an array, or a generator object
    that a call of [map] has returned.  A generator object is a reference
    into the heap, where its state is kept: every loop over the object and
    every generator that reads from it advance the same state. *)
Inductive Iterable : Type :=
| IArray (items : list JsValue)
| IGenerator (ref : nat).

(** Where the loop of a generator stands: in an array, with the items it
    has still to read, or in another generator object. *)
Inductive Cursor : Type :=
| Items (remaining : list JsValue)
| From (ref : nat).

(** The state of the generator object of [map(iter, proj)]: inside its
    loop over [iter], or past it. *)
Inductive Generator : Type :=
| Active (source : Cursor) (proj : JsValue -> JsValue)
| Finished.

Definition Heap : Type := list Generator.

Fixpoint set_nth (ref : nat) (g : Generator) (heap : Heap) : Heap :=
  match heap, ref with
  | [], _ => []
  | _ :: more, O => g :: more
  | x :: more, S r => x :: set_nth r g more
  end.

(** Map an iterable by some projection function: the call makes the
    generator object and runs nothing of its body. *)
Definition map (heap : Heap) (iter : Iterable)
    (proj : JsValue -> JsValue) : Iterable * Heap :=
  (IGenerator (List.length heap),
   (heap ++ [Active match iter with
                    | IArray items => Items items
                    | IGenerator ref => From ref
                    end proj])%list).

(** [g.next()]: the body of [map] runs to its next [yield], or to its end.
    The result is the value yielded, or [None] when the generator is done,
    and the heap after the call; without fuel, or on a reference that is
    not in the heap, there is no result. *)
Fixpoint next (fuel : nat) (heap : Heap) (ref : nat)
    : option (option JsValue * Heap) :=
  match fuel with
  | O => None
  | S f =>
      match nth_error heap ref with
      | None => None
      | Some Finished => Some (None, heap)
      | Some (Active (Items []) _) => Some (None, set_nth ref Finished heap)
      | Some (Active (Items (item :: rest)) proj) =>
          Some (Some (proj item), set_nth ref (Active (Items rest) proj) heap)
      | Some (Active (From inner) proj) =>
          match next f heap inner with
          | None => None
          | Some (None, heap1) => Some (None, set_nth ref Finished heap1)
          | Some (Some item, heap1) => Some (Some (proj item), heap1)
          end
      end
  end.

Section Reduce.

Variable Out : Type.

(** [for (const item of g) init = mapper(init, item);] on a generator
    object. *)
Fixpoint drain (fuel : nat) (heap : Heap) (ref : nat) (init : Out)
    (mapper : Out -> JsValue -> Out) : option (Out * Heap) :=
  match fuel with
  | O => None
  | S f =>
      match next (S f) heap ref with
      | None => None
      | Some (None, heap1) => Some (init, heap1)
      | Some (Some item, heap1) => drain f heap1 ref (mapper init item) mapper
      end
  end.

Definition reduce (fuel : nat) (heap : Heap) (iter : Iterable) (init : Out)
    (mapper : Out -> JsValue -> Out) : option (Out * Heap) :=
  match iter with
  | IArray items => Some (fold_left mapper items init, heap)
  | IGenerator ref => drain fuel heap ref init mapper
  end.

End Reduce.

Arguments drain {Out} fuel heap ref init mapper.
Arguments reduce {Out} fuel heap iter init mapper.

(** The generator [ref] has [items] still to yield, through at most
    [depth] generators below it. *)
Inductive yields (heap : Heap) : nat -> nat -> list JsValue -> Prop :=
| yields_finished (ref depth : nat) :
    nth_error heap ref = Some Finished -> yields heap ref depth []
| yields_items (ref depth : nat) (remaining : list JsValue)
    (proj : JsValue -> JsValue) :
    nth_error heap ref = Some (Active (Items remaining) proj) ->
    yields heap ref depth (List.map proj remaining)
| yields_from (ref inner depth : nat) (items : list JsValue)
    (proj : JsValue -> JsValue) :
    nth_error heap ref = Some (Active (From inner) proj) ->
    yields heap inner depth items ->
    yields heap ref (S depth) (List.map proj items).

(** What a loop over [iter] has still to read. *)
Definition iterates (heap : Heap) (iter : Iterable) (depth : nat)
    (items : list JsValue) : Prop :=
  match iter with
  | IArray elems => items = elems
  | IGenerator ref => yields heap ref depth items
  end.

(* ------------------------------------------------------------------ *)
(** ** The empty needle *)

(** [what] before every code unit of [s] and at its end. *)
Fixpoint interleave (what s : string) : string :=
  match s with
  | EmptyString => what
  | String c t => what ++ String c (interleave what t)
  end.

(* ================================================================== *)
(** * Properties *)

(* ------------------------------------------------------------------ *)
(** * Facts about strings *)

Module StrFacts.

Lemma append_nil_r (s : string) : s ++ EmptyString = s.
Proof. induction s as [|c s IH]; simpl; [reflexivity | now rewrite IH]. Qed.

Lemma append_assoc (a b c : string) : (a ++ b) ++ c = a ++ (b ++ c).
Proof. induction a as [|x a IH]; simpl; [reflexivity | now rewrite IH]. Qed.

Lemma length_append (a b : string) :
  String.length (a ++ b) = String.length a + String.length b.
Proof. induction a as [|x a IH]; simpl; [reflexivity | now rewrite IH]. Qed.

Lemma take_append (a b : string) : Str.take (String.length a) (a ++ b) = a.
Proof. induction a as [|x a IH]; simpl; [now destruct b | now rewrite IH]. Qed.

Lemma drop_append (a b : string) : Str.drop (String.length a) (a ++ b) = b.
Proof. induction a as [|x a IH]; simpl; [now destruct b | exact IH]. Qed.

Lemma take_drop (n : nat) (s : string) : Str.take n s ++ Str.drop n s = s.
Proof.
  revert s; induction n as [|n IH]; intros [|c s]; simpl; try reflexivity.
  now rewrite IH.
Qed.

Lemma prefix_cons (c a : ascii) (n s : string) :
  prefix (String c n) (String a s) = Ascii.eqb c a && prefix n s.
Proof.
  simpl. destruct (ascii_dec c a) as [->|Hne].
  - now rewrite Ascii.eqb_refl.
  - apply Ascii.eqb_neq in Hne. now rewrite Hne.
Qed.

Lemma prefix_nil_r (n : string) :
  prefix n EmptyString = match n with EmptyString => true | _ => false end.
Proof. now destruct n. Qed.

Lemma prefix_append (a b : string) : prefix a (a ++ b) = true.
Proof.
  induction a as [|x a IH]; simpl; [now destruct b |].
  destruct (ascii_dec x x); [exact IH | contradiction].
Qed.

Lemma prefix_split (a s : string) :
  prefix a s = true -> s = a ++ Str.drop (String.length a) s.
Proof.
  revert s; induction a as [|x a IH]; intros s H.
  - now destruct s.
  - destruct s as [|y s]; [discriminate|].
    rewrite prefix_cons in H. apply andb_true_iff in H as [Hxy Hp].
    apply Ascii.eqb_eq in Hxy; subst y. simpl. f_equal. now apply IH.
Qed.

Lemma is_one_of_cons (c a : ascii) (chars : string) :
  RegExp.is_one_of (String a chars) c
  = Ascii.eqb c a || RegExp.is_one_of chars c.
Proof.
  unfold RegExp.is_one_of; simpl.
  now rewrite negb_andb, negb_involutive.
Qed.

Lemma is_one_of_nil (c : ascii) : RegExp.is_one_of EmptyString c = false.
Proof. reflexivity. Qed.

End StrFacts.

(** Splits a hypothesis [is_one_of chars c = false] into one disequality
    per member, and decides goals of that form. *)
Ltac one_of_false H :=
  repeat (rewrite StrFacts.is_one_of_cons in H;
          apply orb_false_iff in H;
          let Hc := fresh "Hc" in destruct H as [Hc H]).

(** Rewrites the goal with every disequality of code units at hand. *)
Ltac use_diseq :=
  unfold Str.backslash, Str.dquote;
  repeat match goal with
         | H : Ascii.eqb _ _ = false |- _ => rewrite ?H; clear H
         end.

(* ------------------------------------------------------------------ *)
(** * Facts about the matcher *)

Module RegExpFacts.
Import RegExp.

(** A literal pattern matches exactly where its text is a prefix. *)
Lemma matcher_literal (n : string) :
  forall (st : MState) (k : Cont),
    matcher (literal n) st k =
    if prefix n (rest st)
    then k (mkState (endIndex st + String.length n)
              (Str.drop (String.length n) (rest st)) (captures st))
    else None.
Proof.
  induction n as [|c n IH]; intros [pos s caps] k; simpl matcher.
  - cbn [rest endIndex captures String.length]. rewrite Nat.add_0_r.
    now destruct s.
  - unfold consume; cbn [rest endIndex captures].
    destruct s as [|a s]; [reflexivity|].
    rewrite StrFacts.prefix_cons.
    destruct (Ascii.eqb c a); cbn [andb]; [|reflexivity].
    rewrite IH; cbn [rest endIndex captures String.length Str.drop].
    now rewrite Nat.add_succ_r.
Qed.

Lemma match_at_literal (n : string) (pos : nat) (s : string) :
  match_at (literal n) pos s =
  if prefix n s
  then Some (mkState (pos + String.length n)
               (Str.drop (String.length n) s) [])
  else None.
Proof. unfold match_at. now rewrite matcher_literal. Qed.

Lemma groups_literal (n : string) : groups (literal n) = 0.
Proof. induction n as [|c n IH]; simpl; [reflexivity | exact IH]. Qed.

(** A plain template stands for itself. *)
Lemma expand_plain (matched before after : string)
    (caps : list (nat * string)) (m : nat) (what : string) :
  plain what = true -> expand matched before after caps m what = what.
Proof.
  induction what as [|c t IH]; intros Hp; [reflexivity|].
  cbn [plain] in Hp. apply andb_true_iff in Hp as [Hhead Htail].
  cbn [expand].
  destruct (Ascii.eqb c "$") eqn:Hc; cbn [negb].
  - apply Ascii.eqb_eq in Hc; subst c.
    destruct t as [|c1 t1]; [reflexivity|].
    apply negb_true_iff, orb_false_iff in Hhead as [Hone Hdigit].
    one_of_false Hone. rewrite Hdigit. use_diseq.
    now rewrite (IH Htail).
  - now rewrite (IH Htail).
Qed.

End RegExpFacts.

(* ------------------------------------------------------------------ *)
(** * The fuel of the star *)

Module FuelFacts.
Import RegExp.

Lemma extends_refl (st : MState) : extends st st.
Proof. exists EmptyString. split; [reflexivity | cbn; lia]. Qed.

Lemma extends_trans (a b c : MState) :
  extends a b -> extends b c -> extends a c.
Proof.
  intros (x & Hx & Ix) (y & Hy & Iy). exists (x ++ y). split.
  - now rewrite Hx, Hy, StrFacts.append_assoc.
  - rewrite StrFacts.length_append. lia.
Qed.

Lemma extends_step (st : MState) (c : ascii) (t : string) :
  rest st = String c t ->
  extends st (mkState (S (endIndex st)) t (captures st)).
Proof.
  intros H. exists (Str.char c). split; [exact H | cbn; lia].
Qed.

Lemma extends_capture (g : nat) (from st to : MState) :
  extends st to -> extends st (capture g from to).
Proof. intros (x & Hx & Ix). now exists x. Qed.

(** Where the index has moved the rest is shorter. *)
Lemma extends_shorter (st st1 : MState) :
  extends st st1 -> (endIndex st1 =? endIndex st)%nat = false ->
  String.length (rest st1) < String.length (rest st).
Proof.
  intros (x & Hx & Ix) Hne. apply Nat.eqb_neq in Hne.
  rewrite Hx, StrFacts.length_append. lia.
Qed.

Lemma consume_agree (p : ascii -> bool) (st : MState) (k k' : Cont) :
  (forall st1, extends st st1 -> k st1 = k' st1) ->
  consume p st k = consume p st k'.
Proof.
  intros H. unfold consume. destruct (rest st) as [|c t] eqn:Hrest;
    [reflexivity|].
  destruct (p c); [|reflexivity]. apply H. now apply extends_step with c.
Qed.

Lemma repeat_agree (body : MState -> Cont -> option MState) :
  (forall st k k',
      (forall st1, extends st st1 -> k st1 = k' st1) ->
      body st k = body st k') ->
  forall fuel st k k',
    (forall st1, extends st st1 -> k st1 = k' st1) ->
    repeat body fuel st k = repeat body fuel st k'.
Proof.
  intros Hbody fuel; induction fuel as [|f IH]; intros st k k' H;
    cbn [repeat].
  - apply H, extends_refl.
  - rewrite (H st (extends_refl st)).
    rewrite (Hbody st _ (fun st1 =>
               if (endIndex st1 =? endIndex st)%nat then None
               else repeat body f st1 k')); [reflexivity|].
    intros st1 H1. destruct (endIndex st1 =? endIndex st)%nat;
      [reflexivity|].
    apply IH. intros st2 H2. apply H. now apply extends_trans with st1.
Qed.

(** A matcher calls its continuation on states further on in the input
    only. *)
Lemma matcher_agree (r : Regex) :
  forall st k k',
    (forall st1, extends st st1 -> k st1 = k' st1) ->
    matcher r st k = matcher r st k'.
Proof.
  induction r as [| c | | negated items | r1 IH1 r2 IH2 | r1 IH1 r2 IH2
                 | r1 IH1 | r1 IH1 | r1 IH1 | g r1 IH1 | | ];
    intros st k k' H; cbn [matcher].
  - apply H, extends_refl.
  - now apply consume_agree.
  - now apply consume_agree.
  - now apply consume_agree.
  - apply IH1. intros st1 H1. apply IH2. intros st2 H2.
    apply H. now apply extends_trans with st1.
  - now rewrite (IH1 st k k' H), (IH2 st k k' H).
  - now apply repeat_agree.
  - apply IH1. intros st1 H1. apply repeat_agree; [exact IH1|].
    intros st2 H2. apply H. now apply extends_trans with st1.
  - rewrite (H st (extends_refl st)).
    rewrite (IH1 st _ (fun st1 =>
               if (endIndex st1 =? endIndex st)%nat then None else k' st1));
      [reflexivity|].
    intros st1 H1. destruct (endIndex st1 =? endIndex st)%nat;
      [reflexivity | now apply H].
  - apply IH1. intros st1 H1. apply H. now apply extends_capture.
  - destruct (endIndex st =? 0)%nat; [apply H, extends_refl | reflexivity].
  - destruct (rest st); [apply H, extends_refl | reflexivity].
Qed.

(** Fuel above the length of the input never runs out: any two such
    amounts give the same result. *)
Lemma repeat_fuel (r : Regex) :
  forall fuel fuel' st k,
    String.length (rest st) < fuel ->
    String.length (rest st) < fuel' ->
    repeat (matcher r) fuel st k = repeat (matcher r) fuel' st k.
Proof.
  induction fuel as [|f IH]; intros fuel' st k Hf Hf'; [lia|].
  destruct fuel' as [|f']; [lia|]. cbn [repeat].
  rewrite (matcher_agree r st _ (fun st1 =>
             if (endIndex st1 =? endIndex st)%nat then None
             else repeat (matcher r) f' st1 k)); [reflexivity|].
  intros st1 H1. destruct (endIndex st1 =? endIndex st)%nat eqn:Hmoved;
    [reflexivity|].
  pose proof (extends_shorter st st1 H1 Hmoved). apply IH; lia.
Qed.

End FuelFacts.

Module ReplaceFacts.
Import RegExp RegExpFacts.

(** With a literal pattern and a plain template the scan of
    [String.prototype.replace] is the literal scan. *)
Lemma replace_scan_literal (n what : string) :
  plain what = true ->
  forall (s before : string) (skip : nat),
    replace_scan (literal n) what before s skip
    = replace_literal_scan n what s skip.
Proof.
  intros Hp s; induction s as [|c t IH]; intros before skip.
  - destruct skip; [|reflexivity].
    cbn [replace_scan replace_literal_scan].
    rewrite match_at_literal.
    destruct (prefix n EmptyString); [|reflexivity].
    unfold substitution. now rewrite expand_plain.
  - destruct skip as [|k]; [|cbn [replace_scan replace_literal_scan]; apply IH].
    cbn [replace_scan replace_literal_scan].
    rewrite match_at_literal.
    destruct (prefix n (String c t)).
    + unfold substitution. rewrite expand_plain by exact Hp.
      cbn [endIndex].
      replace (String.length before + String.length n - String.length before)
        with (String.length n) by lia.
      destruct (String.length n); now rewrite IH.
    + now rewrite IH.
Qed.

Lemma replace_global_literal (n what s : string) :
  plain what = true ->
  replace_global (literal n) s what = replace_literal s n what.
Proof. intros Hp. apply replace_scan_literal, Hp. Qed.

(** Without an occurrence nothing is replaced, whatever the template. *)
Lemma replace_scan_absent (n what : string) :
  forall (s before : string),
    Str.includes s n = false ->
    replace_scan (literal n) what before s 0 = s.
Proof.
  intros s; induction s as [|c t IH]; intros before Hin;
    cbn [Str.includes] in Hin; apply orb_false_iff in Hin as [Hpre Hrest];
    cbn [replace_scan]; rewrite match_at_literal, Hpre; [reflexivity|].
  now rewrite IH.
Qed.

End ReplaceFacts.

Module EscapeFacts.
Import RegExp RegExpFacts.

Lemma escape_re_eq :
  escape_re =
  Seq (Group 1
         (Seq (Class false
                 [One "."; One "*"; One "+"; One "?"; One "^"; One "=";
                  One "!"; One ":"; One "$"; One "{"; One "}"; One "(";
                  One ")"; One "|"; One "["; One "]"; One "/";
                  One Str.backslash])
            Empty))
    Empty.
Proof. reflexivity. Qed.

Lemma class_is_special (c : ascii) :
  class_matches false
    [One "."; One "*"; One "+"; One "?"; One "^"; One "=";
     One "!"; One ":"; One "$"; One "{"; One "}"; One "(";
     One ")"; One "|"; One "["; One "]"; One "/"; One Str.backslash] c
  = is_special c.
Proof.
  unfold class_matches, is_special. cbn [xorb existsb item_matches].
  repeat rewrite StrFacts.is_one_of_cons. rewrite StrFacts.is_one_of_nil.
  reflexivity.
Qed.

Lemma expand_escape_template (matched before after v : string) :
  expand matched before after [(1, v)] 1 "\$1" = String Str.backslash v.
Proof.
  cbn [expand Ascii.eqb Bool.eqb negb]. unfold group_or_dollar.
  change (Str.is_digit "1") with true. cbv iota.
  change (valid_group 1 (digit_value "1")) with true. cbv iota.
  change (digit_value "1") with 1. unfold group_text; cbn [lookup Nat.eqb].
  now rewrite StrFacts.append_nil_r.
Qed.

(** The scan of [escapeStringForRegex] puts a backslash before every
    special code unit and nothing else. *)
Lemma escape_scan (s : string) :
  forall before : string,
    replace_scan escape_re "\$1" before s 0 = escaped s.
Proof.
  rewrite escape_re_eq.
  induction s as [|c t IH]; intros before; [reflexivity|].
  cbn [replace_scan escaped].
  unfold match_at; cbn [matcher]. unfold consume; cbn [rest endIndex captures].
  rewrite class_is_special.
  destruct (is_special c); [|now rewrite IH].
  unfold substitution, capture; cbn [endIndex rest captures groups Nat.add].
  replace (S (String.length before) - String.length before) with 1 by lia.
  rewrite expand_escape_template. cbn [Str.take Str.drop].
  now rewrite IH.
Qed.

Lemma escapeStringForRegex_escaped (s : string) :
  escapeStringForRegex s = escaped s.
Proof. apply escape_scan. Qed.

End EscapeFacts.

Module ParseFacts.
Import RegExp RegExpFacts.

Lemma special_in (c : ascii) : is_special c = true -> In c specials.
Proof.
  unfold is_special. repeat rewrite StrFacts.is_one_of_cons.
  rewrite StrFacts.is_one_of_nil. intros H.
  repeat (apply orb_true_iff in H as [H|H];
          [apply Ascii.eqb_eq in H; subst c; simpl; tauto|]).
  discriminate.
Qed.

(** An escaped special code unit is an identity escape. *)
Lemma parse_escape_special (c : ascii) (t : string) :
  is_special c = true -> parse_escape (String c t) = Some (Char c, t).
Proof.
  intros H. apply special_in in H. unfold specials in H.
  repeat (destruct H as [<-|H]; [reflexivity|]). destruct H.
Qed.

(** The escaped text never continues with a quantifier. *)
Lemma quantify_escaped (a : Regex) (t : string) :
  quantify a (escaped t) = Some (a, escaped t).
Proof.
  destruct t as [|c t]; [reflexivity|]. cbn [escaped].
  destruct (is_special c) eqn:Hs; [reflexivity|].
  unfold is_special in Hs. one_of_false Hs.
  unfold quantify. now use_diseq.
Qed.

Lemma parse_term_escaped (fuel : nat) (c : ascii) (t : string) (g : nat) :
  1 <= fuel ->
  parse_term fuel (escaped (String c t)) g = Some (Char c, escaped t, g).
Proof.
  intros Hfuel. destruct fuel as [|f]; [lia|]. clear Hfuel.
  cbn [escaped]. destruct (is_special c) eqn:Hs.
  - cbn [parse_term]. change (Ascii.eqb Str.backslash "^") with false.
    change (Ascii.eqb Str.backslash "$") with false.
    change (Ascii.eqb Str.backslash "(") with false.
    change (Ascii.eqb Str.backslash "[") with false.
    change (Ascii.eqb Str.backslash ".") with false.
    change (Ascii.eqb Str.backslash Str.backslash) with true.
    cbv iota. rewrite (parse_escape_special _ _ Hs). cbn [option_map].
    now rewrite quantify_escaped.
  - cbn [parse_term]. unfold is_special in Hs. one_of_false Hs.
    repeat rewrite StrFacts.is_one_of_cons. rewrite StrFacts.is_one_of_nil.
    use_diseq. cbn [orb option_map]. now rewrite quantify_escaped.
Qed.

(** The first code unit of an escaped text ends no alternative. *)
Lemma escaped_head (c : ascii) (t : string) :
  exists a rest, escaped (String c t) = String a rest
                 /\ (Ascii.eqb a "|" || Ascii.eqb a ")") = false.
Proof.
  cbn [escaped]. destruct (is_special c) eqn:Hs.
  - now exists Str.backslash, (String c (escaped t)).
  - exists c, (escaped t). split; [reflexivity|].
    unfold is_special in Hs. one_of_false Hs. now use_diseq.
Qed.

Lemma parse_alternative_escaped (n : string) :
  forall (fuel g : nat),
    String.length n + 2 <= fuel ->
    parse_alternative fuel (escaped n) g = Some (literal n, EmptyString, g).
Proof.
  induction n as [|c t IH]; intros fuel g Hfuel.
  - destruct fuel; [simpl in Hfuel; lia | reflexivity].
  - cbn [String.length] in Hfuel.
    destruct fuel as [|f]; [lia|].
    destruct (escaped_head c t) as (a & rest & Heq & Hend).
    cbn [parse_alternative]. rewrite Heq, Hend, <- Heq.
    rewrite parse_term_escaped, IH by lia. reflexivity.
Qed.

Lemma length_escaped (n : string) :
  String.length n <= String.length (escaped n).
Proof.
  induction n as [|c t IH]; cbn [escaped String.length]; [lia|].
  destruct (is_special c); cbn [String.length]; lia.
Qed.

(** The pattern that [replaceAll] builds from [needle] denotes the text
    [needle]. *)
Lemma parse_escaped (needle : string) :
  parse (escaped needle) = Some (literal needle).
Proof.
  unfold parse.
  pose proof (length_escaped needle) as Hlen.
  remember (3 * String.length (escaped needle) + 4) as fuel eqn:Hfuel.
  destruct fuel as [|f]; [lia|].
  cbn [parse_disjunction].
  rewrite parse_alternative_escaped by lia. reflexivity.
Qed.

Lemma create_escaped (needle : string) :
  create (escapeStringForRegex needle) = Ok (literal needle).
Proof.
  unfold create.
  now rewrite EscapeFacts.escapeStringForRegex_escaped, parse_escaped.
Qed.

End ParseFacts.

(** [replaceAll] is literal replacement. *)
Lemma replaceAll_literal (str needle what : string) :
  plain what = true ->
  replaceAll str needle what = Ok (replace_literal str needle what).
Proof.
  intros Hp. unfold replaceAll.
  rewrite ParseFacts.create_escaped. cbn [bind].
  now rewrite ReplaceFacts.replace_global_literal.
Qed.

Lemma replaceAll_absent (str needle what : string) :
  Str.includes str needle = false ->
  replaceAll str needle what = Ok str.
Proof.
  intros Hin. unfold replaceAll.
  rewrite ParseFacts.create_escaped. cbn [bind].
  unfold RegExp.replace_global. now rewrite ReplaceFacts.replace_scan_absent.
Qed.

Module LiteralFacts.

(** The code units covered by an occurrence are passed over. *)
Lemma scan_skip (needle what a t : string) :
  replace_literal_scan needle what (a ++ t) (String.length a)
  = replace_literal_scan needle what t 0.
Proof. induction a as [|c a IH]; [reflexivity | exact IH]. Qed.

(** The equations of literal replacement. *)
Lemma replace_literal_end (needle what : string) :
  replace_literal EmptyString needle what
  = match needle with EmptyString => what | _ => EmptyString end.
Proof.
  unfold replace_literal; cbn [replace_literal_scan].
  rewrite StrFacts.prefix_nil_r.
  destruct needle; [apply StrFacts.append_nil_r | reflexivity].
Qed.

Lemma replace_literal_occurrence (c : ascii) (n what rest : string) :
  replace_literal (String c n ++ rest) (String c n) what
  = what ++ replace_literal rest (String c n) what.
Proof.
  unfold replace_literal.
  change (String c n ++ rest) with (String c (n ++ rest)).
  cbn [replace_literal_scan].
  change (String c (n ++ rest)) with (String c n ++ rest).
  rewrite StrFacts.prefix_append. cbn [String.length append].
  now rewrite scan_skip.
Qed.

Lemma replace_literal_other (c : ascii) (needle what t : string) :
  prefix needle (String c t) = false ->
  replace_literal (String c t) needle what
  = String c (replace_literal t needle what).
Proof.
  intros H. unfold replace_literal; cbn [replace_literal_scan].
  now rewrite H.
Qed.

Lemma replace_literal_empty_needle (c : ascii) (what t : string) :
  replace_literal (String c t) EmptyString what
  = what ++ String c (replace_literal t EmptyString what).
Proof. reflexivity. Qed.

Lemma replace_literal_absent (str needle what : string) :
  Str.includes str needle = false -> replace_literal str needle what = str.
Proof.
  unfold replace_literal.
  induction str as [|c t IH]; intros Hin;
    cbn [Str.includes] in Hin; apply orb_false_iff in Hin as [Hpre Hrest];
    cbn [replace_literal_scan]; rewrite Hpre; [reflexivity|].
  now rewrite IH.
Qed.

Lemma replace_semicolons (s : string) :
  replace_literal s ";" "\;" = escape_semicolons s.
Proof.
  unfold replace_literal. induction s as [|c t IH]; [reflexivity|].
  cbn [replace_literal_scan escape_semicolons].
  rewrite StrFacts.prefix_cons, Ascii.eqb_sym.
  destruct (Ascii.eqb c ";") eqn:Hc; cbn [andb].
  - apply Ascii.eqb_eq in Hc; subst c.
    destruct t; cbn [prefix String.length append]; now rewrite IH.
  - now rewrite IH.
Qed.

Lemma no_dollar_plain (what : string) :
  Str.all (fun c => negb (Ascii.eqb c "$")) what = true -> plain what = true.
Proof.
  induction what as [|c t IH]; [reflexivity|].
  cbn [Str.all plain]. intros H. apply andb_true_iff in H as [Hc Ht].
  apply negb_true_iff in Hc. now rewrite Hc, IH.
Qed.

End LiteralFacts.

Lemma removeAllPatterns_literal (patterns : list string) :
  forall str : string,
    removeAllPatterns str patterns
    = Ok (fold_left (fun acc needle => replace_literal acc needle EmptyString)
            patterns str).
Proof.
  unfold removeAllPatterns.
  induction patterns as [|needle more IH]; intros str; [reflexivity|].
  cbn [Array_reduce fold_left]. rewrite replaceAll_literal by reflexivity.
  cbn [bind]. apply IH.
Qed.

(** C10.  [replaceAll] and [removeAllPatterns] take the needle as text: with
    a replacement free of [$], [replaceAll] replaces the literal occurrences
    of [needle], whatever regular expression syntax [needle] contains, and
    [removeAllPatterns] folds the literal removals over the patterns from the
    left. *)
Theorem replaceAll_is_literal (str needle what : string)
    (patterns : list string)
    (Hwhat : Str.all (fun c => negb (Ascii.eqb c "$")) what = true) :
  replaceAll str needle what = Ok (replace_literal str needle what)
  /\ removeAllPatterns str patterns
     = Ok (fold_left (fun acc n => replace_literal acc n EmptyString)
             patterns str).
Proof.
  split.
  - apply replaceAll_literal, LiteralFacts.no_dollar_plain, Hwhat.
  - apply removeAllPatterns_literal.
Qed.

Lemma replaceAll_is_literal_witness :
  Str.all (fun c => negb (Ascii.eqb c "$")) "[]" = true
  /\ replaceAll "f(x).*g(x)" "(x)" "[]" = Ok "f[].*g[]"
  /\ removeAllPatterns "f(x).*g(x)" [".*"; "(x)"] = Ok "fg".
Proof.
  split; [reflexivity|].
  exact (replaceAll_is_literal "f(x).*g(x)" "(x)" "[]" [".*"; "(x)"] eq_refl).
Defined.

(* ------------------------------------------------------------------ *)
(** * replaceVars *)

(** C4, as the code has it.  [replaceVars] makes three passes, for
    [${workspaceRoot}], [${workspaceRootFolderName}] and [${toolset}] in this
    order, each over the text the pass before produced, so that a value put
    in by one pass is read by the next ones.  A pass replaces every literal
    occurrence of its placeholder by the value from the workspace or by its
    default, the values being free of replacement patterns; a text in which
    no placeholder occurs comes back as it is. *)
Theorem replaceVars_three_passes (host : Host) (ws : Workspace) (str : string)
    (Hroot : plain (or_else (rootPath ws) ".") = true)
    (Hname : plain (path_basename host (or_else (rootPath ws) ".")) = true)
    (Htool : plain (or_else (toolset ws) "unknown") = true) :
  replaceVars host ws str
  = Ok (replace_literal
          (replace_literal
             (replace_literal str
                "${workspaceRoot}" (or_else (rootPath ws) "."))
             "${workspaceRootFolderName}"
             (path_basename host (or_else (rootPath ws) ".")))
          "${toolset}" (or_else (toolset ws) "unknown"))
  /\ (Str.includes str "${workspaceRoot}" = false ->
      Str.includes str "${workspaceRootFolderName}" = false ->
      Str.includes str "${toolset}" = false ->
      replaceVars host ws str = Ok str).
Proof.
  unfold replaceVars, replacements, Object_keys.
  cbn [List.map fst Array_reduce get String.eqb Ascii.eqb Bool.eqb].
  split.
  - rewrite (replaceAll_literal _ _ _ Hroot); cbn [bind].
    rewrite (replaceAll_literal _ _ _ Hname); cbn [bind].
    now rewrite (replaceAll_literal _ _ _ Htool).
  - intros H1 H2 H3.
    rewrite (replaceAll_absent _ _ _ H1); cbn [bind].
    rewrite (replaceAll_absent _ _ _ H2); cbn [bind].
    now rewrite (replaceAll_absent _ _ _ H3).
Qed.

Lemma replaceVars_three_passes_witness :
  let ws := mkWorkspace (Some "/w/${toolset}") (Some "gcc") in
  plain (or_else (rootPath ws) ".") = true
  /\ plain (path_basename Posix.host (or_else (rootPath ws) ".")) = true
  /\ plain (or_else (toolset ws) "unknown") = true
  /\ replaceVars Posix.host ws "${workspaceRoot}/${toolset}-build/${other}"
     = Ok "/w/gcc/gcc-build/${other}"
  /\ replaceVars Posix.host ws "${workspace}/${tool}" = Ok "${workspace}/${tool}".
Proof.
  intros ws.
  assert (Hroot : plain (or_else (rootPath ws) ".") = true) by reflexivity.
  assert (Hname : plain (path_basename Posix.host (or_else (rootPath ws) "."))
                  = true) by reflexivity.
  assert (Htool : plain (or_else (toolset ws) "unknown") = true)
    by reflexivity.
  split; [exact Hroot|]. split; [exact Hname|]. split; [exact Htool|].
  split.
  - exact (proj1 (replaceVars_three_passes Posix.host ws
                    "${workspaceRoot}/${toolset}-build/${other}"
                    Hroot Hname Htool)).
  - exact (proj2 (replaceVars_three_passes Posix.host ws
                    "${workspace}/${tool}" Hroot Hname Htool)
             eq_refl eq_refl eq_refl).
Defined.

(** C4 as stated fails: the value of [${workspaceRoot}] holds the token
    [${toolset}], and the third pass substitutes it, where a single pass
    leaves it. *)
Lemma replaceVars_resubstitutes :
  let ws := mkWorkspace (Some "/w/${toolset}") (Some "gcc") in
  replaceVars Posix.host ws "${workspaceRoot}" = Ok "/w/gcc"
  /\ single_pass (replacements Posix.host ws) "${workspaceRoot}"
     = "/w/${toolset}".
Proof. split; reflexivity. Qed.

Example replaceVars_toolset :
  replaceVars Posix.host (mkWorkspace None (Some "gcc")) "${toolset}-build"
  = Ok "gcc-build".
Proof. reflexivity. Qed.

Example replaceVars_defaults :
  replaceVars Posix.host (mkWorkspace None None)
    "${workspaceRoot}|${workspaceRootFolderName}|${toolset}"
  = Ok ".|.|unknown".
Proof. reflexivity. Qed.

(* ------------------------------------------------------------------ *)
(** * normalizePath *)

(** C9 fails on the root: its only separator is stripped, and the empty
    path that results is normalized to the current directory. *)
Theorem normalizePath_root_not_idempotent :
  normalizePath Posix.host "/" true = Ok EmptyString
  /\ normalizePath Posix.host EmptyString true = Ok "."
  /\ (p <- normalizePath Posix.host "/" true ;;
      normalizePath Posix.host p true)
     <> normalizePath Posix.host "/" true.
Proof. repeat split; try reflexivity. discriminate. Qed.

Example normalizePath_collapses :
  normalizePath Posix.host "/a//b/./c/../d/" true = Ok "/a/b/d".
Proof. reflexivity. Qed.

(* ------------------------------------------------------------------ *)
(** * isTruthy *)

Module TruthyFacts.

Lemma indexOf_found (arr : list string) (x : string) :
  (0 <=? indexOf arr x)%Z = true <-> In x arr.
Proof.
  induction arr as [|y more IH]; cbn [indexOf In].
  - split; [discriminate | tauto].
  - destruct (String.eqb_spec y x) as [->|Hne].
    + split; [tauto | reflexivity].
    + destruct (indexOf more x <? 0)%Z eqn:Hneg.
      * split; [discriminate|]. intros [H|H]; [contradiction|].
        apply IH in H. apply Z.leb_le in H. apply Z.ltb_lt in Hneg. lia.
      * split; [|intros _; apply Z.leb_le; apply Z.ltb_ge in Hneg; lia].
        intros _. right. apply IH. apply Z.leb_le.
        now apply Z.ltb_ge in Hneg.
Qed.

Lemma length_drop (n : nat) (s : string) :
  String.length (Str.drop n s) = String.length s - n.
Proof.
  revert s; induction n as [|n IH]; intros [|c s]; cbn; try reflexivity.
  apply IH.
Qed.

Lemma endsWith_suffix (s suffix : string) :
  Str.endsWith s suffix = true <-> exists p, s = p ++ suffix.
Proof.
  unfold Str.endsWith. split.
  - intros H. apply andb_true_iff in H as [_ Heq].
    apply String.eqb_eq in Heq.
    exists (Str.take (String.length s - String.length suffix) s).
    pose proof (StrFacts.take_drop
                  (String.length s - String.length suffix) s) as Hsplit.
    rewrite Heq in Hsplit. now symmetry.
  - intros [p ->]. rewrite StrFacts.length_append.
    apply andb_true_iff. split; [apply Nat.leb_le; lia|].
    replace (String.length p + String.length suffix - String.length suffix)
      with (String.length p) by lia.
    rewrite StrFacts.drop_append. apply String.eqb_refl.
Qed.

End TruthyFacts.

(** C5, as the code has it.  A string is false exactly when it is empty, on
    the denylist, or ends with [-NOTFOUND]; of the other values [false],
    [null], [undefined], the zeros and NaN are false, and [true] and every
    other number are true. *)
Theorem isTruthy_table (s : string) (n : JsNumber) (b : bool) :
  (isTruthy (VString s) = false <->
     s = EmptyString \/ In s denylist \/ exists p, s = p ++ "-NOTFOUND")
  /\ (isTruthy (VNumber n) = false <->
        n = S754_zero false \/ n = S754_zero true \/ n = S754_nan)
  /\ isTruthy (VBool b) = b
  /\ isTruthy VNull = false
  /\ isTruthy VUndefined = false.
Proof.
  split; [|split; [|repeat split]].
  - cbn [isTruthy]. rewrite negb_false_iff, orb_true_iff.
    rewrite TruthyFacts.indexOf_found, TruthyFacts.endsWith_suffix.
    cbn [In denylist]. intuition auto.
  - cbn [isTruthy ToBoolean]. unfold Number.toBoolean.
    destruct n as [[|]|[|]| |neg m e]; split; intros H;
      try reflexivity; try discriminate; try tauto;
      destruct H as [H|[H|H]]; discriminate.
Qed.

Lemma isTruthy_table_witness :
  isTruthy (VString "FOO-NOTFOUND") = false
  /\ isTruthy (VNumber (S754_zero true)) = false
  /\ isTruthy (VBool true) = true.
Proof.
  destruct (isTruthy_table "FOO-NOTFOUND" (S754_zero true) true)
    as (Hs & Hn & Hb & _).
  split; [|split].
  - apply Hs. right. right. now exists "FOO".
  - apply Hn. right. now left.
  - exact Hb.
Defined.

(** C5 as stated fails: NaN is a number other than 0, and it is false. *)
Lemma isTruthy_NaN :
  isTruthy (VNumber S754_nan) = false
  /\ S754_nan <> S754_zero false /\ S754_nan <> S754_zero true.
Proof. repeat split; discriminate. Qed.

Example isTruthy_examples :
  isTruthy (VString EmptyString) = false
  /\ isTruthy (VString "OFF") = false
  /\ isTruthy (VString "FOO-NOTFOUND") = false
  /\ isTruthy (VString "ON") = true
  /\ isTruthy (VString "off") = true
  /\ isTruthy (VNumber (Number.of_Z 1)) = true
  /\ isTruthy (VNumber (Number.of_Z 0)) = false.
Proof. repeat split. Qed.

(* ------------------------------------------------------------------ *)
(** * cmakeify *)

Module JoinFacts.

Lemma join_strings (render : JsNumber -> string) (sep : string)
    (L : list string) :
  Array_join render (List.map VString L) sep = String.concat sep L.
Proof.
  unfold Array_join.
  induction L as [|x [|y more] IH]; try reflexivity.
  change (String.concat sep (x :: y :: more))
    with (x ++ sep ++ String.concat sep (y :: more)).
  rewrite <- IH. reflexivity.
Qed.

End JoinFacts.

Module NumberFacts.

(** Below 2^53 the number of an integer is the integer. *)
Lemma of_Z_is_integer (z : Z) :
  (Z.abs z < 2 ^ 53)%Z -> is_integer (Number.of_Z z) z.
Proof.
  intros Hz.
  assert (Hnear : forall negative p,
            (Z.pos p < 2 ^ 53)%Z ->
            Number.nearest negative p = S754_finite negative p 0).
  { intros negative p Hp. unfold Number.nearest.
    apply Z.log2_lt_pow2 in Hp; [|lia].
    destruct (Z.leb_spec (Z.log2 (Z.pos p) + 1) 53); [reflexivity | lia]. }
  destruct z as [|p|p]; cbn [Number.of_Z]; [reflexivity| |];
    rewrite Hnear by lia; unfold is_integer;
    change (Z.max 0 (- 0))%Z with 0%Z; change (Z.max 0 0)%Z with 0%Z;
    rewrite Z.pow_0_r; lia.
Qed.

End NumberFacts.

(** Beyond 2^53 an integer is rounded to 53 bits, to the even mantissa
    between two that are as near. *)
Example of_Z_rounds :
  Number.of_Z (2 ^ 53 + 1) = S754_finite false (2 ^ 52) 1
  /\ Number.of_Z (2 ^ 53 + 3) = S754_finite false (2 ^ 52 + 2) 1
  /\ Number.of_Z (- 2 ^ 60) = S754_finite true (2 ^ 52) 8
  /\ Number.of_Z (2 ^ 1024) = S754_infinity false.
Proof. repeat split. Qed.

Section Cmakeify.

Variable render : JsNumber -> string.

Lemma cmakeify_string (s : string) :
  cmakeify render (VString s)
  = Ok (mkCMakeValue STRING (escape_semicolons s)).
Proof.
  cbn [cmakeify]. rewrite replaceAll_literal by reflexivity.
  cbn [bind]. now rewrite LiteralFacts.replace_semicolons.
Qed.

Lemma cmakeify_bool_text (v : JsValue) (cv : CMakeValue) :
  cmakeify render v = Ok cv -> type cv = BOOL ->
  value cv = "TRUE" \/ value cv = "FALSE".
Proof.
  destruct v as [| |[|]|n|s|n|elems|text]; try discriminate;
    try (rewrite cmakeify_string);
    intros [= <-]; try discriminate; cbn; tauto.
Qed.

(** [to_integer] finds the integer that a mantissa and an exponent
    give, where they give one. *)
Lemma to_integer_is_integer (negative : bool) (m : positive) (e i : Z) :
  Number.to_integer negative m e = Some i
  <-> is_integer (S754_finite negative m e) i.
Proof.
  unfold Number.to_integer, is_integer, option_map.
  destruct (Z.leb_spec 0 e) as [He|He].
  - rewrite Z.max_l, Z.max_r by lia.
    rewrite Z.pow_0_r, Z.mul_1_r.
    set (v := (Z.pos m * 2 ^ e)%Z).
    split; intros Hi.
    + assert (Hv : (if negative then (- v)%Z else v) = i) by congruence.
      destruct negative; lia.
    + f_equal. destruct negative; lia.
  - rewrite Z.max_r, Z.max_l by lia.
    rewrite Z.pow_0_r, Z.mul_1_r.
    assert (Hpow : (0 < 2 ^ (- e))%Z) by (apply Z.pow_pos_nonneg; lia).
    set (d := (2 ^ (- e))%Z) in *.
    split.
    + destruct (Z.eqb_spec (Z.pos m mod d) 0) as [Hmod|Hmod];
        [|discriminate].
      set (v := (Z.pos m / d)%Z). intros Hi.
      assert (Hv : (if negative then (- v)%Z else v) = i) by congruence.
      pose proof (Z.div_mod (Z.pos m) d ltac:(lia)) as Hdiv.
      rewrite Hmod in Hdiv. fold v in Hdiv. destruct negative; nia.
    + intros Hi. rewrite <- Hi.
      rewrite Z.mod_mul by lia. rewrite Z.eqb_refl.
      rewrite Z.div_mul by lia.
      f_equal. destruct negative; lia.
Qed.

(** The digits of an integer below 2^53, however the number is written
    with a mantissa and an exponent. *)
Lemma toString_is_integer (n : JsNumber) (z : Z) :
  is_integer n z -> (Z.abs z < 2 ^ 53)%Z ->
  Number.toString render n = NilZero.string_of_int (Z.to_int z).
Proof.
  destruct n as [negative| | |negative m e];
    [now intros -> | contradiction | contradiction |].
  intros Hz Hsmall. apply Z.ltb_lt in Hsmall.
  apply to_integer_is_integer in Hz.
  unfold Number.toString. now rewrite Hz, Hsmall.
Qed.

(** C6.  [cmakeify] goes by the kind of its argument.  A boolean gives
    BOOL with TRUE or FALSE, so a BOOL result holds one of the two.  A
    string gives STRING with every semicolon escaped.  A number, and a
    Number object alike, gives STRING with the text of its [toString()]:
    all the decimal digits of an integer below 2^53, whatever mantissa and
    exponent hold it, [0] for both zeros, [NaN], [Infinity] and
    [-Infinity], and for every other number the rendering of the runtime.
    A list of strings gives STRING with the elements joined by
    semicolons that are not escaped. *)
Theorem cmakeify_dispatch (b : bool) (s : string) (n : JsNumber) (z : Z)
    (L : list string) :
  cmakeify render (VBool b)
    = Ok (mkCMakeValue BOOL (if b then "TRUE" else "FALSE"))
  /\ cmakeify render (VString s)
     = Ok (mkCMakeValue STRING (escape_semicolons s))
  /\ (exists text,
        cmakeify render (VNumber n) = Ok (mkCMakeValue STRING text)
        /\ cmakeify render (VNumberObject n)
           = Ok (mkCMakeValue STRING text))
  /\ (is_integer n z -> (Z.abs z < 2 ^ 53)%Z ->
      cmakeify render (VNumber n)
      = Ok (mkCMakeValue STRING (NilZero.string_of_int (Z.to_int z))))
  /\ cmakeify render (VNumber S754_nan) = Ok (mkCMakeValue STRING "NaN")
  /\ cmakeify render (VNumber (S754_infinity false))
     = Ok (mkCMakeValue STRING "Infinity")
  /\ cmakeify render (VNumber (S754_infinity true))
     = Ok (mkCMakeValue STRING "-Infinity")
  /\ (forall negative m e,
        n = S754_finite negative m e ->
        (forall i, is_integer n i -> (2 ^ 53 <= Z.abs i)%Z) ->
        cmakeify render (VNumber n)
        = Ok (mkCMakeValue STRING (render n)))
  /\ cmakeify render (VArray (List.map VString L))
     = Ok (mkCMakeValue STRING (String.concat ";" L))
  /\ (forall (v : JsValue) (cv : CMakeValue),
        cmakeify render v = Ok cv -> type cv = BOOL ->
        value cv = "TRUE" \/ value cv = "FALSE").
Proof.
  split; [reflexivity|]. split; [apply cmakeify_string|].
  split; [eexists; split; reflexivity|].
  split.
  { intros Hz Hsmall. cbn [cmakeify].
    now rewrite (toString_is_integer n z Hz Hsmall). }
  do 3 (split; [reflexivity|]).
  split.
  { intros negative m e -> Hbig. unfold cmakeify, Number.toString.
    destruct (Number.to_integer negative m e) as [i|] eqn:Hi;
      [|reflexivity].
    apply to_integer_is_integer, Hbig in Hi.
    destruct (Z.ltb_spec (Z.abs i) (2 ^ 53)) as [Hlt|Hge];
      [lia | reflexivity]. }
  split; [cbn [cmakeify]; now rewrite JoinFacts.join_strings|].
  apply cmakeify_bool_text.
Qed.

(** C8, as the code has it.  [cmakeify] converts booleans, strings,
    numbers and arrays, whatever the arrays hold; on any other value it
    throws an error whose message ends with the value. *)
Theorem cmakeify_errors (v : JsValue) :
  (convertible v = true -> exists cv, cmakeify render v = Ok cv)
  /\ (convertible v = false ->
      cmakeify render v
      = Throw (Error ("Invalid value to convert to cmake value: "
                        ++ ToString render v))).
Proof.
  destruct v as [| |b|n|s|n|elems|text]; split; intros H;
    try discriminate H; try reflexivity;
    eexists; reflexivity.
Qed.

End Cmakeify.

(** The integer -42 as binary64 holds it, with a mantissa of 53 bits. *)
Lemma cmakeify_dispatch_witness :
  let n := S754_finite true (21 * 2 ^ 48) (- 47) in
  is_integer n (-42)
  /\ (Z.abs (-42) < 2 ^ 53)%Z
  /\ cmakeify unrendered (VNumber n) = Ok (mkCMakeValue STRING "-42")
  /\ cmakeify unrendered (VArray (List.map VString ["a"; "b"]))
     = Ok (mkCMakeValue STRING "a;b").
Proof.
  intros n.
  assert (Hn : is_integer n (-42)) by reflexivity.
  assert (Hz : (Z.abs (-42) < 2 ^ 53)%Z) by reflexivity.
  destruct (cmakeify_dispatch unrendered true "a;b" n (-42) ["a"; "b"])
    as (_ & _ & _ & Hint & _ & _ & _ & _ & Hlist & _).
  split; [exact Hn|]. split; [exact Hz|].
  split; [exact (Hint Hn Hz) | exact Hlist].
Defined.

Lemma cmakeify_errors_witness :
  convertible (VObject "[object Object]") = false
  /\ cmakeify unrendered (VObject "[object Object]")
     = Throw (Error "Invalid value to convert to cmake value: [object Object]")
  /\ convertible (VString "a;b") = true
  /\ exists cv, cmakeify unrendered (VString "a;b") = Ok cv.
Proof.
  assert (Hno : convertible (VObject "[object Object]") = false)
    by reflexivity.
  assert (Hyes : convertible (VString "a;b") = true) by reflexivity.
  split; [exact Hno|]. split.
  - exact (proj2 (cmakeify_errors unrendered (VObject "[object Object]")) Hno).
  - split; [exact Hyes|].
    exact (proj1 (cmakeify_errors unrendered (VString "a;b")) Hyes).
Defined.

(** C8 as stated fails: an array of numbers is no list of strings, and it is
    converted. *)
Lemma cmakeify_array_of_numbers :
  cmakeify unrendered (VArray [VNumber (Number.of_Z 1); VNumber (Number.of_Z 2)])
  = Ok (mkCMakeValue STRING "1;2").
Proof. reflexivity. Qed.

Example cmakeify_examples :
  cmakeify unrendered (VBool true) = Ok (mkCMakeValue BOOL "TRUE")
  /\ cmakeify unrendered (VBool false) = Ok (mkCMakeValue BOOL "FALSE")
  /\ cmakeify unrendered (VString "a;b;;c")
     = Ok (mkCMakeValue STRING "a\;b\;\;c")
  /\ cmakeify unrendered (VArray [VString "a"; VString "b"])
     = Ok (mkCMakeValue STRING "a;b").
Proof. repeat split. Qed.

(* ------------------------------------------------------------------ *)
(** * Lists through cmakeify and back *)

Module DecodeFacts.
Import Decode.

Lemma rev_onto_twice (s : string) :
  forall acc acc' : string,
    Str.rev_onto (Str.rev_onto s acc) acc' = Str.rev_onto acc (s ++ acc').
Proof.
  induction s as [|c t IH]; intros acc acc'; [reflexivity|].
  cbn [Str.rev_onto append]. now rewrite IH.
Qed.

Lemma rev_rev_onto (s : string) : Str.rev (Str.rev_onto s EmptyString) = s.
Proof.
  unfold Str.rev. rewrite rev_onto_twice. cbn [Str.rev_onto].
  apply StrFacts.append_nil_r.
Qed.

Lemma last_cons (c : ascii) (t : string) : Str.last (String c t) <> None.
Proof.
  revert c; induction t as [|a t IH]; intros c; [discriminate|].
  change (Str.last (String c (String a t))) with (Str.last (String a t)).
  apply IH.
Qed.

Lemma split_from_element (x : string) :
  forall (current : string) (escaped : bool) (tail : string),
    Str.all (fun c => negb (Ascii.eqb c ";")) x = true ->
    split_from current escaped (x ++ tail)
    = split_from (Str.rev_onto x current) (ends_escaped escaped x) tail.
Proof.
  induction x as [|c t IH]; intros current escaped tail Hx; [reflexivity|].
  cbn [Str.all] in Hx. apply andb_true_iff in Hx as [Hc Ht].
  apply negb_true_iff in Hc.
  cbn [append split_from]. rewrite Hc. cbn [andb].
  rewrite IH by exact Ht. cbn [Str.rev_onto]. f_equal.
  unfold ends_escaped. destruct t as [|a t]; [reflexivity|].
  change (Str.last (String c (String a t))) with (Str.last (String a t)).
  pose proof (last_cons a t) as Hlast.
  destruct (Str.last (String a t)); [reflexivity | contradiction].
Qed.

Lemma listable_not_escaped (x : string) :
  listable x -> ends_escaped false x = false.
Proof.
  intros [_ Hlast]. unfold ends_escaped.
  destruct (Str.last x) as [c|]; [|reflexivity].
  apply Ascii.eqb_neq. intros ->. now apply Hlast.
Qed.

Lemma split_from_concat (L : list string) :
  L <> [] -> Forall listable L ->
  split_from EmptyString false (String.concat ";" L) = L.
Proof.
  induction L as [|x [|y more] IH]; intros Hne HL; [contradiction| |].
  - cbn [String.concat]. inversion_clear HL as [|? ? [Hx _] _].
    rewrite <- (StrFacts.append_nil_r x) at 1.
    rewrite split_from_element by exact Hx. cbn [split_from].
    now rewrite rev_rev_onto.
  - change (String.concat ";" (x :: y :: more))
      with (x ++ String ";" (String.concat ";" (y :: more))).
    inversion_clear HL as [|? ? Hx Hrest].
    rewrite split_from_element by apply Hx.
    rewrite (listable_not_escaped x Hx). cbn [split_from Ascii.eqb Bool.eqb andb negb].
    rewrite rev_rev_onto. f_equal. apply IH; [discriminate | exact Hrest].
Qed.

Lemma concat_empty (L : list string) :
  String.concat ";" L = EmptyString -> L = [] \/ L = [EmptyString].
Proof.
  destruct L as [|x [|y more]]; [tauto| |].
  - cbn. intros ->. tauto.
  - change (String.concat ";" (x :: y :: more))
      with (x ++ String ";" (String.concat ";" (y :: more))).
    destruct x; discriminate.
Qed.

End DecodeFacts.

(** C2, as the code has it.  A list whose elements hold no semicolon and do
    not end with a backslash, and which is not the list of one empty string,
    is read back from the text of its conversion by splitting at the
    unescaped semicolons; the empty list is among them. *)
Theorem list_round_trip (render : JsNumber -> string) (L : list string)
    (Helems : Forall listable L) (Hone : L <> [EmptyString]) :
  exists cv, cmakeify render (VArray (List.map VString L)) = Ok cv
             /\ Decode.split_unescaped (value cv) = L.
Proof.
  exists (mkCMakeValue STRING (String.concat ";" L)). split.
  - cbn [cmakeify]. now rewrite JoinFacts.join_strings.
  - cbn [value]. unfold Decode.split_unescaped.
    destruct (String.concat ";" L) eqn:Htext.
    + destruct (DecodeFacts.concat_empty L Htext) as [->| ->];
        [reflexivity | contradiction].
    + rewrite <- Htext. apply DecodeFacts.split_from_concat; [|exact Helems].
      intros ->. discriminate.
Qed.

Lemma list_round_trip_witness :
  Forall listable ["a b"; EmptyString; "c\d"]
  /\ ["a b"; EmptyString; "c\d"] <> [EmptyString]
  /\ exists cv,
       cmakeify unrendered
         (VArray (List.map VString ["a b"; EmptyString; "c\d"])) = Ok cv
       /\ Decode.split_unescaped (value cv) = ["a b"; EmptyString; "c\d"].
Proof.
  assert (Helems : Forall listable ["a b"; EmptyString; "c\d"])
    by (repeat constructor; discriminate).
  assert (Hone : ["a b"; EmptyString; "c\d"] <> [EmptyString])
    by discriminate.
  split; [exact Helems|]. split; [exact Hone|].
  exact (list_round_trip unrendered ["a b"; EmptyString; "c\d"] Helems Hone).
Defined.

(** C2 as stated fails.  The list of one empty string has no semicolon in
    it and is converted to the text of the empty list, so it is read back as
    the empty list; an element that ends with a backslash escapes the
    separator after it. *)
Lemma list_round_trip_fails :
  cmakeify unrendered (VArray (List.map VString [EmptyString]))
    = Ok (mkCMakeValue STRING EmptyString)
  /\ cmakeify unrendered (VArray (List.map VString []))
     = Ok (mkCMakeValue STRING EmptyString)
  /\ Decode.split_unescaped EmptyString <> [EmptyString]
  /\ cmakeify unrendered (VArray (List.map VString ["a\"; "b"]))
     = Ok (mkCMakeValue STRING "a\;b")
  /\ Decode.split_unescaped "a\;b" <> ["a\"; "b"].
Proof. repeat split; discriminate. Qed.

(** No decoder at all reads every list without semicolons back. *)
Lemma no_decoder_for_all_lists :
  ~ exists decode : string -> list string,
      forall (L : list string) (cv : CMakeValue),
        Forall (fun s => Str.all (fun c => negb (Ascii.eqb c ";")) s = true) L ->
        cmakeify unrendered (VArray (List.map VString L)) = Ok cv ->
        decode (value cv) = L.
Proof.
  intros [decode H].
  assert (Hnil : decode EmptyString = []).
  { apply (H [] (mkCMakeValue STRING EmptyString)); [constructor | reflexivity]. }
  assert (Hone : decode EmptyString = [EmptyString]).
  { apply (H [EmptyString] (mkCMakeValue STRING EmptyString));
      [repeat constructor | reflexivity]. }
  congruence.
Qed.

(* ------------------------------------------------------------------ *)
(** * termProc *)

Section KillTree.

Variables (host : Host) (os : OS).
Hypothesis posix : win32 host = false.

Lemma killTree_step (fuel : nat) (p : Z) :
  _killTree host os (S fuel) p =
  match for_of (visit host os fuel) (children_of os p) with
  | None => None
  | Some (Throw e, events) => Some (Throw e, events)
  | Some (Ok _, events) =>
      match kill os p with
      | Delivered | NoSuchProcess =>
          Some (Ok tt, (events ++ [Signal p])%list)
      | Refused code =>
          Some (Throw (Error code), (events ++ [Signal p])%list)
      end
  end.
Proof. cbn [_killTree]. now rewrite posix. Qed.

Lemma children_first_nil : children_first os [].
Proof. intros [|x before] q after H; discriminate. Qed.

Lemma children_first_app (e1 e2 : list Event) :
  children_first os e1 -> children_first os e2 ->
  children_first os (e1 ++ e2)%list.
Proof.
  intros H1 H2 before q after Heq d Hd.
  apply app_eq_app in Heq as [l [[-> Hl]|[-> Hl]]].
  - destruct l as [|x l].
    + cbn in Hl. exfalso.
      exact (H2 [] q after (eq_sym Hl) d Hd).
    + injection Hl as <- ->.
      exact (H1 before q l eq_refl d Hd).
  - apply in_or_app. right. exact (H2 l q after Hl d Hd).
Qed.

Lemma for_of_done (fuel : nat) (children : list (option Z)) :
  (forall c r events,
      _killTree host os fuel c = Some (r, events) -> node_done os c r events) ->
  forall r events,
    for_of (visit host os fuel) children = Some (r, events) ->
    children_first os events
    /\ (r = Ok tt ->
        forall c, In (Some c) children -> c <> 0%Z ->
                  In (Signal c) events
                  /\ forall d, descendant os c d -> In (Signal d) events).
Proof.
  intros IH.
  induction children as [|other more IHc]; intros r events Hrun.
  - injection Hrun as <- <-. split; [apply children_first_nil|].
    intros _ c [].
  - cbn [for_of] in Hrun.
    destruct (visit host os fuel other) as [[[[] | e] e1]|] eqn:Hvisit;
      [|injection Hrun as <- <- |discriminate].
    + destruct (for_of (visit host os fuel) more) as [[r2 e2]|] eqn:Hmore;
        [|discriminate].
      injection Hrun as <- <-.
      destruct (IHc r2 e2 eq_refl) as [Hfirst2 Hall2].
      assert (Hone : children_first os e1
                     /\ forall c, other = Some c -> c <> 0%Z ->
                          In (Signal c) e1
                          /\ forall d, descendant os c d -> In (Signal d) e1).
      { unfold visit in Hvisit. destruct other as [c|].
        - cbn [truthy] in Hvisit. destruct (c =? 0)%Z eqn:Hc; cbn [negb] in Hvisit.
          + injection Hvisit as <-. split; [apply children_first_nil|].
            intros c' [= <-] Hne. apply Z.eqb_eq in Hc. contradiction.
          + destruct (IH c _ _ Hvisit) as [Hfirst Hbody].
            split; [exact Hfirst|]. intros c' [= <-] _.
            destruct (Hbody eq_refl) as (body & -> & Hdesc).
            split; [apply in_or_app; right; now left|].
            intros d Hd. apply in_or_app. left. now apply Hdesc.
        - cbn [truthy] in Hvisit. injection Hvisit as <-.
          split; [apply children_first_nil | discriminate]. }
      destruct Hone as [Hfirst1 Hall1].
      split; [now apply children_first_app|].
      intros Hr c [Hc|Hc] Hne.
      * destruct (Hall1 c Hc Hne) as [Hin Hdesc].
        split; [apply in_or_app; now left|].
        intros d Hd. apply in_or_app. left. now apply Hdesc.
      * destruct (Hall2 Hr c Hc Hne) as [Hin Hdesc].
        split; [apply in_or_app; now right|].
        intros d Hd. apply in_or_app. right. now apply Hdesc.
    + split; [|discriminate].
      unfold visit in Hvisit. destruct other as [c|]; cbn [truthy] in Hvisit.
      * destruct (c =? 0)%Z; cbn [negb] in Hvisit; [discriminate|].
        exact (proj1 (IH c _ _ Hvisit)).
      * discriminate.
Qed.

(** Every finished run signals the descendants of a process before the
    process, whether or not a signal was refused on the way. *)
Lemma killTree_done (fuel : nat) :
  forall p r events,
    _killTree host os fuel p = Some (r, events) -> node_done os p r events.
Proof.
  induction fuel as [|fuel IH]; intros p r events Hrun.
  - cbn [_killTree] in Hrun. rewrite posix in Hrun. discriminate.
  - rewrite killTree_step in Hrun.
    destruct (for_of (visit host os fuel) (children_of os p)) as [[[[]|e] e0]|]
      eqn:Hloop; [|injection Hrun as <- <- |discriminate].
    + destruct (for_of_done fuel _ IH _ _ Hloop) as [Hfirst Hall].
      assert (Hbody : forall d, descendant os p d -> In (Signal d) e0).
      { intros d Hd. destruct Hd as [c [Hc Hne]|c d [Hc Hne] Hd].
        - exact (proj1 (Hall eq_refl c Hc Hne)).
        - exact (proj2 (Hall eq_refl c Hc Hne) d Hd). }
      assert (Hevents : events = (e0 ++ [Signal p])%list).
      { destruct (kill os p); now injection Hrun as _ <-. }
      subst events. split.
      * intros before q after Heq d Hd.
        apply app_eq_app in Heq as [l [[He0 Hl]|[Hb Hl]]].
        -- destruct l as [|x l].
           ++ injection Hl as <- _. rewrite app_nil_r in He0. subst e0.
              now apply Hbody.
           ++ injection Hl as <- _.
              exact (Hfirst before q l He0 d Hd).
        -- destruct l as [|x [|y l]]; try discriminate.
           injection Hl as <-. subst before.
           apply in_or_app. left. now apply Hbody.
      * intros _. now exists e0.
    + split; [|discriminate].
      exact (proj1 (for_of_done fuel _ IH _ _ Hloop)).
Qed.



End KillTree.

(** X5. On a POSIX host the order holds for every run of [termProc] that
    ends, one that a refused signal cut short included: wherever a process
    is signalled, its descendants were signalled before. *)
Lemma termProc_order_always (host : Host) (os : OS) (fuel : nat)
    (child : ChildProcess) (r : result bool) (events : list Event) :
  win32 host = false ->
  termProc host os fuel child = Some (r, events) ->
  children_first os events.
Proof.
  intros Hposix Hrun. unfold termProc in Hrun.
  destruct (_killTree host os fuel (pid child)) as [[r0 e0]|] eqn:Hkill;
    [|discriminate].
  pose proof (killTree_done host os Hposix fuel _ _ _ Hkill) as [Hfirst _].
  destruct r0; injection Hrun as _ <-; exact Hfirst.
Qed.

Example children_of_two_children :
  children_of two_children 100 = [Some 101%Z; Some 102%Z]
  /\ children_of two_children 101 = [].
Proof. split; reflexivity. Qed.

Example termProc_two_children :
  termProc Posix.host two_children 2 (mkChild 100)
  = Some (Ok true, [Signal 101; Signal 102; Signal 100]).
Proof. reflexivity. Qed.

Example termProc_no_such_process :
  termProc Posix.host no_process 1 (mkChild 4242)
  = Some (Ok true, [Signal 4242]).
Proof. reflexivity. Qed.

(* ------------------------------------------------------------------ *)
(** * splitCommandLine: where it fails *)

Module CmdFacts.
Import RegExp Cmd.

Lemma cmd_re_eq :
  cmd_re =
  Seq (Group 1
         (Alt (span_re 2 "'")
            (Alt (span_re 3 Str.dquote) (Alt run_re word_re))))
    Empty.
Proof. reflexivity. Qed.

Lemma matcher_seq (r1 r2 : Regex) (st : MState) (k : Cont) :
  matcher (Seq r1 r2) st k = matcher r1 st (fun st1 => matcher r2 st1 k).
Proof. reflexivity. Qed.

Lemma matcher_group (g : nat) (r : Regex) (st : MState) (k : Cont) :
  matcher (Group g r) st k = matcher r st (fun st1 => k (capture g st st1)).
Proof. reflexivity. Qed.

Lemma matcher_alt_right (r1 r2 : Regex) (st : MState) (k : Cont) :
  matcher r2 st k <> None -> matcher (Alt r1 r2) st k <> None.
Proof. cbn [matcher]. destruct (matcher r1 st k); [discriminate | tauto]. Qed.

Lemma matcher_alt_left (r1 r2 : Regex) (st : MState) (k : Cont) :
  matcher r1 st k <> None -> matcher (Alt r1 r2) st k <> None.
Proof. cbn [matcher]. destruct (matcher r1 st k); [discriminate | tauto]. Qed.

Lemma repeat_total (body : MState -> Cont -> option MState) (k : Cont) :
  (forall st, k st <> None) ->
  forall fuel st, repeat body fuel st k <> None.
Proof.
  intros Hk fuel; induction fuel as [|f IH]; intros st; cbn [repeat].
  - apply Hk.
  - destruct (body st _); [discriminate | apply Hk].
Qed.

(** At a code unit that is not a blank [cmd_re] matches. *)
Lemma nonblank_matches (pos : nat) (c : ascii) (t : string) :
  is_blank c = false -> match_at cmd_re pos (String c t) <> None.
Proof.
  intros Hc. unfold match_at. rewrite cmd_re_eq, matcher_seq, matcher_group.
  do 2 apply matcher_alt_right. apply matcher_alt_left.
  unfold run_re. rewrite matcher_seq. cbn [matcher].
  unfold unit_re at 1. rewrite matcher_group. apply matcher_alt_right.
  cbn [matcher]. unfold consume; cbn [rest].
  unfold class_matches; cbn [existsb item_matches].
  unfold is_blank in Hc. rewrite Hc. cbn [orb xorb].
  apply repeat_total. intros st. discriminate.
Qed.

Lemma blank_no_match (pos : nat) (t : string) :
  match_at cmd_re pos (String " " t) = None.
Proof. reflexivity. Qed.

Lemma end_no_match (pos : nat) : match_at cmd_re pos EmptyString = None.
Proof. reflexivity. Qed.

(** Nothing matches exactly in the commands made of blanks. *)
Lemma match_scan_blank (s : string) :
  forall pos, match_scan cmd_re pos s 0 = [] <-> Str.all is_blank s = true.
Proof.
  induction s as [|c t IH]; intros pos.
  - split; reflexivity.
  - cbn [match_scan Str.all].
    destruct (is_blank c) eqn:Hc; cbn [andb].
    + apply Ascii.eqb_eq in Hc; subst c. rewrite blank_no_match. apply IH.
    + pose proof (nonblank_matches pos c t Hc) as Hm.
      destruct (match_at cmd_re pos (String c t)); [|contradiction].
      split; discriminate.
Qed.

Lemma match_global_null (cmd : string) :
  match_global cmd_re cmd = None <-> Str.all is_blank cmd = true.
Proof.
  unfold match_global. rewrite <- (match_scan_blank cmd 0).
  destruct (match_scan cmd_re 0 cmd 0); split; congruence.
Qed.

End CmdFacts.

(** C7.  The commands in which [cmd_re] finds no match are the commands
    made of blanks only, the empty one among them.  On these
    [splitCommandLine] throws, and what it throws is no parse error of its
    own: the AssertionError of [console.assert] where that throws, and
    elsewhere the TypeError of calling [map] on the null that [match]
    returned.  On every other command it returns the matches of [cmd_re],
    each with its quotes handled, and there is at least one. *)
Theorem splitCommandLine_fails (host : Host) (cmd : string) :
  (RegExp.match_global cmd_re cmd = None <-> Str.all is_blank cmd = true)
  /\ (Str.all is_blank cmd = true ->
      (assert_throws host = true ->
       splitCommandLine host cmd = Throw AssertionError)
      /\ (assert_throws host = false ->
          exists message,
            splitCommandLine host cmd = Throw (TypeError message)))
  /\ (Str.all is_blank cmd = false ->
      exists first more,
        RegExp.match_global cmd_re cmd = Some (first :: more)
        /\ splitCommandLine host cmd
           = Ok (List.map unquote (first :: more))).
Proof.
  pose proof (CmdFacts.match_global_null cmd) as Hnull.
  split; [exact Hnull|].
  unfold splitCommandLine. split; intros Hblank.
  - apply Hnull in Hblank. rewrite Hblank.
    split; intros ->; [reflexivity | eexists; reflexivity].
  - destruct (RegExp.match_global cmd_re cmd) as [[|first more]|] eqn:Hm.
    + unfold RegExp.match_global in Hm.
      destruct (RegExp.match_scan cmd_re 0 cmd 0); discriminate.
    + exists first, more. split; reflexivity.
    + rewrite (proj1 Hnull eq_refl) in Hblank. discriminate.
Qed.

Lemma splitCommandLine_fails_witness :
  Str.all is_blank "   " = true
  /\ assert_throws (logging Posix.host) = false
  /\ (exists message,
        splitCommandLine (logging Posix.host) "   "
        = Throw (TypeError message))
  /\ Str.all is_blank " -j4 " = false
  /\ exists first more,
       RegExp.match_global cmd_re " -j4 " = Some (first :: more)
       /\ splitCommandLine Posix.host " -j4 "
          = Ok (List.map unquote (first :: more)).
Proof.
  assert (Hnone : Str.all is_blank "   " = true) by reflexivity.
  assert (Hlog : assert_throws (logging Posix.host) = false) by reflexivity.
  assert (Hsome : Str.all is_blank " -j4 " = false) by reflexivity.
  split; [exact Hnone|]. split; [exact Hlog|]. split.
  - exact (proj2 (proj1 (proj2 (splitCommandLine_fails
                                  (logging Posix.host) "   ")) Hnone) Hlog).
  - split; [exact Hsome|].
    exact (proj2 (proj2 (splitCommandLine_fails Posix.host " -j4 ")) Hsome).
Defined.

(** C7 as stated fails: the empty command holds no token, and what is
    thrown for it is an AssertionError on one host and a TypeError on the
    other, neither of them an error of parsing. *)
Lemma splitCommandLine_no_parse_error :
  RegExp.match_global cmd_re EmptyString = None
  /\ splitCommandLine Posix.host EmptyString = Throw AssertionError
  /\ exists message,
       splitCommandLine (logging Posix.host) EmptyString
       = Throw (TypeError message).
Proof. split; [reflexivity|]. split; [reflexivity|]. eexists. reflexivity. Qed.

Example splitCommandLine_empty :
  splitCommandLine Posix.host EmptyString = Throw AssertionError.
Proof. reflexivity. Qed.

(* ------------------------------------------------------------------ *)
(** * splitCommandLine: the tokens *)

Module TokenFacts.
Import RegExp Cmd CmdFacts.

Lemma succ_neq (n : nat) : (S n =? n)%nat = false.
Proof. apply Nat.eqb_neq. lia. Qed.

Lemma succ_succ_neq (n : nat) : (S (S n) =? n)%nat = false.
Proof. apply Nat.eqb_neq. lia. Qed.

(** A code unit other than the quote and the backslash is one round. *)
Lemma unit_step (g : nat) (q c : ascii) (pos : nat) (t : string)
    (caps : list (nat * string)) (k : Cont) :
  Ascii.eqb c q = false -> Ascii.eqb Str.backslash c = false ->
  matcher (unit_re g q) (mkState pos (String c t) caps) k
  = k (capture g (mkState pos (String c t) caps) (mkState (S pos) t caps)).
Proof.
  intros Hq Hb. unfold unit_re. rewrite matcher_group. cbn [matcher].
  unfold consume; cbn [rest endIndex captures]. rewrite Hb.
  unfold class_matches; cbn [existsb item_matches]. rewrite Hq.
  reflexivity.
Qed.

(** An escaped quote is one round, taken before the backslash alone. *)
Lemma unit_escape (g : nat) (q : ascii) (pos : nat) (t : string)
    (caps : list (nat * string)) (k : Cont) (res : MState) :
  k (capture g (mkState pos (String Str.backslash (String q t)) caps)
       (mkState (S (S pos)) t caps)) = Some res ->
  matcher (unit_re g q)
    (mkState pos (String Str.backslash (String q t)) caps) k = Some res.
Proof.
  intros Hk. unfold unit_re. rewrite matcher_group. cbn [matcher].
  unfold consume; cbn [rest endIndex captures].
  rewrite !Ascii.eqb_refl. now rewrite Hk.
Qed.

(** No round starts at the end of the input or at the quote. *)
Lemma unit_stop (g : nat) (q : ascii) (pos : nat) (tail : string)
    (caps : list (nat * string)) (k : Cont) :
  Ascii.eqb Str.backslash q = false -> stops q tail ->
  matcher (unit_re g q) (mkState pos tail caps) k = None.
Proof.
  intros Hq [->|[t ->]]; unfold unit_re; rewrite matcher_group;
    cbn [matcher]; unfold consume; cbn [rest]; [reflexivity|].
  rewrite Hq. unfold class_matches; cbn [existsb item_matches].
  now rewrite Ascii.eqb_refl.
Qed.

Lemma length_raw_tail (q : ascii) (body : list Piece) (tail : string) :
  String.length (raw q body ++ tail)
  = String.length (raw q body) + String.length tail.
Proof. apply StrFacts.length_append. Qed.

(** The rounds of a star run through a body and stop after it. *)
Lemma star_run (g : nat) (q : ascii) (body : list Piece) :
  Ascii.eqb Str.backslash q = false ->
  Forall (piece_ok q) body ->
  forall (pos : nat) (caps : list (nat * string)) (fuel : nat)
         (tail : string) (k : Cont) (e : nat),
    stops q tail ->
    String.length (raw q body ++ tail) < fuel ->
    (forall caps', ends_at
                     (k (mkState (pos + String.length (raw q body)) tail
                           caps')) e) ->
    ends_at (repeat (matcher (unit_re g q)) fuel
               (mkState pos (raw q body ++ tail) caps) k) e.
Proof.
  intros Hq Hbody. induction Hbody as [|p body Hp _ IH];
    intros pos caps fuel tail k e Hstop Hfuel Hk;
    (destruct fuel as [|f]; [lia|]); cbn [repeat].
  - cbn [raw append]. rewrite (unit_stop g q pos tail caps _ Hq Hstop).
    specialize (Hk caps). cbn [raw String.length] in Hk.
    now rewrite Nat.add_0_r in Hk.
  - destruct p as [c|]; cbn [raw append String.length] in *.
    + destruct Hp as [Hcq Hcb]. rewrite unit_step by assumption.
      cbn [capture endIndex rest captures]. rewrite succ_neq.
      match goal with
      | |- ends_at (match ?first with Some r => Some r | None => _ end) _ =>
          assert (Hfirst : ends_at first e);
            [|destruct Hfirst as (res & -> & Hres); now exists res]
      end.
      apply IH; [exact Hstop | lia |].
      intros caps'. specialize (Hk caps').
      now rewrite Nat.add_succ_r in Hk.
    + match goal with
      | |- ends_at (match ?first with Some r => Some r | None => _ end) _ =>
          assert (Hfirst : ends_at first e);
            [|destruct Hfirst as (res & -> & Hres); now exists res]
      end.
      assert (Hnext : ends_at
                (repeat (matcher (unit_re g q)) f
                   (mkState (S (S pos)) (raw q body ++ tail)
                      ((g, Str.take (S (S pos) - pos)
                             (String Str.backslash
                                (String q (raw q body ++ tail)))) :: caps))
                   k) e).
      { apply IH; [exact Hstop | lia |].
        intros caps'. specialize (Hk caps').
        now rewrite !Nat.add_succ_r in Hk. }
      destruct Hnext as (res & Hrun & Hres). exists res. split; [|exact Hres].
      apply unit_escape. cbn [capture endIndex rest captures].
      now rewrite succ_succ_neq.
Qed.

End TokenFacts.

Module ItemFacts.
Import RegExp Cmd CmdFacts TokenFacts.

Lemma matcher_star (r : Regex) (st : MState) (k : Cont) :
  matcher (Star r) st k
  = repeat (matcher r) (S (String.length (rest st))) st k.
Proof. reflexivity. Qed.

Lemma matcher_plus (r : Regex) (st : MState) (k : Cont) :
  matcher (Plus r) st k
  = matcher r st (fun st1 =>
      repeat (matcher r) (S (String.length (rest st1))) st1 k).
Proof. reflexivity. Qed.

Lemma matcher_char (c : ascii) (st : MState) (k : Cont) :
  matcher (Char c) st k = consume (Ascii.eqb c) st k.
Proof. reflexivity. Qed.

Lemma alt_first (r1 r2 : Regex) (st : MState) (k : Cont) (e : nat) :
  ends_at (matcher r1 st k) e -> ends_at (matcher (Alt r1 r2) st k) e.
Proof. intros (res & H & He). cbn [matcher]. rewrite H. now exists res. Qed.

Lemma alt_second (r1 r2 : Regex) (st : MState) (k : Cont) :
  matcher r1 st k = None -> matcher (Alt r1 r2) st k = matcher r2 st k.
Proof. intros H. cbn [matcher]. now rewrite H. Qed.

(** A span does not start at another code unit than its quote. *)
Lemma span_other (g : nat) (q c : ascii) (pos : nat) (t : string)
    (caps : list (nat * string)) (k : Cont) :
  Ascii.eqb q c = false ->
  matcher (span_re g q) (mkState pos (String c t) caps) k = None.
Proof.
  intros H. unfold span_re. rewrite matcher_seq, matcher_char.
  unfold consume; cbn [rest]. now rewrite H.
Qed.

Lemma quoted_tail (q : ascii) (body tail : string) :
  quoted q body ++ tail = String q (body ++ String q tail).
Proof.
  unfold quoted, Str.char. cbn [append].
  now rewrite StrFacts.append_assoc.
Qed.

Lemma length_quoted (q : ascii) (body : string) :
  String.length (quoted q body) = String.length body + 2.
Proof.
  unfold quoted, Str.char. cbn [String.length].
  rewrite StrFacts.length_append. cbn [String.length]. lia.
Qed.

(** A span is matched from its opening quote to its closing quote. *)
Lemma span_match (g : nat) (q : ascii) (body : list Piece) (pos : nat)
    (tail : string) (caps : list (nat * string)) (k : Cont) (e : nat) :
  Ascii.eqb Str.backslash q = false ->
  Forall (piece_ok q) body ->
  (forall caps',
      ends_at (k (mkState (pos + String.length (quoted q (raw q body)))
                    tail caps')) e) ->
  ends_at (matcher (span_re g q)
             (mkState pos (quoted q (raw q body) ++ tail) caps) k) e.
Proof.
  intros Hq Hbody Hk. rewrite quoted_tail.
  unfold span_re. rewrite matcher_seq, matcher_char.
  unfold consume; cbn [rest endIndex captures]. rewrite Ascii.eqb_refl.
  rewrite matcher_seq, matcher_star. cbn [rest].
  apply star_run; [exact Hq | exact Hbody | right; now eexists | lia |].
  intros caps'. rewrite matcher_seq, matcher_char.
  unfold consume; cbn [rest endIndex captures]. rewrite Ascii.eqb_refl.
  cbn [matcher]. specialize (Hk caps').
  rewrite length_quoted in Hk.
  replace (S (S pos + String.length (raw q body)))
    with (pos + (String.length (raw q body) + 2)) by lia.
  exact Hk.
Qed.

Lemma raw_plain (q : ascii) (s : string) : raw q (plain_pieces s) = s.
Proof. induction s as [|c t IH]; cbn; [reflexivity | now rewrite IH]. Qed.

Lemma none_of_cons (chars : string) (c : ascii) (t : string) :
  none_of chars (String c t) = negb (is_one_of chars c) && none_of chars t.
Proof. reflexivity. Qed.

Lemma plain_pieces_ok (q : ascii) (chars : string) (s : string) :
  (forall c, is_one_of chars c = false ->
             Ascii.eqb c q = false /\ Ascii.eqb Str.backslash c = false) ->
  none_of chars s = true -> Forall (piece_ok q) (plain_pieces s).
Proof.
  intros Hchars. induction s as [|c t IH]; intros Hs; cbn [plain_pieces].
  - constructor.
  - rewrite none_of_cons in Hs. apply andb_true_iff in Hs as [Hc Ht].
    apply negb_true_iff in Hc. constructor; [|now apply IH].
    now apply Hchars.
Qed.

Lemma double_pieces_ok (body : list Piece) :
  forallb plain_piece body = true -> Forall (piece_ok Str.dquote) body.
Proof.
  induction body as [|p body IH]; intros H; [constructor|].
  cbn [forallb] in H. apply andb_true_iff in H as [Hp Hbody].
  constructor; [|now apply IH].
  destruct p as [c|]; [|exact I]. cbn [plain_piece] in Hp.
  apply negb_true_iff in Hp.
  apply orb_false_iff in Hp as [Hp _]. apply orb_false_iff in Hp as [Hq Hb].
  split; [exact Hq | now rewrite Ascii.eqb_sym].
Qed.

(** [cmd_re] matches an item from its first to its last code unit when a
    blank or the end of the command follows. *)
Lemma item_match (i : Item) (pos : nat) (tail : string) :
  well_formed i = true -> stops " " tail ->
  ends_at (match_at cmd_re pos (text i ++ tail))
    (pos + String.length (text i)).
Proof.
  intros Hwf Hstop. unfold match_at.
  rewrite cmd_re_eq, matcher_seq, matcher_group.
  assert (Hk : forall start e caps',
             ends_at (matcher Empty
                        (capture 1 start (mkState e tail caps')) Some) e).
  { intros start e caps'. eexists. split; reflexivity. }
  destruct i as [word|body|body]; cbn [text well_formed] in *.
  - (* a bare word *)
    apply andb_true_iff in Hwf as [Hne Hword].
    destruct word as [|c w]; [discriminate|]. clear Hne.
    rewrite none_of_cons in Hword. apply andb_true_iff in Hword as [Hc Hw].
    apply negb_true_iff in Hc. one_of_false Hc.
    cbn [append].
    rewrite alt_second by (apply span_other; now rewrite Ascii.eqb_sym).
    rewrite alt_second by (apply span_other; now rewrite Ascii.eqb_sym).
    apply alt_first. unfold run_re. rewrite matcher_seq, matcher_plus.
    rewrite unit_step by (try assumption; now rewrite Ascii.eqb_sym).
    cbn [capture rest endIndex captures].
    rewrite <- (raw_plain " " w).
    apply star_run; [reflexivity | | exact Hstop | lia |].
    + eapply plain_pieces_ok; [|exact Hw].
      intros a Ha. one_of_false Ha. split; [assumption|].
      now rewrite Ascii.eqb_sym.
    + intros caps'. rewrite raw_plain.
      cbn [String.length matcher endIndex rest captures].
      replace (S pos + String.length w) with (pos + S (String.length w))
        by lia.
      apply Hk.
  - (* a single-quoted span *)
    rewrite <- (raw_plain "'" body).
    apply alt_first, span_match; [reflexivity | | intros; apply Hk].
    eapply plain_pieces_ok; [|exact Hwf].
    intros a Ha. one_of_false Ha. split; [assumption|].
    now rewrite Ascii.eqb_sym.
  - (* a double-quoted span *)
    rewrite alt_second by (apply span_other; reflexivity).
    apply alt_first, span_match; [reflexivity | | intros; apply Hk].
    now apply double_pieces_ok.
Qed.

End ItemFacts.

Module ScanFacts.
Import RegExp Cmd CmdFacts TokenFacts ItemFacts.

(** The code units of a match are passed over. *)
Lemma match_scan_skip (r : Regex) (a t : string) :
  forall pos,
    match_scan r pos (a ++ t) (String.length a)
    = match_scan r (pos + String.length a) t 0.
Proof.
  induction a as [|c a IH]; intros pos; cbn [append String.length].
  - now rewrite Nat.add_0_r.
  - cbn [match_scan]. rewrite IH. f_equal. lia.
Qed.

Lemma match_scan_token (r : Regex) (pos : nat) (c : ascii) (a t : string) :
  ends_at (match_at r pos (String c a ++ t)) (pos + S (String.length a)) ->
  match_scan r pos (String c a ++ t) 0
  = String c a :: match_scan r (pos + S (String.length a)) t 0.
Proof.
  intros (res & Hm & He). cbn [append match_scan].
  cbn [append] in Hm. rewrite Hm. unfold matched_text. rewrite He.
  replace (pos + S (String.length a) - pos) with (S (String.length a)) by lia.
  cbn [Str.take]. rewrite StrFacts.take_append.
  replace (S (String.length a) - 1) with (String.length a) by lia.
  rewrite match_scan_skip. do 2 f_equal. lia.
Qed.

Lemma replace_scan_skip (r : Regex) (template a t : string) :
  forall before,
    replace_scan r template before (a ++ t) (String.length a)
    = replace_scan r template (before ++ a) t 0.
Proof.
  induction a as [|c a IH]; intros before; cbn [append String.length].
  - now rewrite StrFacts.append_nil_r.
  - cbn [replace_scan]. rewrite IH. unfold Str.char.
    now rewrite StrFacts.append_assoc.
Qed.

Lemma text_not_empty (i : Item) :
  well_formed i = true -> exists c a, text i = String c a.
Proof.
  destruct i as [[|c w]|body|body]; cbn [text well_formed];
    intros H; try discriminate; unfold quoted; do 2 eexists; reflexivity.
Qed.

Lemma match_scan_blanks (n : nat) (s : string) :
  forall pos,
    match_scan cmd_re pos (blanks n ++ s) 0
    = match_scan cmd_re (pos + n) s 0.
Proof.
  induction n as [|n IH]; intros pos; cbn [blanks append].
  - now rewrite Nat.add_0_r.
  - cbn [match_scan]. rewrite blank_no_match, IH. f_equal. lia.
Qed.

Lemma match_scan_trailing (n : nat) :
  forall pos, match_scan cmd_re pos (blanks n) 0 = [].
Proof.
  induction n as [|n IH]; intros pos; [reflexivity|].
  cbn [blanks match_scan]. now rewrite blank_no_match.
Qed.

Lemma stops_blanks (n : nat) : stops " " (blanks n).
Proof. destruct n; [now left | right; now eexists]. Qed.

(** The matches of [cmd_re] in a command are its items. *)
Lemma match_scan_command (items : list (nat * Item)) (trailing : nat) :
  all_well_formed items = true ->
  forall pos,
    match_scan cmd_re pos (command items trailing) 0
    = List.map (fun gi => text (snd gi)) items.
Proof.
  unfold command, all_well_formed.
  induction items as [|[gap i] more IH]; intros Hwf pos.
  - apply match_scan_trailing.
  - cbn [forallb snd] in Hwf. apply andb_true_iff in Hwf as [Hi Hrest].
    cbn [spaced List.map snd].
    rewrite !StrFacts.append_assoc, match_scan_blanks.
    destruct (text_not_empty i Hi) as (c & a & Htext).
    set (tail := match more with
                 | [] => EmptyString
                 | _ :: _ => String " " (spaced more)
                 end ++ blanks trailing).
    assert (Hstop : stops " " tail).
    { subst tail. destruct more; [apply stops_blanks|].
      right. now eexists. }
    pose proof (item_match i (pos + gap) tail Hi Hstop) as Hm.
    rewrite Htext in *. cbn [String.length] in Hm.
    rewrite (match_scan_token _ _ _ _ _ Hm). f_equal.
    subst tail. destruct more as [|next more']; [apply match_scan_trailing|].
    cbn [append match_scan]. rewrite blank_no_match.
    apply IH, Hrest.
Qed.

End ScanFacts.

Module UnquoteFacts.
Import RegExp Cmd CmdFacts TokenFacts ItemFacts ScanFacts.

Lemma escaped_quote_re_eq :
  escaped_quote_re
  = Seq (Char Str.backslash)
      (Seq (Group 1 (Seq (Char Str.dquote) Empty)) Empty).
Proof. reflexivity. Qed.

Lemma quoted_re_eq :
  quoted_re
  = Seq Bol
      (Seq (Char Str.dquote)
         (Seq (Group 1 (Seq (Star Dot) Empty))
            (Seq (Char Str.dquote) (Seq Eol Empty)))).
Proof. reflexivity. Qed.

Lemma all_weaken (p q : ascii -> bool) (s : string) :
  (forall c, p c = true -> q c = true) ->
  Str.all p s = true -> Str.all q s = true.
Proof.
  intros Hpq. induction s as [|c t IH]; [reflexivity|].
  cbn [Str.all]. intros H. apply andb_true_iff in H as [Hc Ht].
  now rewrite (Hpq c Hc), IH.
Qed.

(** Without a backslash there is no escaped quote to replace. *)
Lemma unescape_plain (s : string) :
  Str.all not_backslash s = true ->
  forall before,
    replace_scan escaped_quote_re "$1" before s 0 = s.
Proof.
  rewrite escaped_quote_re_eq.
  induction s as [|c t IH]; intros Hs before; [reflexivity|].
  cbn [Str.all] in Hs. apply andb_true_iff in Hs as [Hc Ht].
  apply negb_true_iff in Hc.
  cbn [replace_scan]. unfold match_at. rewrite matcher_seq, matcher_char.
  unfold consume; cbn [rest]. rewrite Hc. now rewrite IH.
Qed.

(** Every escaped quote of a double-quoted body loses its backslash. *)
Lemma unescape_pieces (body : list Piece) :
  forallb plain_piece body = true ->
  forall before,
    replace_scan escaped_quote_re "$1" before
      (raw Str.dquote body ++ Str.char Str.dquote) 0
    = cooked body ++ Str.char Str.dquote.
Proof.
  rewrite escaped_quote_re_eq.
  induction body as [|p body IH]; intros Hbody before; [reflexivity|].
  cbn [forallb] in Hbody. apply andb_true_iff in Hbody as [Hp Hbody].
  destruct p as [c|]; cbn [raw cooked append].
  - cbn [plain_piece] in Hp. apply negb_true_iff in Hp.
    apply orb_false_iff in Hp as [Hp _]. apply orb_false_iff in Hp as [_ Hb].
    rewrite Ascii.eqb_sym in Hb.
    cbn [replace_scan]. unfold match_at. rewrite matcher_seq, matcher_char.
    unfold consume; cbn [rest]. rewrite Hb. now rewrite IH.
  - cbn [replace_scan]. unfold match_at. cbn [matcher].
    unfold consume; cbn [rest endIndex captures].
    rewrite !Ascii.eqb_refl. unfold substitution, capture.
    cbn [endIndex rest captures groups Nat.add].
    replace (S (S (String.length before)) - String.length before)
      with 2 by lia.
    replace (S (S (String.length before)) - S (String.length before))
      with 1 by lia.
    cbn [Str.take Str.drop expand Ascii.eqb Bool.eqb negb].
    unfold group_or_dollar.
    change (Str.is_digit "1") with true.
    change (valid_group 1 (digit_value "1")) with true.
    change (digit_value "1") with 1. cbv iota.
    unfold group_text; cbn [lookup Nat.eqb append].
    cbn [replace_scan]. now rewrite IH.
Qed.

(** After the first code unit the pattern of the second replace cannot
    match, as it is anchored at the start. *)
Lemma strip_later (template s : string) :
  forall before,
    String.length before <> 0 ->
    replace_scan quoted_re template before s 0 = s.
Proof.
  rewrite quoted_re_eq.
  induction s as [|c t IH]; intros before Hlen;
    cbn [replace_scan]; unfold match_at; rewrite matcher_seq;
    cbn [matcher endIndex];
    apply Nat.eqb_neq in Hlen; rewrite Hlen; [reflexivity|].
  rewrite IH; [reflexivity|].
  rewrite StrFacts.length_append. cbn. lia.
Qed.

Lemma strip_other (s : string) :
  match s with
  | EmptyString => True
  | String c _ => Ascii.eqb Str.dquote c = false
  end ->
  replace_global quoted_re s "$1" = s.
Proof.
  unfold replace_global. destruct s as [|c t]; intros Hc; [reflexivity|].
  cbn [replace_scan]. rewrite quoted_re_eq at 1. unfold match_at.
  rewrite matcher_seq. cbn [matcher endIndex Nat.eqb].
  unfold consume; cbn [rest]. rewrite Hc.
  rewrite strip_later; [reflexivity | discriminate].
Qed.

Lemma repeat_step (body : MState -> Cont -> option MState) (f : nat)
    (st : MState) (k : Cont) :
  repeat body (S f) st k
  = match body st (fun st1 =>
            if (endIndex st1 =? endIndex st)%nat then None
            else repeat body f st1 k)
    with
    | Some res => Some res
    | None => k st
    end.
Proof. reflexivity. Qed.

Lemma matcher_dot (st : MState) (k : Cont) :
  matcher Dot st k
  = consume (fun a => negb (Str.is_line_terminator a)) st k.
Proof. reflexivity. Qed.

(** The greedy star takes the closing quote too and gives it back. *)
Lemma star_dot (b : string) :
  Str.all not_terminator b = true ->
  forall (pos : nat) (caps : list (nat * string)) (fuel : nat) (k : Cont)
         (res : MState),
    String.length b < fuel ->
    (forall pos' caps', k (mkState pos' EmptyString caps') = None) ->
    k (mkState (pos + String.length b) (Str.char Str.dquote) caps)
      = Some res ->
    repeat (matcher Dot) fuel
      (mkState pos (b ++ Str.char Str.dquote) caps) k = Some res.
Proof.
  induction b as [|c b IH]; intros Hb pos caps fuel k res Hfuel Hend Hk;
    (destruct fuel as [|f]; [cbn [String.length] in Hfuel; lia|]);
    rewrite repeat_step, matcher_dot; unfold consume at 1;
    cbn [append rest endIndex captures String.length] in *.
  - rewrite Nat.add_0_r in Hk. unfold Str.char.
    change (negb (Str.is_line_terminator Str.dquote)) with true. cbv iota.
    rewrite succ_neq.
    assert (Hnone : repeat (matcher Dot) f
                      (mkState (S pos) EmptyString caps) k = None).
    { destruct f; [apply Hend|]. rewrite repeat_step, matcher_dot.
      unfold consume; cbn [rest]. apply Hend. }
    rewrite Hnone. exact Hk.
  - cbn [Str.all] in Hb. apply andb_true_iff in Hb as [Hc Hb].
    unfold not_terminator in Hc. rewrite Hc. rewrite succ_neq.
    rewrite (IH Hb (S pos) caps f k res); [reflexivity | lia | exact Hend |].
    now rewrite Nat.add_succ_r in Hk.
Qed.

Lemma matcher_bol (st : MState) (k : Cont) :
  matcher Bol st k = if (endIndex st =? 0)%nat then k st else None.
Proof. reflexivity. Qed.

(** The second replace matches a quoted text as a whole, with the text
    between the quotes as its group. *)
Lemma quoted_match (b : string) :
  Str.all not_terminator b = true ->
  match_at quoted_re 0 (quoted Str.dquote b)
  = Some (mkState (S (S (String.length b))) EmptyString [(1, b)]).
Proof.
  intros Hb. unfold match_at, quoted. rewrite quoted_re_eq.
  rewrite matcher_seq, matcher_bol. cbn [endIndex Nat.eqb].
  rewrite matcher_seq, matcher_char. unfold consume at 1.
  cbn [rest endIndex captures]. rewrite Ascii.eqb_refl.
  rewrite matcher_seq, matcher_group, matcher_seq, matcher_star.
  apply star_dot;
    [exact Hb | cbn [rest]; rewrite StrFacts.length_append; lia
     | reflexivity |].
  cbn [matcher]. unfold capture, consume; cbn [rest endIndex captures].
  unfold Str.char. rewrite Ascii.eqb_refl.
  replace (1 + String.length b - 1) with (String.length b) by lia.
  now rewrite StrFacts.take_append.
Qed.

Lemma length_quoted_body (b : string) :
  String.length (b ++ Str.char Str.dquote) = S (String.length b).
Proof. rewrite StrFacts.length_append. cbn. lia. Qed.

Lemma strip_quoted (b : string) :
  Str.all not_terminator b = true ->
  replace_global quoted_re (quoted Str.dquote b) "$1" = b.
Proof.
  intros Hb. unfold replace_global.
  pose proof (quoted_match b Hb) as Hm. unfold quoted in *.
  cbn [replace_scan]. cbn [String.length]. rewrite Hm.
  unfold substitution. cbn [endIndex captures String.length].
  change (groups quoted_re) with 1.
  cbn [Nat.sub expand Ascii.eqb Bool.eqb negb].
  unfold group_or_dollar.
  change (Str.is_digit "1") with true.
  change (valid_group 1 (digit_value "1")) with true.
  change (digit_value "1") with 1. cbv iota.
  unfold group_text; cbn [lookup Nat.eqb].
  replace (replace_scan quoted_re "$1" (EmptyString ++ Str.char Str.dquote)
             (b ++ Str.char Str.dquote) (S (String.length b)))
    with (replace_scan quoted_re "$1" (EmptyString ++ Str.char Str.dquote)
            ((b ++ Str.char Str.dquote) ++ EmptyString)
            (String.length (b ++ Str.char Str.dquote)))
    by now rewrite StrFacts.append_nil_r, length_quoted_body.
  rewrite replace_scan_skip.
  rewrite strip_later by (rewrite StrFacts.length_append; cbn; lia).
  now rewrite !StrFacts.append_nil_r.
Qed.

Lemma all_append (p : ascii -> bool) (a b : string) :
  Str.all p (a ++ b) = Str.all p a && Str.all p b.
Proof.
  induction a as [|c a IH]; cbn [append Str.all]; [reflexivity|].
  now rewrite IH, andb_assoc.
Qed.

Lemma cooked_no_terminator (body : list Piece) :
  forallb plain_piece body = true ->
  Str.all not_terminator (cooked body) = true.
Proof.
  induction body as [|p body IH]; intros H; [reflexivity|].
  cbn [forallb] in H. apply andb_true_iff in H as [Hp Hbody].
  destruct p as [c|]; cbn [cooked Str.all]; rewrite (IH Hbody).
  - cbn [plain_piece] in Hp. apply negb_true_iff in Hp.
    apply orb_false_iff in Hp as [_ Hlt].
    unfold not_terminator. now rewrite Hlt.
  - reflexivity.
Qed.

Lemma none_of_not_backslash (chars s : string) :
  is_one_of chars Str.backslash = true ->
  none_of chars s = true -> Str.all not_backslash s = true.
Proof.
  intros Hin. apply all_weaken. intros c Hc. unfold not_backslash.
  destruct (Ascii.eqb_spec Str.backslash c) as [<-|_]; [|reflexivity].
  now rewrite Hin in Hc.
Qed.

(** The two replaces on the text of an item. *)
Lemma unquote_text (i : Item) :
  well_formed i = true -> unquote (text i) = token i.
Proof.
  intros Hwf. unfold unquote, replace_global at 2.
  destruct i as [word|body|body]; cbn [text token well_formed] in *.
  - apply andb_true_iff in Hwf as [Hne Hword].
    rewrite unescape_plain.
    + apply strip_other. destruct word as [|c w]; [exact I|].
      rewrite none_of_cons in Hword. apply andb_true_iff in Hword as [Hc _].
      apply negb_true_iff in Hc. one_of_false Hc.
      now rewrite Ascii.eqb_sym.
    + eapply none_of_not_backslash; [|exact Hword]. reflexivity.
  - rewrite unescape_plain.
    + now apply strip_other.
    + unfold quoted. cbn [Str.all]. rewrite all_append.
      assert (Hbody : Str.all not_backslash body = true)
        by (eapply none_of_not_backslash; [|exact Hwf]; reflexivity).
      now rewrite Hbody.
  - unfold quoted. cbn [replace_scan]. rewrite escaped_quote_re_eq at 1.
    unfold match_at. rewrite matcher_seq, matcher_char.
    unfold consume; cbn [rest].
    change (Ascii.eqb Str.backslash Str.dquote) with false. cbv iota.
    rewrite unescape_pieces by exact Hwf.
    apply strip_quoted. now apply cooked_no_terminator.
Qed.

End UnquoteFacts.

(** X27. A command is read item by item where its items are set apart by
    blanks, with any number of blanks more before each and at the end, and
    each item is a bare word that is not empty and holds no blank, backslash
    or quote of either kind, or a single-quoted span whose body holds no
    single quote and no backslash, or a double-quoted span whose body holds
    no line terminator, and double quotes and backslashes only as the
    escaped double quote.  Every item is one token, the blanks inside the
    spans included: a bare word as it is, a single-quoted span with its
    quotes, a double-quoted span without its two quotes and without the
    backslash of each escaped double quote. *)
Theorem splitCommandLine_items (host : Host) (items : list (nat * Cmd.Item))
    (trailing : nat)
    (Hitems : items <> [])
    (Hwf : Cmd.all_well_formed items = true) :
  splitCommandLine host (Cmd.command items trailing) = Ok (Cmd.tokens items).
Proof.
  unfold splitCommandLine, RegExp.match_global, Cmd.tokens.
  rewrite (ScanFacts.match_scan_command items trailing Hwf 0).
  destruct items as [|gi more]; [contradiction|].
  cbn [List.map]. f_equal. clear Hitems.
  change (List.map unquote (List.map (fun gi => Cmd.text (snd gi)) (gi :: more))
          = List.map (fun gi => Cmd.token (snd gi)) (gi :: more)).
  unfold Cmd.all_well_formed in Hwf.
  induction (gi :: more) as [|[gap i] rest IH]; [reflexivity|].
  cbn [forallb snd] in Hwf. apply andb_true_iff in Hwf as [Hi Hrest].
  cbn [List.map snd]. rewrite UnquoteFacts.unquote_text by exact Hi.
  now rewrite IH.
Qed.

Lemma splitCommandLine_items_witness :
  padded_command <> []
  /\ Cmd.all_well_formed padded_command = true
  /\ splitCommandLine Posix.host (Cmd.command padded_command 3)
     = Ok (Cmd.tokens padded_command).
Proof.
  assert (Hitems : padded_command <> []) by discriminate.
  assert (Hwf : Cmd.all_well_formed padded_command = true) by reflexivity.
  split; [exact Hitems|]. split; [exact Hwf|].
  exact (splitCommandLine_items Posix.host padded_command 3 Hitems Hwf).
Defined.

(** C3.  A single-quoted argument is returned with its quotes, alone and
    among other arguments, where the same argument between double quotes
    is returned without them: the second replace of [splitCommandLine]
    names the double quote only. *)
Theorem splitCommandLine_keeps_single_quotes :
  splitCommandLine Posix.host "'My App'" = Ok ["'My App'"]
  /\ splitCommandLine Posix.host (Cmd.quoted Str.dquote "My App")
     = Ok ["My App"]
  /\ splitCommandLine Posix.host "build --target 'My App' -j4"
     = Ok ["build"; "--target"; "'My App'"; "-j4"].
Proof. repeat split. Qed.

Example splitCommandLine_padded :
  Cmd.command padded_command 3
  = "  cmake  'a b' " ++ Str.char Str.dquote ++ "x\" ++ Str.char Str.dquote
      ++ " " ++ Str.char Str.dquote ++ "   "
  /\ Cmd.tokens padded_command
     = ["cmake"; "'a b'"; "x" ++ Str.char Str.dquote ++ " "].
Proof. split; reflexivity. Qed.

Example splitCommandLine_build :
  Cmd.command build_command 0
  = "build --target " ++ Str.char Str.dquote ++ "My App"
      ++ Str.char Str.dquote ++ " -j4"
  /\ Cmd.all_well_formed build_command = true
  /\ splitCommandLine Posix.host (Cmd.command build_command 0)
     = Ok ["build"; "--target"; "My App"; "-j4"].
Proof. repeat split. Qed.

Example splitCommandLine_echo :
  Cmd.command echo_command 0
  = "echo " ++ Str.char Str.dquote ++ "say \" ++ Str.char Str.dquote
      ++ "hi\" ++ Str.char Str.dquote ++ Str.char Str.dquote
  /\ Cmd.all_well_formed echo_command = true
  /\ splitCommandLine Posix.host (Cmd.command echo_command 0)
     = Ok ["echo"; "say " ++ Str.char Str.dquote ++ "hi"
                          ++ Str.char Str.dquote].
Proof. repeat split. Qed.

(** Quotes inside a word and a span without its closing quote are not
    spans: the blank splits them. *)
Example splitCommandLine_not_spans :
  splitCommandLine Posix.host ("a" ++ Str.char Str.dquote ++ "b c"
                               ++ Str.char Str.dquote)
  = Ok ["a" ++ Str.char Str.dquote ++ "b"; "c" ++ Str.char Str.dquote]
  /\ splitCommandLine Posix.host "'a b" = Ok ["'a"; "b"].
Proof. split; reflexivity. Qed.

(** A double-quoted span that holds a line feed keeps its quotes: the dot
    of the second replace matches no line terminator. *)
Example splitCommandLine_line_feed :
  splitCommandLine Posix.host
    (Cmd.quoted Str.dquote ("a" ++ Str.char Str.newline ++ "b"))
  = Ok [Cmd.quoted Str.dquote ("a" ++ Str.char Str.newline ++ "b")].
Proof. reflexivity. Qed.

(** A backslash before a double quote is taken away wherever it stands, in
    a bare word and in a single-quoted span as well. *)
Example splitCommandLine_unescapes_everywhere :
  splitCommandLine Posix.host
    ("a\" ++ Str.char Str.dquote ++ "b '\" ++ Str.char Str.dquote ++ "'")
  = Ok ["a" ++ Str.char Str.dquote ++ "b"; "'" ++ Str.char Str.dquote ++ "'"].
Proof. reflexivity. Qed.

(* ------------------------------------------------------------------ *)
(** * normalizePath on a POSIX host, away from the root *)

Module PathFacts.
Import RegExp.

Lemma trailing_slash_re_eq :
  trailing_slash_re = Seq (Char "/") (Seq Eol Empty).
Proof. reflexivity. Qed.

(** The first replace of [normalizePath] strips one separator at the
    end. *)
Lemma strip_scan (s : string) :
  forall before,
    replace_first_scan trailing_slash_re EmptyString before s
    = strip_slash s.
Proof.
  rewrite trailing_slash_re_eq.
  induction s as [|c t IH]; intros before; [reflexivity|].
  cbn [replace_first_scan strip_slash]. unfold match_at.
  cbn [matcher]. unfold consume; cbn [rest endIndex captures].
  destruct (Ascii.eqb "/" c) eqn:Hc.
  - destruct t as [|c1 t1].
    + unfold substitution; cbn [endIndex captures].
      replace (S (String.length before) - String.length before) with 1
        by lia.
      reflexivity.
    + now rewrite IH.
  - rewrite IH. destruct t; reflexivity.
Qed.

Lemma includes_double (s : string) :
  Str.includes s "//" = negb (single_slashes s).
Proof.
  induction s as [|c t IH]; [reflexivity|].
  cbn [Str.includes single_slashes]. rewrite IH, negb_andb, negb_involutive.
  f_equal. destruct t as [|c1 t1].
  - rewrite StrFacts.prefix_cons. cbn [prefix].
    now rewrite andb_false_r, andb_false_r.
  - rewrite !StrFacts.prefix_cons. cbn [prefix].
    destruct t1; now rewrite andb_true_r, (Ascii.eqb_sym "/" c),
                         (Ascii.eqb_sym "/" c1).
Qed.

(** On a POSIX host [normalizePath] is [path.normalize] and the strip,
    where the result holds no two separators in a row. *)
Lemma normalizePath_posix (p : string) (normalize_case : bool) :
  single_slashes (strip_slash (Posix.normalize p)) = true ->
  normalizePath Posix.host p normalize_case
  = Ok (strip_slash (Posix.normalize p)).
Proof.
  intros Hsingle. unfold normalizePath.
  cbn [path_normalize Posix.host posix_separators path_sep win32
       Ascii.eqb Bool.eqb negb andb].
  rewrite andb_false_r. unfold replace_first. rewrite strip_scan.
  cbn [collapse_separators]. now rewrite includes_double, Hsingle.
Qed.

(** *** Segments *)

Lemma split_plain (seg : string) :
  no_slash seg = true -> Str.split "/" seg = [seg].
Proof.
  induction seg as [|c t IH]; [reflexivity|].
  unfold no_slash; cbn [Str.all]. intros H.
  apply andb_true_iff in H as [Hc Ht]. apply negb_true_iff in Hc.
  cbn [Str.split]. now rewrite Hc, (IH Ht).
Qed.

Lemma split_append (seg tail : string) :
  no_slash seg = true ->
  Str.split "/" (seg ++ String "/" tail) = seg :: Str.split "/" tail.
Proof.
  induction seg as [|c t IH]; [reflexivity|].
  unfold no_slash; cbn [Str.all]. intros H.
  apply andb_true_iff in H as [Hc Ht]. apply negb_true_iff in Hc.
  cbn [append Str.split]. now rewrite Hc, (IH Ht).
Qed.

Lemma split_concat (segs : list string) :
  segs <> [] -> forallb no_slash segs = true ->
  Str.split "/" (String.concat "/" segs) = segs.
Proof.
  induction segs as [|x [|y more] IH]; intros Hne H; [contradiction| |];
    cbn [forallb] in H; apply andb_true_iff in H as [Hx Hrest].
  - now apply split_plain.
  - change (String.concat "/" (x :: y :: more))
      with (x ++ String "/" (String.concat "/" (y :: more))).
    rewrite split_append by exact Hx. f_equal.
    apply IH; [discriminate | exact Hrest].
Qed.

(** The pieces between separators hold none. *)
Lemma split_no_slash (s : string) :
  forallb no_slash (Str.split "/" s) = true.
Proof.
  induction s as [|c t IH]; [reflexivity|]. cbn [Str.split].
  destruct (Ascii.eqb c "/") eqn:Hc; [exact IH|].
  destruct (Str.split "/" t) as [|piece pieces]; cbn [forallb] in *.
  - unfold no_slash; cbn. now rewrite Hc.
  - apply andb_true_iff in IH as [Hp Hps].
    unfold no_slash in *; cbn [Str.all]. now rewrite Hc, Hp, Hps.
Qed.

Lemma filter_proper (pieces : list string) :
  forallb no_slash pieces = true ->
  forallb proper (List.filter Posix.is_dir pieces) = true.
Proof.
  induction pieces as [|x more IH]; intros H; [reflexivity|].
  cbn [forallb] in H. apply andb_true_iff in H as [Hx Hmore].
  cbn [List.filter]. destruct (Posix.is_dir x) eqn:Hd; [|now apply IH].
  cbn [forallb]. unfold proper at 1. now rewrite Hd, Hx, IH.
Qed.

Lemma filter_all (segs : list string) :
  forallb proper segs = true -> List.filter Posix.is_dir segs = segs.
Proof.
  induction segs as [|x more IH]; intros H; [reflexivity|].
  cbn [forallb] in H. apply andb_true_iff in H as [Hx Hmore].
  unfold proper in Hx. apply andb_true_iff in Hx as [Hd _].
  cbn [List.filter]. now rewrite Hd, IH.
Qed.

(** *** resolve *)

Lemma resolve_proper (allow : bool) (segs : list string) :
  forall stack,
    forallb proper stack = true -> forallb proper segs = true ->
    forallb proper (Posix.resolve allow stack segs) = true.
Proof.
  induction segs as [|seg more IH]; intros stack Hstack Hsegs.
  - cbn [Posix.resolve]. rewrite forallb_forall in *.
    intros x Hx. apply Hstack. now apply in_rev.
  - cbn [forallb] in Hsegs. apply andb_true_iff in Hsegs as [Hseg Hmore].
    cbn [Posix.resolve]. destruct (String.eqb seg "..") eqn:Hdots.
    + destruct stack as [|top below].
      * destruct allow; apply IH; auto.
      * cbn [forallb] in Hstack.
        apply andb_true_iff in Hstack as [Htop Hbelow].
        destruct (String.eqb top ".."); apply IH; auto.
        cbn [forallb]. now rewrite Htop, Hbelow.
    + apply IH; [|exact Hmore]. cbn [forallb]. now rewrite Hseg.
Qed.

Lemma rev_repeat (n : nat) : List.rev (List.repeat ".." n) = List.repeat ".." n.
Proof.
  induction n as [|n IH]; [reflexivity|]. cbn [List.repeat List.rev].
  rewrite IH. clear IH. induction n as [|n IH]; [reflexivity|].
  cbn [List.repeat app]. now rewrite IH.
Qed.

Lemma resolve_settled (allow : bool) (segs : list string) :
  forall stack,
    stacked allow stack -> settled allow (Posix.resolve allow stack segs).
Proof.
  induction segs as [|seg more IH]; intros stack (n & names & -> & Hn & Ha).
  - cbn [Posix.resolve]. exists n, (List.rev names).
    rewrite rev_app_distr, rev_repeat. repeat split; [|exact Ha].
    rewrite forallb_forall in *. intros x Hx. apply Hn. now apply in_rev.
  - cbn [Posix.resolve]. destruct (String.eqb seg "..") eqn:Hdots.
    + destruct names as [|top below]; cbn [app].
      * destruct n as [|n]; cbn [List.repeat].
        -- destruct allow; apply IH.
           ++ exists 1, []. repeat split. discriminate.
           ++ exists 0, []. repeat split.
        -- cbn [String.eqb Ascii.eqb Bool.eqb]. apply IH.
           exists (S (S n)), []. repeat split.
           intros Hallow. now specialize (Ha Hallow).
      * cbn [forallb] in Hn. apply andb_true_iff in Hn as [Htop Hbelow].
        unfold is_dotdot in Htop. apply negb_true_iff in Htop.
        rewrite Htop. apply IH. now exists n, below.
    + apply IH. exists n, (seg :: names). repeat split; [|exact Ha].
      cbn [forallb]. unfold is_dotdot at 1. now rewrite Hdots, Hn.
Qed.

Lemma resolve_names (allow : bool) (names : list string) :
  forallb (fun seg => negb (is_dotdot seg)) names = true ->
  forall stack,
    Posix.resolve allow stack names = (List.rev stack ++ names)%list.
Proof.
  induction names as [|seg more IH]; intros H stack.
  - cbn [Posix.resolve]. now rewrite app_nil_r.
  - cbn [forallb] in H. apply andb_true_iff in H as [Hseg Hmore].
    unfold is_dotdot in Hseg. apply negb_true_iff in Hseg.
    cbn [Posix.resolve]. rewrite Hseg, (IH Hmore). cbn [List.rev].
    now rewrite <- app_assoc.
Qed.

Lemma resolve_dots (n : nat) (segs : list string) :
  forall m,
    Posix.resolve true (List.repeat ".." m) (List.repeat ".." n ++ segs)
    = Posix.resolve true (List.repeat ".." (n + m)) segs.
Proof.
  induction n as [|n IH]; intros m; [reflexivity|].
  cbn [List.repeat app Posix.resolve String.eqb Ascii.eqb Bool.eqb].
  replace (S n + m) with (n + S m) by lia.
  destruct m as [|m]; cbn [List.repeat String.eqb Ascii.eqb Bool.eqb].
  - exact (IH 1).
  - exact (IH (S (S m))).
Qed.

(** Resolved segments stay as they are. *)
Lemma resolve_fixed (allow : bool) (segs : list string) :
  settled allow segs -> Posix.resolve allow [] segs = segs.
Proof.
  intros (n & names & -> & Hn & Ha). destruct n as [|n].
  - cbn [List.repeat app]. now rewrite resolve_names.
  - destruct allow; [|now specialize (Ha eq_refl)].
    rewrite (resolve_dots (S n) names 0
             : Posix.resolve true [] (List.repeat ".." (S n) ++ names) = _).
    now rewrite Nat.add_0_r, resolve_names, rev_repeat.
Qed.

(** *** The text of a normalized path *)

Lemma last_append (a b : string) :
  b <> EmptyString -> Str.last (a ++ b) = Str.last b.
Proof.
  intros Hb. induction a as [|c a IH]; [reflexivity|].
  cbn [append]. destruct (a ++ b) eqn:Hab.
  - destruct a; [cbn in Hab; contradiction | discriminate].
  - rewrite <- IH. reflexivity.
Qed.

Lemma proper_head (seg : string) : proper seg = true -> head_ok seg = true.
Proof.
  unfold proper, Posix.is_dir, no_slash. intros H.
  apply andb_true_iff in H as [Hd Hs]. destruct seg as [|c t];
    [discriminate|].
  cbn [Str.all] in Hs. now apply andb_true_iff in Hs as [Hc _].
Qed.

Lemma no_slash_last (seg : string) :
  no_slash seg = true -> seg <> EmptyString -> last_ok seg = true.
Proof.
  unfold no_slash, last_ok.
  induction seg as [|c t IH]; intros Hs Hne; [contradiction|].
  cbn [Str.all] in Hs. apply andb_true_iff in Hs as [Hc Ht].
  destruct t as [|c1 t1]; [exact Hc|].
  change (Str.last (String c (String c1 t1))) with (Str.last (String c1 t1)).
  apply IH; [exact Ht | discriminate].
Qed.

Lemma proper_last (seg : string) : proper seg = true -> last_ok seg = true.
Proof.
  intros H. pose proof (proper_head seg H) as Hh.
  unfold proper in H. apply andb_true_iff in H as [_ Hs].
  apply no_slash_last; [exact Hs|]. intros ->. discriminate.
Qed.

Lemma head_append (a b : string) :
  head_ok a = true -> head_ok (a ++ b) = true.
Proof. destruct a; [discriminate | tauto]. Qed.

Lemma concat_head (segs : list string) :
  segs <> [] -> forallb proper segs = true ->
  head_ok (String.concat "/" segs) = true.
Proof.
  destruct segs as [|x [|y more]]; intros Hne H; [contradiction| |];
    cbn [forallb] in H; apply andb_true_iff in H as [Hx _].
  - now apply proper_head.
  - change (String.concat "/" (x :: y :: more))
      with (x ++ String "/" (String.concat "/" (y :: more))).
    now apply head_append, proper_head.
Qed.

Lemma concat_last (segs : list string) :
  segs <> [] -> forallb proper segs = true ->
  last_ok (String.concat "/" segs) = true.
Proof.
  induction segs as [|x [|y more] IH]; intros Hne H; [contradiction| |];
    cbn [forallb] in H; apply andb_true_iff in H as [Hx Hrest].
  - now apply proper_last.
  - change (String.concat "/" (x :: y :: more))
      with (x ++ String "/" (String.concat "/" (y :: more))).
    unfold last_ok. rewrite last_append by discriminate.
    assert (Hnext : last_ok (String.concat "/" (y :: more)) = true)
      by (apply IH; [discriminate | exact Hrest]).
    pose proof (concat_head (y :: more)) as Hhead.
    unfold last_ok in Hnext.
    destruct (String.concat "/" (y :: more)) as [|c t] eqn:Hc;
      [discriminate|].
    exact Hnext.
Qed.

Lemma single_no_slash (seg tail : string) :
  no_slash seg = true -> single_slashes tail = true ->
  single_slashes (seg ++ tail) = true.
Proof.
  unfold no_slash. induction seg as [|c t IH]; intros Hs Ht; [exact Ht|].
  cbn [Str.all] in Hs. apply andb_true_iff in Hs as [Hc Hs].
  apply negb_true_iff in Hc.
  cbn [append single_slashes]. rewrite Hc. cbn [andb negb].
  now apply IH.
Qed.

Lemma single_slash_head (s : string) :
  head_ok s = true -> single_slashes s = true ->
  single_slashes (String "/" s) = true.
Proof.
  intros Hh Hs. destruct s as [|c t]; [discriminate|].
  cbn [head_ok] in Hh. apply negb_true_iff in Hh.
  cbn [single_slashes] in *. rewrite Hh in *. cbn [andb negb] in *.
  now rewrite andb_false_r.
Qed.

Lemma concat_single (segs : list string) :
  forallb proper segs = true ->
  single_slashes (String.concat "/" segs) = true.
Proof.
  induction segs as [|x [|y more] IH]; intros H; [reflexivity| |];
    cbn [forallb] in H; apply andb_true_iff in H as [Hx Hrest];
    unfold proper in Hx; apply andb_true_iff in Hx as [_ Hx].
  - rewrite <- (StrFacts.append_nil_r x). now apply single_no_slash.
  - change (String.concat "/" (x :: y :: more))
      with (x ++ String "/" (String.concat "/" (y :: more))).
    apply single_no_slash; [exact Hx|].
    apply single_slash_head; [|now apply IH].
    apply concat_head; [discriminate | exact Hrest].
Qed.

Lemma strip_append_slash (s : string) : strip_slash (s ++ "/") = s.
Proof.
  induction s as [|c t IH]; [reflexivity|].
  cbn [append strip_slash]. rewrite IH.
  destruct (t ++ "/") eqn:Ht; [|reflexivity].
  destruct t; discriminate.
Qed.

Lemma strip_last_ok (s : string) : last_ok s = true -> strip_slash s = s.
Proof.
  unfold last_ok. induction s as [|c t IH]; intros H; [reflexivity|].
  cbn [strip_slash]. destruct t as [|c1 t1].
  - cbn [Str.last] in H. apply negb_true_iff in H.
    now rewrite Ascii.eqb_sym, H.
  - change (Str.last (String c (String c1 t1)))
      with (Str.last (String c1 t1)) in H.
    now rewrite (IH H).
Qed.

Lemma concat_not_empty (segs : list string) :
  segs <> [] -> forallb proper segs = true ->
  String.concat "/" segs <> EmptyString.
Proof.
  intros Hne H Hempty. pose proof (concat_head segs Hne H) as Hh.
  now rewrite Hempty in Hh.
Qed.

(** *** path.posix.normalize *)

Lemma normalize_segments (c : ascii) (t : string) :
  let isAbsolute := Ascii.eqb c "/" in
  let segs :=
    Posix.resolve (negb isAbsolute) []
      (List.filter Posix.is_dir (Str.split "/" (String c t))) in
  forallb proper segs = true /\ settled (negb isAbsolute) segs.
Proof.
  intros isAbsolute segs. split.
  - apply resolve_proper; [reflexivity|].
    apply filter_proper, split_no_slash.
  - apply resolve_settled. exists 0, []. repeat split.
Qed.

Lemma normalize_render (c : ascii) (t : string) :
  let isAbsolute := Ascii.eqb c "/" in
  let trailingSeparator :=
    match Str.last (String c t) with
    | Some l => Ascii.eqb l "/"
    | None => false
    end in
  Posix.normalize (String c t)
  = render isAbsolute trailingSeparator
      (Posix.resolve (negb isAbsolute) []
         (List.filter Posix.is_dir (Str.split "/" (String c t)))).
Proof.
  intros isAbsolute trailingSeparator.
  destruct (normalize_segments c t) as [Hproper _].
  unfold Posix.normalize, Posix.normalizeString.
  subst isAbsolute trailingSeparator. cbv zeta in Hproper.
  destruct (Posix.resolve (negb (Ascii.eqb c "/")) []
              (List.filter Posix.is_dir (Str.split "/" (String c t))))
    as [|x more] eqn:Hsegs; [reflexivity|].
  pose proof (concat_not_empty (x :: more)) as Hne.
  unfold render.
  destruct (String.concat "/" (x :: more)) eqn:Hbody; [|reflexivity].
  exfalso. apply Hne; [discriminate | exact Hproper | reflexivity].
Qed.

(** A normalized path without its trailing separator is normalized. *)
Lemma normalize_fixed (isAbsolute : bool) (segs : list string) :
  segs <> [] -> forallb proper segs = true ->
  settled (negb isAbsolute) segs ->
  Posix.normalize
    ((if isAbsolute then "/" else EmptyString) ++ String.concat "/" segs)
  = (if isAbsolute then "/" else EmptyString) ++ String.concat "/" segs.
Proof.
  intros Hne Hproper Hsettled.
  pose proof (concat_head segs Hne Hproper) as Hhead.
  pose proof (concat_last segs Hne Hproper) as Hlast.
  assert (Hslash : forallb no_slash segs = true).
  { rewrite forallb_forall in *. intros x Hx.
    specialize (Hproper x Hx). unfold proper in Hproper.
    now apply andb_true_iff in Hproper as [_ Hs]. }
  pose proof (split_concat segs Hne Hslash) as Hsplit.
  destruct (String.concat "/" segs) as [|c0 t0] eqn:Hbody; [discriminate|].
  cbn [head_ok] in Hhead. apply negb_true_iff in Hhead.
  unfold last_ok in Hlast.
  destruct isAbsolute; cbn [append negb] in *.
  - rewrite normalize_render.
    change (Ascii.eqb "/" "/") with true. cbn [negb].
    change (Str.last (String "/" (String c0 t0)))
      with (Str.last (String c0 t0)).
    destruct (Str.last (String c0 t0)) as [l|]; [|discriminate].
    apply negb_true_iff in Hlast. rewrite Hlast.
    change (Str.split "/" (String "/" (String c0 t0)))
      with (EmptyString :: Str.split "/" (String c0 t0)).
    rewrite Hsplit. cbn [List.filter Posix.is_dir String.eqb orb negb].
    rewrite (filter_all segs Hproper), (resolve_fixed _ _ Hsettled).
    unfold render. destruct segs; [contradiction|].
    rewrite Hbody. cbn [append]. now rewrite StrFacts.append_nil_r.
  - rewrite normalize_render. rewrite Hhead. cbn [negb].
    destruct (Str.last (String c0 t0)) as [l|]; [|discriminate].
    apply negb_true_iff in Hlast. rewrite Hlast.
    rewrite Hsplit.
    rewrite (filter_all segs Hproper), (resolve_fixed _ _ Hsettled).
    unfold render. destruct segs; [contradiction|].
    rewrite Hbody. cbn [append]. now rewrite StrFacts.append_nil_r.
Qed.

Lemma rendered_single (isAbsolute : bool) (segs : list string) :
  segs <> [] -> forallb proper segs = true ->
  single_slashes
    ((if isAbsolute then "/" else EmptyString) ++ String.concat "/" segs)
  = true
  /\ last_ok
       ((if isAbsolute then "/" else EmptyString) ++ String.concat "/" segs)
     = true.
Proof.
  intros Hne Hproper.
  pose proof (concat_head segs Hne Hproper) as Hhead.
  pose proof (concat_last segs Hne Hproper) as Hlast.
  pose proof (concat_single segs Hproper) as Hsingle.
  destruct isAbsolute; cbn [append]; [|tauto]. split.
  - now apply single_slash_head.
  - unfold last_ok in *.
    destruct (String.concat "/" segs) as [|c0 t0]; [discriminate|].
    exact Hlast.
Qed.

Lemma strip_render (isAbsolute trailingSeparator : bool)
    (segs : list string) :
  segs <> [] -> forallb proper segs = true ->
  strip_slash (render isAbsolute trailingSeparator segs)
  = (if isAbsolute then "/" else EmptyString) ++ String.concat "/" segs.
Proof.
  intros Hne Hproper.
  destruct (rendered_single isAbsolute segs Hne Hproper) as [_ Hlast].
  unfold render. destruct segs as [|x more]; [contradiction|].
  destruct trailingSeparator.
  - rewrite <- StrFacts.append_assoc. apply strip_append_slash.
  - rewrite StrFacts.append_nil_r. now apply strip_last_ok.
Qed.

End PathFacts.

(** X1. Away from the root [normalizePath] is idempotent on a POSIX host: a
    path that [path.normalize] does not take to the root is taken to a path
    that [normalizePath] leaves as it is. *)
Theorem normalizePath_idempotent_off_root (p : string)
    (normalize_case normalize_case' : bool) :
  Posix.normalize p <> "/" ->
  exists out,
    normalizePath Posix.host p normalize_case = Ok out
    /\ normalizePath Posix.host out normalize_case' = Ok out.
Proof.
  intros Hroot. destruct p as [|c t].
  - exists ".". split; now rewrite PathFacts.normalizePath_posix.
  - destruct (PathFacts.normalize_segments c t) as [Hproper Hsettled].
    rewrite PathFacts.normalize_render in Hroot.
    pose proof (PathFacts.normalize_render c t) as Hnorm.
    cbv zeta in Hnorm, Hproper, Hsettled.
    set (isAbsolute := Ascii.eqb c "/") in *.
    set (trailing := match Str.last (String c t) with
                     | Some l => Ascii.eqb l "/"
                     | None => false
                     end) in *.
    set (segs := Posix.resolve (negb isAbsolute) []
                   (List.filter Posix.is_dir (Str.split "/" (String c t))))
      in *.
    destruct segs as [|x more] eqn:Hsegs.
    + unfold render in Hroot, Hnorm.
      destruct isAbsolute; [contradiction|].
      exists ".". split; [|now rewrite PathFacts.normalizePath_posix].
      rewrite PathFacts.normalizePath_posix; rewrite Hnorm;
        destruct trailing; reflexivity.
    + assert (Hne : x :: more <> []) by discriminate.
      destruct (PathFacts.rendered_single isAbsolute (x :: more) Hne Hproper)
        as [Hsingle Hlast].
      pose proof (PathFacts.strip_render isAbsolute trailing (x :: more)
                    Hne Hproper) as Hstrip.
      exists ((if isAbsolute then "/" else EmptyString)
                ++ String.concat "/" (x :: more)).
      split.
      * rewrite PathFacts.normalizePath_posix; rewrite Hnorm, Hstrip;
          [reflexivity | exact Hsingle].
      * rewrite PathFacts.normalizePath_posix;
          rewrite (PathFacts.normalize_fixed isAbsolute (x :: more)
                     Hne Hproper Hsettled),
                  (PathFacts.strip_last_ok _ Hlast);
          [reflexivity | exact Hsingle].
Qed.

Lemma normalizePath_idempotent_off_root_witness :
  Posix.normalize "/a//b/../c/" <> "/"
  /\ exists out,
       normalizePath Posix.host "/a//b/../c/" true = Ok out
       /\ normalizePath Posix.host out true = Ok out.
Proof.
  assert (Hroot : Posix.normalize "/a//b/../c/" <> "/") by discriminate.
  split; [exact Hroot|].
  exact (normalizePath_idempotent_off_root "/a//b/../c/" true true Hroot).
Defined.

(* ------------------------------------------------------------------ *)
(** * The loops of normalizePath end by their conditions *)

Module LoopFacts.

Lemma collapse_scan_length (s : string) :
  String.length (replace_literal_scan "//" "/" s 0) <= String.length s
  /\ String.length (replace_literal_scan "//" "/" s 1) <= String.length s.
Proof.
  induction s as [|c t [IH0 IH1]]; [split; cbn; lia|]. split.
  - cbn [replace_literal_scan String.length].
    destruct (prefix "//" (String c t)); cbn [append String.length]; lia.
  - cbn [replace_literal_scan String.length]. lia.
Qed.

(** A round of the second loop shortens the path. *)
Lemma collapse_shorter (s : string) :
  Str.includes s "//" = true ->
  String.length (replace_literal s "//" "/") < String.length s.
Proof.
  unfold replace_literal. induction s as [|c t IH]; [discriminate|].
  cbn [Str.includes]. intros H.
  cbn [replace_literal_scan String.length].
  destruct (prefix "//" (String c t)) eqn:Hp.
  - rewrite StrFacts.prefix_cons in Hp.
    apply andb_true_iff in Hp as [_ Hp].
    destruct t as [|c1 t1]; [discriminate|].
    cbn [append String.length replace_literal_scan].
    pose proof (proj1 (collapse_scan_length t1)). lia.
  - cbn [orb] in H. specialize (IH H). cbn [String.length]. lia.
Qed.

Lemma collapse_ends (fuel : nat) :
  forall norm,
    String.length norm < fuel ->
    exists out, collapse_separators fuel norm = Ok out
                /\ Str.includes out "//" = false.
Proof.
  induction fuel as [|f IH]; intros norm Hfuel; [lia|].
  cbn [collapse_separators].
  destruct (Str.includes norm "//") eqn:Hin; [|now exists norm].
  rewrite replaceAll_literal by reflexivity. cbn [bind].
  apply IH. pose proof (collapse_shorter norm Hin). lia.
Qed.





End LoopFacts.

(* ------------------------------------------------------------------ *)
(** * normalizePath on any host *)

Module SeparatorFacts.

Lemma count_append (sep : ascii) (a b : string) :
  count sep (a ++ b) = count sep a + count sep b.
Proof.
  induction a as [|c t IH]; [reflexivity|].
  cbn [append count]. rewrite IH. lia.
Qed.





Lemma last_ok_not_slash (s : string) :
  last_ok s = true -> Str.last s <> Some "/"%char /\ s <> EmptyString.
Proof.
  unfold last_ok. intros H. split.
  - intros Hl. rewrite Hl in H. discriminate.
  - intros ->. discriminate.
Qed.



End SeparatorFacts.

(** X2. On every host [normalizePath] returns, and the path it returns
    holds no two separators in a row. *)
Theorem normalizePath_no_double_separator (host : Host) (p : string)
    (normalize_case : bool) :
  exists out,
    normalizePath host p normalize_case = Ok out
    /\ Str.includes out "//" = false.
Proof.
  unfold normalizePath. apply LoopFacts.collapse_ends. lia.
Qed.



Example normalizePath_backslashes :
  normalizePath Win32.host
    ("C:/Users" ++ Str.char Str.backslash ++ "Me/") true
  = Ok "c:/users/me"
  /\ normalizePath Win32.host "c:/a/../b" true = Ok "c:/b"
  /\ normalizePath Win32.host "//Server/Share" false = Ok "/Server/Share".
Proof. repeat split. Qed.

Example win32_normalize :
  Win32.normalize "c:/a/../b" = "c:" ++ Str.char Str.backslash ++ "b"
  /\ Win32.normalize "C:" = "C:."
  /\ Win32.normalize "/foo/../../../bar" = Str.char Str.backslash ++ "bar"
  /\ Win32.normalize "a//b//./c/.."
     = "a" ++ Str.char Str.backslash ++ "b".
Proof. repeat split. Qed.

(** X4. On a POSIX host [normalizePath] returns, the path it returns does
    not end with a separator, and it is the empty string exactly where
    [path.normalize] gives the root. *)
Theorem normalizePath_posix_no_trailing_separator (p : string)
    (normalize_case : bool) :
  exists out,
    normalizePath Posix.host p normalize_case = Ok out
    /\ Str.last out <> Some "/"%char
    /\ (out = EmptyString <-> Posix.normalize p = "/").
Proof.
  destruct p as [|c t].
  - exists ".". rewrite PathFacts.normalizePath_posix by reflexivity.
    repeat split; discriminate.
  - destruct (PathFacts.normalize_segments c t) as [Hproper _].
    pose proof (PathFacts.normalize_render c t) as Hnorm.
    cbv zeta in Hnorm, Hproper.
    set (isAbsolute := Ascii.eqb c "/") in *.
    set (trailing := match Str.last (String c t) with
                     | Some l => Ascii.eqb l "/"
                     | None => false
                     end) in *.
    set (segs := Posix.resolve (negb isAbsolute) []
                   (List.filter Posix.is_dir (Str.split "/" (String c t))))
      in *.
    destruct segs as [|x more] eqn:Hsegs.
    + unfold render in Hnorm. destruct isAbsolute.
      * exists EmptyString.
        rewrite PathFacts.normalizePath_posix; rewrite Hnorm;
          [|reflexivity]. repeat split; discriminate.
      * exists ".".
        rewrite PathFacts.normalizePath_posix; rewrite Hnorm;
          destruct trailing; try reflexivity; repeat split; discriminate.
    + assert (Hne : x :: more <> []) by discriminate.
      destruct (PathFacts.rendered_single isAbsolute (x :: more) Hne Hproper)
        as [Hsingle Hlast].
      pose proof (PathFacts.strip_render isAbsolute trailing (x :: more)
                    Hne Hproper) as Hstrip.
      pose proof (PathFacts.concat_head (x :: more) Hne Hproper) as Hhead.
      exists ((if isAbsolute then "/" else EmptyString)
                ++ String.concat "/" (x :: more)).
      rewrite PathFacts.normalizePath_posix; rewrite Hnorm, Hstrip;
        [|exact Hsingle].
      destruct (SeparatorFacts.last_ok_not_slash _ Hlast) as [Hl Hempty].
      split; [reflexivity|]. split; [exact Hl|]. split; [contradiction|].
      intros Hrender. exfalso. unfold render in Hrender.
      destruct (String.concat "/" (x :: more)) as [|c0 t0];
        [discriminate|].
      destruct isAbsolute; cbn [append] in Hrender.
      * discriminate.
      * cbn [head_ok] in Hhead. injection Hrender as Hc _.
        subst c0. discriminate.
Qed.

(* ------------------------------------------------------------------ *)
(** * What a run of termProc has done when it ends *)

Section KillTreeRuns.

Variables (host : Host) (os : OS).
Hypothesis posix : win32 host = false.

Lemma visit_cases (fuel : nat) (other : option Z) (r : result unit)
    (events : list Event) :
  visit host os fuel other = Some (r, events) ->
  (exists c, other = Some c /\ c <> 0%Z
             /\ _killTree host os fuel c = Some (r, events))
  \/ (r = Ok tt /\ events = []
      /\ forall c, other = Some c -> c = 0%Z).
Proof.
  unfold visit. destruct other as [c|]; cbn [truthy].
  - destruct (c =? 0)%Z eqn:Hc; cbn [negb]; intros H.
    + injection H as <- <-. right. repeat split.
      intros c' [= <-]. now apply Z.eqb_eq.
    + left. exists c. repeat split; [|exact H]. now apply Z.eqb_neq.
  - intros H. injection H as <- <-. right. repeat split. discriminate.
Qed.

Lemma descendant_of_child (p c s : Z) :
  is_child os p c -> s = c \/ descendant os c s -> descendant os p s.
Proof.
  intros Hc [->|Hs].
  - now apply descendant_child.
  - now apply descendant_below with c.
Qed.

Lemma descendant_cases (p s : Z) :
  descendant os p s ->
  exists c, is_child os p c /\ (s = c \/ descendant os c s).
Proof.
  intros [c Hc|c d Hc Hd]; [exists c | exists c]; auto.
Qed.

(** The loop over the children, given what the runs on the children have
    done. *)
Lemma for_of_runs (fuel : nat) :
  (forall c r events,
      _killTree host os fuel c = Some (r, events) ->
      (forall ev, In ev events ->
                  exists s, ev = Signal s /\ (s = c \/ descendant os c s))
      /\ (r = Ok tt ->
          finite_tree os fuel c
          /\ forall s, s = c \/ descendant os c s -> deliverable os s)
      /\ (forall e, r = Throw e ->
            exists before q code,
              events = (before ++ [Signal q])%list
              /\ kill os q = Refused code /\ e = Error code
              /\ forall s, In (Signal s) before -> deliverable os s)) ->
  forall children r events,
    for_of (visit host os fuel) children = Some (r, events) ->
    (forall ev, In ev events ->
                exists s c, ev = Signal s /\ In (Some c) children
                            /\ c <> 0%Z /\ (s = c \/ descendant os c s))
    /\ (r = Ok tt ->
        forall c, In (Some c) children -> c <> 0%Z ->
          finite_tree os fuel c
          /\ forall s, s = c \/ descendant os c s -> deliverable os s)
    /\ (forall e, r = Throw e ->
          exists before q code,
            events = (before ++ [Signal q])%list
            /\ kill os q = Refused code /\ e = Error code
            /\ forall s, In (Signal s) before -> deliverable os s).
Proof.
  intros IH.
  induction children as [|other more IHc]; intros r events Hrun.
  - injection Hrun as <- <-. split; [intros ev []|].
    split; [intros _ c []|discriminate].
  - cbn [for_of] in Hrun.
    destruct (visit host os fuel other) as [[r1 e1]|] eqn:Hvisit;
      [|discriminate].
    assert (Hone :
      (forall ev, In ev e1 ->
         exists s c, ev = Signal s /\ other = Some c /\ c <> 0%Z
                     /\ (s = c \/ descendant os c s))
      /\ (r1 = Ok tt ->
          (forall c, other = Some c -> c <> 0%Z ->
             finite_tree os fuel c
             /\ forall s, s = c \/ descendant os c s -> deliverable os s)
          /\ forall s, In (Signal s) e1 -> deliverable os s)
      /\ (forall e, r1 = Throw e ->
            exists before q code,
              e1 = (before ++ [Signal q])%list
              /\ kill os q = Refused code /\ e = Error code
              /\ forall s, In (Signal s) before -> deliverable os s)).
    { destruct (visit_cases _ _ _ _ Hvisit)
        as [(c & -> & Hne & Hc)|(-> & -> & Hzero)].
      - destruct (IH c r1 e1 Hc) as (HA & HB & HC).
        split; [|split].
        + intros ev Hev. destruct (HA ev Hev) as (s & -> & Hs).
          now exists s, c.
        + intros Hr. destruct (HB Hr) as [Hfin Hdel]. split.
          * intros c' [= <-] _. now split.
          * intros s Hs. destruct (HA _ Hs) as (s' & [= <-] & Hs').
            now apply Hdel.
        + exact HC.
      - split; [intros ev []|]. split; [|discriminate].
        intros _. split; [|intros s []].
        intros c Hc Hne. now apply Hzero in Hc. }
    destruct Hone as (HA1 & HB1 & HC1).
    destruct r1 as [[]|e].
    + destruct (for_of (visit host os fuel) more) as [[r2 e2]|] eqn:Hmore;
        [|discriminate].
      injection Hrun as <- <-.
      destruct (IHc r2 e2 eq_refl) as (HA2 & HB2 & HC2).
      destruct (HB1 eq_refl) as [Hfin1 Hdel1].
      split; [|split].
      * intros ev Hev. apply in_app_or in Hev as [Hev|Hev].
        -- destruct (HA1 ev Hev) as (s & c & -> & Hc & Hne & Hs).
           exists s, c. repeat split; auto. now left.
        -- destruct (HA2 ev Hev) as (s & c & -> & Hc & Hne & Hs).
           exists s, c. repeat split; auto. now right.
      * intros Hr c [Hc|Hc] Hne; [now apply Hfin1 | now apply HB2].
      * intros e He. destruct (HC2 e He) as (before & q & code & -> & Hq
                                              & Hcode & Hdel).
        exists (e1 ++ before)%list, q, code.
        rewrite app_assoc. repeat split; auto.
        intros s Hs. apply in_app_or in Hs as [Hs|Hs]; auto.
    + injection Hrun as <- <-. split; [|split].
      * intros ev Hev. destruct (HA1 ev Hev) as (s & c & -> & Hc & Hne & Hs).
        exists s, c. repeat split; auto. now left.
      * discriminate.
      * exact HC1.
Qed.

(** Every finished run has signalled processes of the tree only; one that
    ends well has met no refusal and a tree no deeper than its fuel; one
    that throws has ended with the first signal that was refused. *)
Lemma killTree_runs (fuel : nat) :
  forall p r events,
    _killTree host os fuel p = Some (r, events) ->
    (forall ev, In ev events ->
                exists s, ev = Signal s /\ (s = p \/ descendant os p s))
    /\ (r = Ok tt ->
        finite_tree os fuel p
        /\ forall s, s = p \/ descendant os p s -> deliverable os s)
    /\ (forall e, r = Throw e ->
          exists before q code,
            events = (before ++ [Signal q])%list
            /\ kill os q = Refused code /\ e = Error code
            /\ forall s, In (Signal s) before -> deliverable os s).
Proof.
  induction fuel as [|fuel IH]; intros p r events Hrun.
  - cbn [_killTree] in Hrun. rewrite posix in Hrun. discriminate.
  - rewrite (killTree_step host os posix) in Hrun.
    destruct (for_of (visit host os fuel) (children_of os p))
      as [[r0 e0]|] eqn:Hloop; [|discriminate].
    destruct (for_of_runs fuel IH _ _ _ Hloop) as (HA & HB & HC).
    assert (HA' : forall ev, In ev e0 ->
                    exists s, ev = Signal s /\ descendant os p s).
    { intros ev Hev. destruct (HA ev Hev) as (s & c & -> & Hc & Hne & Hs).
      exists s. split; [reflexivity|].
      apply descendant_of_child with c; [now split | exact Hs]. }
    destruct r0 as [[]|e].
    + specialize (HB eq_refl).
      assert (Hevents : events = (e0 ++ [Signal p])%list).
      { destruct (kill os p); now injection Hrun as _ <-. }
      assert (Hbelow : forall s, descendant os p s -> deliverable os s).
      { intros s Hs.
        destruct (descendant_cases p s Hs) as (c & [Hc Hne] & Hcs).
        now apply (HB c Hc Hne). }
      assert (Hbefore : forall s, In (Signal s) e0 -> deliverable os s).
      { intros s Hs. destruct (HA' _ Hs) as (s' & [= <-] & Hs').
        now apply Hbelow. }
      subst events. split; [|split].
      * intros ev Hev. apply in_app_or in Hev as [Hev|[<-|[]]].
        -- destruct (HA' ev Hev) as (s & -> & Hs). exists s. auto.
        -- exists p. auto.
      * intros Hr. split.
        -- constructor. intros c [Hc Hne]. now apply (HB c Hc Hne).
        -- intros s [->|Hs]; [|now apply Hbelow].
           unfold deliverable.
           destruct (kill os p); [now left | now right |].
           injection Hrun as <-. discriminate.
      * intros e He.
        destruct (kill os p) as [| |code] eqn:Hkill;
          try (injection Hrun as <-; discriminate).
        injection Hrun as <-. injection He as <-.
        now exists e0, p, code.
    + injection Hrun as <- <-. split; [|split].
      * intros ev Hev. destruct (HA' ev Hev) as (s & -> & Hs).
        exists s. auto.
      * discriminate.
      * exact HC.
Qed.

Lemma finite_tree_below (depth : nat) (p : Z) :
  finite_tree os depth p ->
  forall q, descendant os p q ->
  exists below, below < depth /\ finite_tree os below q.
Proof.
  intros Htree. induction Htree as [depth root Hsub IH].
  intros q Hq. destruct Hq as [c Hc|c d Hc Hd].
  - exists depth. split; [lia | now apply Hsub].
  - destruct (IH c Hc d Hd) as (below & Hlt & Hfin).
    exists below. split; [lia | exact Hfin].
Qed.

(** A process below itself has no finite tree. *)
Lemma finite_tree_no_cycle (depth : nat) :
  forall q, finite_tree os depth q -> descendant os q q -> False.
Proof.
  induction depth as [depth IH] using lt_wf_ind. intros q Hfin Hcycle.
  destruct (finite_tree_below depth q Hfin q Hcycle)
    as (below & Hlt & Hfin').
  exact (IH below Hlt q Hfin' Hcycle).
Qed.

End KillTreeRuns.

Lemma termProc_order_always_witness :
  win32 Posix.host = false
  /\ termProc Posix.host refused_child 2 (mkChild 100)
     = Some (Throw (Error "EPERM"), [Signal 101])
  /\ children_first refused_child [Signal 101].
Proof.
  assert (Hposix : win32 Posix.host = false) by reflexivity.
  assert (Hrun : termProc Posix.host refused_child 2 (mkChild 100)
                 = Some (Throw (Error "EPERM"), [Signal 101]))
    by reflexivity.
  split; [exact Hposix|]. split; [exact Hrun|].
  exact (termProc_order_always Posix.host refused_child 2 (mkChild 100)
           _ _ Hposix Hrun).
Defined.

(** X6. On a POSIX host a run of [termProc] that throws has ended with the
    first signal that was refused: that signal is its last event, it went to
    the process or to one of its descendants, the error thrown is the one of
    [process.kill], and no signal sent before was refused. *)
Theorem termProc_refused (host : Host) (os : OS) (fuel : nat)
    (child : ChildProcess) (e : JsError) (events : list Event) :
  win32 host = false ->
  termProc host os fuel child = Some (Throw e, events) ->
  exists before q code,
    events = (before ++ [Signal q])%list
    /\ kill os q = Refused code
    /\ e = Error code
    /\ (q = pid child \/ descendant os (pid child) q)
    /\ forall s, In (Signal s) before ->
                 kill os s = Delivered \/ kill os s = NoSuchProcess.
Proof.
  intros Hposix Hrun. unfold termProc in Hrun.
  destruct (_killTree host os fuel (pid child)) as [[[[]|e0] e1]|] eqn:Hkill;
    try discriminate.
  injection Hrun as <- <-.
  destruct (killTree_runs host os Hposix fuel _ _ _ Hkill) as (HA & _ & HC).
  destruct (HC e0 eq_refl) as (before & q & code & -> & Hq & -> & Hdel).
  exists before, q, code. repeat split; auto.
  destruct (HA (Signal q)) as (s & [= <-] & Hs); [|exact Hs].
  apply in_or_app. right. now left.
Qed.

Lemma termProc_refused_witness :
  win32 Posix.host = false
  /\ termProc Posix.host refused_child 2 (mkChild 100)
     = Some (Throw (Error "EPERM"), [Signal 101])
  /\ exists before q code,
       [Signal 101] = (before ++ [Signal q])%list
       /\ kill refused_child q = Refused code
       /\ Error "EPERM" = Error code
       /\ (q = 100%Z \/ descendant refused_child 100 q)
       /\ forall s, In (Signal s) before ->
                    kill refused_child s = Delivered
                    \/ kill refused_child s = NoSuchProcess.
Proof.
  assert (Hposix : win32 Posix.host = false) by reflexivity.
  assert (Hrun : termProc Posix.host refused_child 2 (mkChild 100)
                 = Some (Throw (Error "EPERM"), [Signal 101]))
    by reflexivity.
  split; [exact Hposix|]. split; [exact Hrun|].
  exact (termProc_refused Posix.host refused_child 2 (mkChild 100)
           _ _ Hposix Hrun).
Defined.

(** X7. On a POSIX host [termProc] signals the process and its descendants
    and nothing else: every event of a run that ends is a signal to a
    process of the tree, and taskkill is not started. *)
Theorem termProc_signals_tree_only (host : Host) (os : OS) (fuel : nat)
    (child : ChildProcess) (r : result bool) (events : list Event) :
  win32 host = false ->
  termProc host os fuel child = Some (r, events) ->
  forall ev, In ev events ->
    exists s, ev = Signal s
              /\ (s = pid child \/ descendant os (pid child) s).
Proof.
  intros Hposix Hrun. unfold termProc in Hrun.
  destruct (_killTree host os fuel (pid child)) as [[r0 e0]|] eqn:Hkill;
    [|discriminate].
  destruct (killTree_runs host os Hposix fuel _ _ _ Hkill) as (HA & _).
  destruct r0; injection Hrun as _ <-; exact HA.
Qed.

Lemma termProc_signals_tree_only_witness :
  win32 Posix.host = false
  /\ termProc Posix.host two_children 2 (mkChild 100)
     = Some (Ok true, [Signal 101; Signal 102; Signal 100])
  /\ forall ev, In ev [Signal 101; Signal 102; Signal 100] ->
       exists s, ev = Signal s
                 /\ (s = 100%Z \/ descendant two_children 100 s).
Proof.
  assert (Hposix : win32 Posix.host = false) by reflexivity.
  assert (Hrun : termProc Posix.host two_children 2 (mkChild 100)
                 = Some (Ok true, [Signal 101; Signal 102; Signal 100]))
    by reflexivity.
  split; [exact Hposix|]. split; [exact Hrun|].
  exact (termProc_signals_tree_only Posix.host two_children 2 (mkChild 100)
           _ _ Hposix Hrun).
Defined.

(** X8. On a POSIX host [termProc] returns [true] only where the whole tree
    was signalled without a refusal: the tree is no deeper than the fuel,
    and the process and each of its descendants was signalled and either
    took the signal or no longer existed. *)
Theorem termProc_true_only_if (host : Host) (os : OS) (fuel : nat)
    (child : ChildProcess) (events : list Event) :
  win32 host = false ->
  termProc host os fuel child = Some (Ok true, events) ->
  finite_tree os fuel (pid child)
  /\ forall q, q = pid child \/ descendant os (pid child) q ->
       In (Signal q) events
       /\ (kill os q = Delivered \/ kill os q = NoSuchProcess).
Proof.
  intros Hposix Hrun. unfold termProc in Hrun.
  destruct (_killTree host os fuel (pid child)) as [[[[]|e0] e1]|] eqn:Hkill;
    try discriminate.
  injection Hrun as <-.
  destruct (killTree_runs host os Hposix fuel _ _ _ Hkill) as (_ & HB & _).
  destruct (HB eq_refl) as [Hfin Hdel].
  destruct (killTree_done host os Hposix fuel _ _ _ Hkill) as [_ Hbody].
  destruct (Hbody eq_refl) as (body & -> & Hdesc).
  split; [exact Hfin|]. intros q Hq. split; [|now apply Hdel].
  apply in_or_app. destruct Hq as [->|Hq]; [right; now left | left; auto].
Qed.

Lemma termProc_true_only_if_witness :
  win32 Posix.host = false
  /\ termProc Posix.host two_children 2 (mkChild 100)
     = Some (Ok true, [Signal 101; Signal 102; Signal 100])
  /\ finite_tree two_children 2 100
  /\ forall q, q = 100%Z \/ descendant two_children 100 q ->
       In (Signal q) [Signal 101; Signal 102; Signal 100]
       /\ (kill two_children q = Delivered
           \/ kill two_children q = NoSuchProcess).
Proof.
  assert (Hposix : win32 Posix.host = false) by reflexivity.
  assert (Hrun : termProc Posix.host two_children 2 (mkChild 100)
                 = Some (Ok true, [Signal 101; Signal 102; Signal 100]))
    by reflexivity.
  split; [exact Hposix|]. split; [exact Hrun|].
  exact (termProc_true_only_if Posix.host two_children 2 (mkChild 100)
           _ Hposix Hrun).
Defined.

(** X9. [_killTree] keeps no record of the processes it has visited: where
    the listing of children has a cycle in the tree of the process, no
    amount of fuel lets [termProc] return [true] on a POSIX host. *)
Theorem termProc_cycle_never_true (host : Host) (os : OS)
    (child : ChildProcess) (q : Z) :
  win32 host = false ->
  q = pid child \/ descendant os (pid child) q ->
  descendant os q q ->
  forall fuel events,
    termProc host os fuel child <> Some (Ok true, events).
Proof.
  intros Hposix Hq Hcycle fuel events Hrun. unfold termProc in Hrun.
  destruct (_killTree host os fuel (pid child)) as [[[[]|e0] e1]|] eqn:Hkill;
    try discriminate.
  destruct (killTree_runs host os Hposix fuel _ _ _ Hkill) as (_ & HB & _).
  destruct (HB eq_refl) as [Hfin _].
  destruct Hq as [->|Hq].
  - exact (finite_tree_no_cycle os fuel _ Hfin Hcycle).
  - destruct (finite_tree_below os fuel _ Hfin q Hq) as (below & _ & Hfin').
    exact (finite_tree_no_cycle os below _ Hfin' Hcycle).
Qed.

Lemma termProc_cycle_never_true_witness :
  win32 Posix.host = false
  /\ descendant looping 7 7
  /\ forall fuel events,
       termProc Posix.host looping fuel (mkChild 7) <> Some (Ok true, events).
Proof.
  assert (Hposix : win32 Posix.host = false) by reflexivity.
  assert (H78 : is_child looping 7 8).
  { split; [left; reflexivity | discriminate]. }
  assert (H87 : is_child looping 8 7).
  { split; [left; reflexivity | discriminate]. }
  assert (Hcycle : descendant looping 7 7).
  { apply descendant_below with 8%Z; [exact H78|].
    now apply descendant_child. }
  split; [exact Hposix|]. split; [exact Hcycle|].
  exact (termProc_cycle_never_true Posix.host looping (mkChild 7) 7
           Hposix (or_introl eq_refl) Hcycle).
Defined.

Example termProc_looping_runs_out :
  termProc Posix.host looping 50 (mkChild 7) = None.
Proof. reflexivity. Qed.

(* ------------------------------------------------------------------ *)
(** * Replacement templates in replaceAll *)

Module TemplateFacts.
Import RegExp RegExpFacts.

Lemma no_group (n : nat) : valid_group 0 n = false.
Proof. unfold valid_group. now destruct n. Qed.

(** Without groups a digit after [$] names nothing. *)
Lemma group_or_dollar_none (caps : list (nat * string)) (c : ascii)
    (t expanded_t after_two : string) :
  group_or_dollar caps 0 c t expanded_t after_two
  = String "$" (String c expanded_t).
Proof.
  unfold group_or_dollar. rewrite no_group.
  destruct t as [|d t1]; [reflexivity|].
  now rewrite no_group, andb_false_r.
Qed.

(** The expansion of a template without [$`] and [$'] does not depend on
    the text around the match. *)
Lemma expand_context_free (matched before after : string) (n : nat) :
  forall what,
    String.length what <= n ->
    context_free what = true ->
    expand matched before after [] 0 what
    = expand matched EmptyString EmptyString [] 0 what.
Proof.
  induction n as [|n IH]; intros what Hlen Hfree.
  - destruct what; [reflexivity | cbn in Hlen; lia].
  - destruct what as [|c t]; [reflexivity|].
    cbn [String.length] in Hlen. cbn [context_free] in Hfree.
    cbn [expand]. destruct (negb (Ascii.eqb c "$")).
    + f_equal. apply IH; [lia | exact Hfree].
    + destruct t as [|c1 t1]; [reflexivity|].
      cbn [String.length] in Hlen.
      destruct (Ascii.eqb c1 "$") eqn:Hd.
      { f_equal. apply IH; [lia | exact Hfree]. }
      destruct (Ascii.eqb c1 "&").
      { f_equal. apply IH; [lia | exact Hfree]. }
      destruct (Ascii.eqb c1 "`"); [discriminate|].
      destruct (Ascii.eqb c1 "'"); [discriminate|].
      assert (Ht1 : expand matched before after [] 0 t1
                    = expand matched EmptyString EmptyString [] 0 t1).
      { apply IH; [lia|]. cbn [context_free] in Hfree.
        now rewrite Hd in Hfree. }
      destruct (Str.is_digit c1).
      * rewrite !group_or_dollar_none. now rewrite Ht1.
      * f_equal. apply IH; [cbn [String.length]; lia | exact Hfree].
Qed.

(** With a literal pattern the scan of [String.prototype.replace] puts
    the expansion of the template in the place of every occurrence. *)
Lemma replace_scan_template (n what : string) :
  context_free what = true ->
  forall (s before : string) (skip : nat),
    replace_scan (literal n) what before s skip
    = replace_literal_scan n
        (expand n EmptyString EmptyString [] 0 what) s skip.
Proof.
  intros Hfree s; induction s as [|c t IH]; intros before skip.
  - destruct skip; [|reflexivity].
    cbn [replace_scan replace_literal_scan].
    rewrite match_at_literal.
    destruct (prefix n EmptyString) eqn:Hp; [|reflexivity].
    unfold substitution. cbn [endIndex captures].
    rewrite groups_literal.
    rewrite (expand_context_free _ _ _ (String.length what) what (le_n _) Hfree).
    rewrite StrFacts.prefix_nil_r in Hp. destruct n; [|discriminate].
    now destruct (String.length before + String.length EmptyString - String.length before).
  - destruct skip as [|k];
      [|cbn [replace_scan replace_literal_scan]; apply IH].
    cbn [replace_scan replace_literal_scan].
    rewrite match_at_literal.
    destruct (prefix n (String c t)) eqn:Hp.
    + unfold substitution. cbn [endIndex captures].
      rewrite groups_literal.
      rewrite (expand_context_free _ _ _ (String.length what) what (le_n _) Hfree).
      replace (String.length before + String.length n - String.length before)
        with (String.length n) by lia.
      rewrite (StrFacts.prefix_split _ _ Hp) at 1.
      rewrite StrFacts.take_append.
      destruct (String.length n); now rewrite IH.
    + now rewrite IH.
Qed.

Lemma replace_literal_same (n s : string) :
  forall skip,
    replace_literal_scan n n s skip = Str.drop skip s.
Proof.
  induction s as [|c t IH]; intros skip.
  - destruct skip; [|reflexivity]. cbn [replace_literal_scan Str.drop].
    rewrite StrFacts.prefix_nil_r. destruct n; reflexivity.
  - destruct skip as [|k]; cbn [replace_literal_scan Str.drop]; [|apply IH].
    destruct (prefix n (String c t)) eqn:Hp; [|now rewrite IH].
    destruct n as [|a n1]; [cbn [String.length append]; now rewrite IH|].
    cbn [String.length]. rewrite IH.
    rewrite StrFacts.prefix_cons in Hp.
    apply andb_true_iff in Hp as [Hc Hp]. apply Ascii.eqb_eq in Hc.
    subst a. cbn [append]. f_equal.
    symmetry. now apply StrFacts.prefix_split.
Qed.

Lemma replaceAll_template (str needle what : string) :
  context_free what = true ->
  replaceAll str needle what
  = Ok (replace_literal str needle
          (expand needle EmptyString EmptyString [] 0 what)).
Proof.
  intros Hfree. unfold replaceAll.
  rewrite ParseFacts.create_escaped. cbn [bind].
  unfold replace_global, replace_literal.
  now rewrite replace_scan_template.
Qed.

End TemplateFacts.

(** X10. [replaceAll] reads [what] as a replacement template of
    [String.prototype.replace]: where no [$] of it is followed by a
    backquote or a quote, every literal occurrence of [needle] is replaced
    by the expansion of [what], in which [$$] stands for one [$] and [$&]
    for [needle]. *)
Theorem replaceAll_expands_template (str needle what : string) :
  context_free what = true ->
  replaceAll str needle what
  = Ok (replace_literal str needle
          (RegExp.expand needle EmptyString EmptyString [] 0 what)).
Proof.
  intros Hfree. unfold replaceAll.
  rewrite ParseFacts.create_escaped. cbn [bind].
  unfold RegExp.replace_global, replace_literal.
  now rewrite TemplateFacts.replace_scan_template.
Qed.

Lemma replaceAll_expands_template_witness :
  context_free "$$[$&]" = true
  /\ replaceAll "a.b.c" "." "$$[$&]" = Ok "a$[.]b$[.]c".
Proof.
  assert (Hfree : context_free "$$[$&]" = true) by reflexivity.
  split; [exact Hfree|].
  exact (replaceAll_expands_template "a.b.c" "." "$$[$&]" Hfree).
Defined.

(** X11. Replacing every occurrence of a needle by [$&] gives the string
    back, and by [$$] puts a single [$] in its place. *)
Theorem replaceAll_dollar_patterns (str needle : string) :
  replaceAll str needle "$&" = Ok str
  /\ replaceAll str needle "$$" = Ok (replace_literal str needle "$").
Proof.
  split.
  - unfold replaceAll. rewrite ParseFacts.create_escaped. cbn [bind].
    unfold RegExp.replace_global.
    rewrite TemplateFacts.replace_scan_template by reflexivity.
    cbn [RegExp.expand Ascii.eqb Bool.eqb negb].
    rewrite StrFacts.append_nil_r.
    now rewrite TemplateFacts.replace_literal_same.
  - unfold replaceAll. rewrite ParseFacts.create_escaped. cbn [bind].
    unfold RegExp.replace_global.
    now rewrite TemplateFacts.replace_scan_template by reflexivity.
Qed.

(** The text before the match comes in with a dollar and a backquote. *)
Example replaceAll_text_before :
  replaceAll "a-b" "-" "$`" = Ok "aab".
Proof. reflexivity. Qed.

(* ------------------------------------------------------------------ *)
(** * The pattern of escapeStringForRegex *)

(** X12. The pattern that [escapeStringForRegex] returns is accepted by
    [new RegExp], and the expression matches at a position exactly where
    the string itself stands there; the match covers the string and
    captures nothing. *)
Theorem escapeStringForRegex_matches_itself (s input : string) (pos : nat) :
  exists re,
    RegExp.create (escapeStringForRegex s) = Ok re
    /\ RegExp.match_at re pos input
       = if prefix s input
         then Some (RegExp.mkState (pos + String.length s)
                      (Str.drop (String.length s) input) [])
         else None.
Proof.
  exists (RegExp.literal s). split.
  - apply ParseFacts.create_escaped.
  - apply RegExpFacts.match_at_literal.
Qed.

Example escapeStringForRegex_specials :
  escapeStringForRegex "a.b*(c)" = "a\.b\*\(c\)".
Proof. reflexivity. Qed.

(* ------------------------------------------------------------------ *)
(** * removeAllPatterns deletes *)

Module RemoveFacts.

Lemma subsequence_refl (s : string) : subsequence s s.
Proof. induction s; constructor; assumption. Qed.

Lemma subsequence_trans (a b c : string) :
  subsequence a b -> subsequence b c -> subsequence a c.
Proof.
  intros Hab Hbc. revert a Hab.
  induction Hbc as [|x b c Hbc IH|x b c Hbc IH]; intros a Hab.
  - exact Hab.
  - inversion Hab; subst.
    + apply subsequence_keep. now apply IH.
    + apply subsequence_drop. now apply IH.
  - apply subsequence_drop. now apply IH.
Qed.

Lemma subsequence_length (a b : string) :
  subsequence a b -> String.length a <= String.length b.
Proof. induction 1; cbn [String.length]; lia. Qed.

Lemma remove_scan (needle s : string) :
  forall skip,
    subsequence (replace_literal_scan needle EmptyString s skip) s.
Proof.
  induction s as [|c t IH]; intros skip.
  - destruct skip; cbn [replace_literal_scan]; [|constructor].
    destruct (prefix needle EmptyString); constructor.
  - destruct skip as [|k]; cbn [replace_literal_scan].
    + destruct (prefix needle (String c t)).
      * cbn [append]. destruct (String.length needle);
          [apply subsequence_keep | apply subsequence_drop]; apply IH.
      * apply subsequence_keep, IH.
    + apply subsequence_drop, IH.
Qed.

End RemoveFacts.

(** X13. [removeAllPatterns] returns for every string and every list of
    patterns; what it returns is the string with some code units deleted,
    so it is never longer, and it is the string itself where no pattern
    occurs in it. *)
Theorem removeAllPatterns_deletes (str : string) (patterns : list string) :
  exists out,
    removeAllPatterns str patterns = Ok out
    /\ subsequence out str
    /\ String.length out <= String.length str
    /\ (forallb (fun needle => negb (Str.includes str needle)) patterns
        = true -> out = str).
Proof.
  rewrite removeAllPatterns_literal.
  eexists. split; [reflexivity|].
  assert (Hsub : forall patterns str,
            subsequence
              (fold_left
                 (fun acc needle => replace_literal acc needle EmptyString)
                 patterns str) str).
  { clear. induction patterns as [|needle more IH]; intros str.
    - apply RemoveFacts.subsequence_refl.
    - cbn [fold_left].
      eapply RemoveFacts.subsequence_trans; [apply IH|].
      apply RemoveFacts.remove_scan. }
  split; [apply Hsub|].
  split; [apply RemoveFacts.subsequence_length, Hsub|].
  induction patterns as [|needle more IH]; intros Hnone; [reflexivity|].
  cbn [forallb] in Hnone. apply andb_true_iff in Hnone as [Hn Hmore].
  apply negb_true_iff in Hn. cbn [fold_left].
  rewrite LiteralFacts.replace_literal_absent by exact Hn.
  now apply IH.
Qed.

(** Removing the occurrences of a pattern may bring a new one about. *)
Example removeAllPatterns_leaves_pattern :
  removeAllPatterns "aabb" ["ab"] = Ok "ab".
Proof. reflexivity. Qed.

(* ------------------------------------------------------------------ *)
(** * product *)

Module ProductFacts.

Lemma join_concat (A : Type) (l : list (list A)) :
  forall acc,
    fold_left (fun a b => (a ++ b)%list) l acc = (acc ++ concat l)%list.
Proof.
  induction l as [|x l IH]; intros acc; cbn [fold_left concat].
  - now rewrite app_nil_r.
  - now rewrite IH, app_assoc.
Qed.

(** One round of the outer reduce. *)
Lemma round_flat_map (acc : list (list JsValue)) (curr : list JsValue) :
  fold_left (fun a b => (a ++ b)%list)
    (List.map
       (fun prev => List.map (fun item => Array_concat prev item) curr)
       acc)
    []
  = flat_map (fun prev => List.map (Array_concat prev) curr) acc.
Proof. rewrite join_concat, flat_map_concat_map. reflexivity. Qed.

Lemma product_rounds (arrays : list (list JsValue)) :
  forall acc,
    fold_left
      (fun acc curr =>
         fold_left (fun a b => (a ++ b)%list)
           (List.map
              (fun prev =>
                 List.map (fun item => Array_concat prev item) curr)
              acc)
           [])
      arrays acc
    = fold_left
        (fun acc curr =>
           flat_map (fun prev => List.map (Array_concat prev) curr) acc)
        arrays acc.
Proof.
  induction arrays as [|curr rest IH]; intros acc; [reflexivity|].
  cbn [fold_left]. now rewrite IH, round_flat_map.
Qed.

Lemma concat_flat (prev : list JsValue) (curr : list JsValue) :
  forallb (fun v => negb (is_array v)) curr = true ->
  List.map (Array_concat prev) curr
  = List.map (fun item => (prev ++ [item])%list) curr.
Proof.
  intros Hflat. apply map_ext_in. intros item Hin.
  rewrite forallb_forall in Hflat. specialize (Hflat item Hin).
  now destruct item.
Qed.

Lemma round_flat (acc : list (list JsValue)) (curr : list JsValue) :
  forallb (fun v => negb (is_array v)) curr = true ->
  flat_map (fun prev => List.map (Array_concat prev) curr) acc
  = flat_map
      (fun prev => List.map (fun item => (prev ++ [item])%list) curr) acc.
Proof.
  intros Hflat. induction acc as [|prev acc IH]; [reflexivity|].
  cbn [flat_map]. now rewrite IH, concat_flat.
Qed.

Lemma extend_nil (acc : list (list JsValue)) :
  flat_map (fun prev => List.map (app prev) [[]]) acc = acc.
Proof.
  induction acc as [|prev acc IH]; [reflexivity|].
  cbn [flat_map]. rewrite IH. cbn [List.map app]. now rewrite app_nil_r.
Qed.

Lemma extend_one (T : list (list JsValue)) (prev : list JsValue)
    (curr : list JsValue) :
  flat_map (fun p => List.map (app p) T)
    (List.map (fun item => (prev ++ [item])%list) curr)
  = List.map (app prev)
      (flat_map (fun item => List.map (cons item) T) curr).
Proof.
  induction curr as [|x xs IH]; [reflexivity|].
  cbn [List.map flat_map]. rewrite IH, map_app, map_map. f_equal.
  apply map_ext. intros t. now rewrite <- app_assoc.
Qed.

Lemma extend_round (T : list (list JsValue)) (curr : list JsValue)
    (acc : list (list JsValue)) :
  flat_map (fun p => List.map (app p) T)
    (flat_map
       (fun prev => List.map (fun item => (prev ++ [item])%list) curr) acc)
  = flat_map
      (fun prev =>
         List.map (app prev)
           (flat_map (fun item => List.map (cons item) T) curr))
      acc.
Proof.
  induction acc as [|prev acc IH]; [reflexivity|].
  cbn [flat_map]. now rewrite flat_map_app, IH, extend_one.
Qed.

(** The rounds extend every tuple of [acc] by every tuple over the
    arrays. *)
Lemma rounds_tuples (arrays : list (list JsValue)) :
  flat arrays = true ->
  forall acc,
    fold_left
      (fun acc curr =>
         flat_map (fun prev => List.map (Array_concat prev) curr) acc)
      arrays acc
    = flat_map (fun prev => List.map (app prev) (tuples arrays)) acc.
Proof.
  unfold flat. induction arrays as [|curr rest IH]; intros Hflat acc.
  - cbn [fold_left tuples]. now rewrite extend_nil.
  - cbn [forallb] in Hflat. apply andb_true_iff in Hflat as [Hcurr Hrest].
    cbn [fold_left tuples].
    now rewrite (IH Hrest), (round_flat _ _ Hcurr), extend_round.
Qed.

Lemma length_round (acc : list (list JsValue)) (curr : list JsValue) :
  List.length
    (flat_map (fun prev => List.map (Array_concat prev) curr) acc)
  = List.length acc * List.length curr.
Proof.
  induction acc as [|prev acc IH]; [reflexivity|].
  cbn [flat_map List.length]. rewrite length_app, length_map, IH. lia.
Qed.

Lemma length_rounds (arrays : list (list JsValue)) :
  forall acc,
    List.length
      (fold_left
         (fun acc curr =>
            flat_map (fun prev => List.map (Array_concat prev) curr) acc)
         arrays acc)
    = List.length acc
      * fold_right (fun curr n => List.length curr * n) 1 arrays.
Proof.
  induction arrays as [|curr rest IH]; intros acc;
    cbn [fold_left fold_right]; [lia|].
  rewrite IH, length_round. lia.
Qed.

Lemma tuples_spec (arrays : list (list JsValue)) :
  forall tuple,
    In tuple (tuples arrays)
    <-> Forall2 (fun item array => In item array) tuple arrays.
Proof.
  induction arrays as [|first more IH]; intros tuple; cbn [tuples].
  - split.
    + intros [<-|[]]. constructor.
    + intros H. inversion H. now left.
  - rewrite in_flat_map. split.
    + intros (item & Hitem & Hin). apply in_map_iff in Hin
        as (rest & <- & Hrest).
      constructor; [exact Hitem | now apply IH].
    + intros H. inversion H as [|item array rest arrays' Hitem Hrest];
        subst.
      exists item. split; [exact Hitem|].
      apply in_map_iff. exists rest. split; [reflexivity | now apply IH].
Qed.

End ProductFacts.

(** X14. Over arrays whose elements are no arrays themselves [product] is
    the Cartesian product in the order of the arrays: the empty list of
    arrays has the one empty tuple, and the tuples over [first :: more] are,
    for each element of [first] in turn, that element before each tuple
    over [more]. *)
Theorem product_is_tuples (arrays : list (list JsValue)) :
  flat arrays = true -> product arrays = tuples arrays.
Proof.
  intros Hflat. unfold product.
  rewrite ProductFacts.product_rounds, ProductFacts.rounds_tuples
    by exact Hflat.
  cbn [flat_map]. rewrite app_nil_r.
  change (app (@nil JsValue)) with (fun l : list JsValue => l).
  apply map_id.
Qed.

Lemma product_is_tuples_witness :
  flat [[VBool true; VBool false]; [VString "a"; VString "b"]] = true
  /\ product [[VBool true; VBool false]; [VString "a"; VString "b"]]
     = [[VBool true; VString "a"]; [VBool true; VString "b"];
        [VBool false; VString "a"]; [VBool false; VString "b"]].
Proof.
  assert (Hflat : flat [[VBool true; VBool false];
                        [VString "a"; VString "b"]] = true) by reflexivity.
  split; [exact Hflat|].
  exact (product_is_tuples
           [[VBool true; VBool false]; [VString "a"; VString "b"]] Hflat).
Defined.

(** X15. Over arrays whose elements are no arrays themselves the tuples of
    [product] are exactly the lists that hold, place by place, an element
    of the array at that place. *)
Theorem product_membership (arrays : list (list JsValue))
    (tuple : list JsValue) :
  flat arrays = true ->
  (In tuple (product arrays)
   <-> Forall2 (fun item array => In item array) tuple arrays).
Proof.
  intros Hflat. unfold product.
  rewrite ProductFacts.product_rounds, ProductFacts.rounds_tuples
    by exact Hflat.
  cbn [flat_map]. rewrite app_nil_r.
  change (app (@nil JsValue)) with (fun l : list JsValue => l).
  rewrite map_id. apply ProductFacts.tuples_spec.
Qed.

Lemma product_membership_witness :
  flat [[VBool true; VBool false]; [VString "a"; VString "b"]] = true
  /\ (In [VBool false; VString "a"]
        (product [[VBool true; VBool false]; [VString "a"; VString "b"]])
      <-> Forall2 (fun item array => In item array)
            [VBool false; VString "a"]
            [[VBool true; VBool false]; [VString "a"; VString "b"]]).
Proof.
  assert (Hflat : flat [[VBool true; VBool false];
                        [VString "a"; VString "b"]] = true) by reflexivity.
  split; [exact Hflat|].
  exact (product_membership
           [[VBool true; VBool false]; [VString "a"; VString "b"]]
           [VBool false; VString "a"] Hflat).
Defined.

(** X16. [product] returns as many tuples as the product of the lengths of
    the arrays, whatever the elements are; with an empty array among them it
    returns no tuple. *)
Theorem product_length (arrays : list (list JsValue)) :
  List.length (product arrays)
  = fold_right (fun curr n => List.length curr * n) 1 arrays
  /\ (In [] arrays -> product arrays = []).
Proof.
  assert (Hlen : List.length (product arrays)
                 = fold_right (fun curr n => List.length curr * n) 1 arrays).
  { unfold product.
    rewrite ProductFacts.product_rounds, ProductFacts.length_rounds.
    cbn [List.length]. lia. }
  split; [exact Hlen|].
  intros Hin. apply length_zero_iff_nil. rewrite Hlen. clear Hlen.
  induction arrays as [|curr rest IH]; [destruct Hin|].
  cbn [fold_right]. destruct Hin as [->|Hin]; [reflexivity|].
  rewrite (IH Hin). lia.
Qed.

(** An element that is an array is spread into the tuple. *)
Example product_spreads_arrays :
  product [[VArray [VBool true; VBool false]]; [VString "a"]]
  = [[VBool true; VBool false; VString "a"]].
Proof. reflexivity. Qed.

(* ------------------------------------------------------------------ *)
(** * splitCommandLine: escaped blanks *)

Module WordFacts.
Import RegExp Cmd CmdFacts TokenFacts ItemFacts ScanFacts UnquoteFacts.

Lemma word_pieces_ok (w : list Piece) :
  forallb word_piece w = true -> Forall (piece_ok " ") w.
Proof.
  induction w as [|p w IH]; intros H; [constructor|].
  cbn [forallb] in H. apply andb_true_iff in H as [Hp Hw].
  constructor; [|now apply IH].
  destruct p as [c|]; [|exact I]. cbn [word_piece] in Hp.
  apply negb_true_iff in Hp. one_of_false Hp.
  split; [assumption | now rewrite Ascii.eqb_sym].
Qed.

Lemma word_not_empty (w : list Piece) :
  escaped_word w = true -> exists c a, word_text w = String c a.
Proof.
  unfold escaped_word, word_text. destruct w as [|[c|] w]; [discriminate| |];
    intros _; cbn [raw]; do 2 eexists; reflexivity.
Qed.

(** [cmd_re] matches a word with escaped blanks from its first to its
    last code unit when a blank or the end of the command follows. *)
Lemma word_match (w : list Piece) (pos : nat) (tail : string) :
  escaped_word w = true -> stops " " tail ->
  ends_at (match_at cmd_re pos (word_text w ++ tail))
    (pos + String.length (word_text w)).
Proof.
  unfold escaped_word, word_text. intros Hwf Hstop.
  apply andb_true_iff in Hwf as [Hne Hw].
  destruct w as [|p w]; [discriminate|]. clear Hne.
  cbn [forallb] in Hw. apply andb_true_iff in Hw as [Hp Hw].
  pose proof (word_pieces_ok w Hw) as Hok.
  unfold match_at.
  rewrite cmd_re_eq, matcher_seq, matcher_group.
  assert (Hk : forall start e caps',
             ends_at (matcher Empty
                        (capture 1 start (mkState e tail caps')) Some) e).
  { intros start e caps'. eexists. split; reflexivity. }
  destruct p as [c|]; cbn [raw append String.length].
  - cbn [word_piece] in Hp. apply negb_true_iff in Hp. one_of_false Hp.
    rewrite alt_second by (apply span_other; now rewrite Ascii.eqb_sym).
    rewrite alt_second by (apply span_other; now rewrite Ascii.eqb_sym).
    apply alt_first. unfold run_re. rewrite matcher_seq, matcher_plus.
    rewrite unit_step by (try assumption; now rewrite Ascii.eqb_sym).
    cbn [capture rest endIndex captures].
    apply star_run; [reflexivity | exact Hok | exact Hstop | lia |].
    intros caps'.
    cbn [String.length matcher endIndex rest captures].
    replace (S pos + String.length (raw " " w))
      with (pos + S (String.length (raw " " w))) by lia.
    apply Hk.
  - rewrite alt_second by (apply span_other; reflexivity).
    rewrite alt_second by (apply span_other; reflexivity).
    apply alt_first. unfold run_re. rewrite matcher_seq, matcher_plus.
    assert (Hrun : ends_at
              (repeat (matcher (unit_re 4 " "))
                 (S (String.length (raw " " w ++ tail)))
                 (mkState (S (S pos)) (raw " " w ++ tail)
                    ((4, Str.take (S (S pos) - pos)
                           (String Str.backslash
                              (String " " (raw " " w ++ tail)))) :: []))
                 (fun st1 =>
                    matcher Empty st1
                      (fun st2 =>
                         matcher Empty
                           (capture 1
                              (mkState pos
                                 (String Str.backslash
                                    (String " " (raw " " w ++ tail))) [])
                              st2) Some)))
              (pos + S (S (String.length (raw " " w))))).
    { apply star_run; [reflexivity | exact Hok | exact Hstop | lia |].
      intros caps'.
      cbn [String.length matcher endIndex rest captures].
      replace (S (S pos) + String.length (raw " " w))
        with (pos + S (S (String.length (raw " " w)))) by lia.
      apply Hk. }
    destruct Hrun as (res & Hrun & Hres). exists res.
    split; [|exact Hres].
    apply unit_escape. cbn [capture endIndex rest captures].
    exact Hrun.
Qed.

(** The matches of [cmd_re] in words that single blanks separate are the
    words. *)
Lemma match_scan_words (words : list (list Piece)) :
  forallb escaped_word words = true ->
  forall pos,
    match_scan cmd_re pos
      (String.concat " " (List.map word_text words)) 0
    = List.map word_text words.
Proof.
  induction words as [|w [|w1 more] IH]; intros Hwf pos; [reflexivity| |];
    cbn [forallb] in Hwf; apply andb_true_iff in Hwf as [Hw Hrest].
  - cbn [List.map String.concat].
    destruct (word_not_empty w Hw) as (c & a & Htext).
    pose proof (word_match w pos EmptyString Hw (or_introl eq_refl)) as Hm.
    rewrite Htext in *. cbn [String.length] in Hm.
    rewrite <- (StrFacts.append_nil_r (String c a)) at 1.
    rewrite (match_scan_token _ _ _ _ _ Hm). reflexivity.
  - change (String.concat " " (List.map word_text (w :: w1 :: more)))
      with (word_text w
              ++ String " "
                   (String.concat " " (List.map word_text (w1 :: more)))).
    destruct (word_not_empty w Hw) as (c & a & Htext).
    assert (Hstop : stops " "
              (String " "
                 (String.concat " " (List.map word_text (w1 :: more)))))
      by (right; now eexists).
    pose proof (word_match w pos _ Hw Hstop) as Hm.
    rewrite Htext in *. cbn [String.length] in Hm.
    rewrite (match_scan_token _ _ _ _ _ Hm).
    cbn [List.map]. rewrite Htext. f_equal.
    cbn [match_scan]. rewrite blank_no_match.
    apply (IH Hrest).
Qed.

(** The first replace finds no escaped double quote in such a word. *)
Lemma unescape_word (w : list Piece) :
  forallb word_piece w = true ->
  forall before,
    replace_scan escaped_quote_re "$1" before (word_text w) 0
    = word_text w.
Proof.
  unfold word_text. rewrite escaped_quote_re_eq.
  induction w as [|p w IH]; intros Hw before; [reflexivity|].
  cbn [forallb] in Hw. apply andb_true_iff in Hw as [Hp Hw].
  destruct p as [c|]; cbn [raw].
  - cbn [word_piece] in Hp. apply negb_true_iff in Hp. one_of_false Hp.
    cbn [replace_scan]. unfold match_at. rewrite matcher_seq, matcher_char.
    unfold consume; cbn [rest].
    replace (Ascii.eqb Str.backslash c) with false
      by (symmetry; now rewrite Ascii.eqb_sym).
    now rewrite IH.
  - cbn [replace_scan]. unfold match_at.
    rewrite matcher_seq, matcher_char.
    unfold consume at 1; cbn [rest endIndex captures].
    rewrite Ascii.eqb_refl.
    rewrite matcher_seq, matcher_group, matcher_seq, matcher_char.
    unfold consume at 1; cbn [rest endIndex captures].
    change (Ascii.eqb Str.dquote " ") with false. cbv iota.
    f_equal.
    rewrite matcher_seq, matcher_char.
    unfold consume at 1; cbn [rest endIndex captures].
    change (Ascii.eqb Str.backslash " ") with false. cbv iota.
    now rewrite IH.
Qed.

Lemma unquote_word (w : list Piece) :
  escaped_word w = true -> unquote (word_text w) = word_text w.
Proof.
  unfold escaped_word. intros Hwf.
  apply andb_true_iff in Hwf as [Hne Hw].
  unfold unquote, replace_global at 2.
  rewrite unescape_word by exact Hw.
  apply strip_other. unfold word_text.
  destruct w as [|[c|] w]; cbn [raw]; [exact I| |reflexivity].
  cbn [forallb] in Hw. apply andb_true_iff in Hw as [Hp _].
  cbn [word_piece] in Hp. apply negb_true_iff in Hp. one_of_false Hp.
  now rewrite Ascii.eqb_sym.
Qed.

End WordFacts.

(** X18. A backslash before a blank keeps a bare word together: a command
    of words that single blanks separate, each word made of escaped blanks
    and of code units other than the blank, the backslash and the quotes, is
    split into its words, and the backslashes stay in the tokens. *)
Theorem splitCommandLine_escaped_blanks (host : Host)
    (words : list (list Cmd.Piece)) :
  words <> [] ->
  forallb escaped_word words = true ->
  splitCommandLine host (String.concat " " (List.map word_text words))
  = Ok (List.map word_text words).
Proof.
  intros Hne Hwf. unfold splitCommandLine, RegExp.match_global.
  rewrite (WordFacts.match_scan_words words Hwf 0).
  destruct words as [|w more]; [contradiction|]. clear Hne.
  cbn [List.map]. f_equal.
  change (List.map unquote (List.map word_text (w :: more))
          = List.map word_text (w :: more)).
  induction (w :: more) as [|x rest IH]; [reflexivity|].
  cbn [forallb] in Hwf. apply andb_true_iff in Hwf as [Hx Hrest].
  cbn [List.map]. rewrite WordFacts.unquote_word by exact Hx.
  now rewrite IH.
Qed.

Lemma splitCommandLine_escaped_blanks_witness :
  [Cmd.plain_pieces "cd";
   (Cmd.plain_pieces "My" ++ [Cmd.EscapedQuote] ++ Cmd.plain_pieces "App")%list]
    <> []
  /\ forallb escaped_word
       [Cmd.plain_pieces "cd";
        (Cmd.plain_pieces "My" ++ [Cmd.EscapedQuote]
           ++ Cmd.plain_pieces "App")%list] = true
  /\ splitCommandLine Posix.host "cd My\ App" = Ok ["cd"; "My\ App"].
Proof.
  assert (Hne : [Cmd.plain_pieces "cd";
                 (Cmd.plain_pieces "My" ++ [Cmd.EscapedQuote]
                    ++ Cmd.plain_pieces "App")%list] <> []) by discriminate.
  assert (Hwf : forallb escaped_word
                  [Cmd.plain_pieces "cd";
                   (Cmd.plain_pieces "My" ++ [Cmd.EscapedQuote]
                      ++ Cmd.plain_pieces "App")%list] = true)
    by reflexivity.
  split; [exact Hne|]. split; [exact Hwf|].
  exact (splitCommandLine_escaped_blanks Posix.host _ Hne Hwf).
Defined.

(* ------------------------------------------------------------------ *)
(** * A string through cmakeify *)

Module MarshalFacts.

(** The escaped text starts with a semicolon nowhere. *)
Lemma escape_head (s : string) :
  match escape_semicolons s with
  | String c _ => Ascii.eqb c ";" = false
  | EmptyString => True
  end.
Proof.
  destruct s as [|c t]; [exact I|]. cbn [escape_semicolons].
  destruct (Ascii.eqb c ";") eqn:Hc; [reflexivity | exact Hc].
Qed.

Lemma unescape_escape (s : string) :
  unescape_semicolons (escape_semicolons s) = s.
Proof.
  induction s as [|c t IH]; [reflexivity|].
  cbn [escape_semicolons]. destruct (Ascii.eqb c ";") eqn:Hc.
  - apply Ascii.eqb_eq in Hc. subst c.
    cbn [unescape_semicolons]. rewrite !Ascii.eqb_refl. cbn [andb].
    change (Ascii.eqb ";" Str.backslash) with false. cbn [andb].
    now rewrite IH.
  - cbn [unescape_semicolons]. rewrite IH.
    pose proof (escape_head t) as Hhead.
    destruct (escape_semicolons t) as [|c1 t1];
      [now rewrite andb_false_r|].
    now rewrite Hhead, andb_false_r.
Qed.

(** No semicolon of the escaped text ends an element. *)
Lemma split_escaped (s : string) :
  forall (current : string) (escaped : bool),
    exists element,
      Decode.split_from current escaped (escape_semicolons s) = [element].
Proof.
  induction s as [|c t IH]; intros current escaped.
  - now eexists.
  - cbn [escape_semicolons]. destruct (Ascii.eqb c ";") eqn:Hc.
    + apply Ascii.eqb_eq in Hc. subst c.
      cbn [Decode.split_from].
      change (Ascii.eqb Str.backslash ";") with false. cbn [andb].
      rewrite !Ascii.eqb_refl. cbn [negb andb]. apply IH.
    + cbn [Decode.split_from]. rewrite Hc. cbn [andb]. apply IH.
Qed.

Lemma split_from_not_nil (s : string) :
  forall (current : string) (escaped : bool),
    Decode.split_from current escaped s <> [].
Proof.
  induction s as [|c t IH]; intros current escaped; [discriminate|].
  cbn [Decode.split_from].
  destruct (Ascii.eqb c ";" && negb escaped); [discriminate | apply IH].
Qed.

(** A text read as one element is that element. *)
Lemma split_from_all (s : string) :
  forall (current : string) (escaped : bool) (element : string),
    Decode.split_from current escaped s = [element] ->
    element = Str.rev (Str.rev_onto s current).
Proof.
  induction s as [|c t IH]; intros current escaped element H.
  - now injection H as <-.
  - cbn [Decode.split_from] in H.
    destruct (Ascii.eqb c ";" && negb escaped).
    + injection H as _ H. now apply split_from_not_nil in H.
    + apply IH in H. exact H.
Qed.

End MarshalFacts.

(** X17. [cmakeify] loses nothing of a string: the text of the conversion
    with the backslash before each semicolon taken away is the string, so
    two strings with one text are one string; and the text of a string that
    is not empty is one element for a reader that splits at the semicolons
    no backslash precedes. *)
Theorem cmakeify_string_round_trip (render : JsNumber -> string)
    (s : string) :
  exists text,
    cmakeify render (VString s) = Ok (mkCMakeValue STRING text)
    /\ unescape_semicolons text = s
    /\ (s <> EmptyString -> Decode.split_unescaped text = [text]).
Proof.
  exists (escape_semicolons s). split; [apply cmakeify_string|].
  split; [apply MarshalFacts.unescape_escape|].
  intros Hne. unfold Decode.split_unescaped.
  destruct (escape_semicolons s) as [|c t] eqn:Htext.
  - destruct s as [|a s1]; [contradiction|].
    cbn [escape_semicolons] in Htext.
    destruct (Ascii.eqb a ";"); discriminate.
  - rewrite <- Htext.
    destruct (MarshalFacts.split_escaped s EmptyString false)
      as [element Hsplit].
    rewrite Hsplit. f_equal.
    apply MarshalFacts.split_from_all in Hsplit. rewrite Hsplit.
    apply DecodeFacts.rev_rev_onto.
Qed.

Example cmakeify_semicolons :
  cmakeify unrendered (VString "a;b\;c")
  = Ok (mkCMakeValue STRING "a\;b\\;c").
Proof. reflexivity. Qed.

(* ------------------------------------------------------------------ *)
(** * objectPairs *)

Module ObjectFacts.

Lemma property_absent (V : Type) (obj : JsObject V) (key : string) :
  ~ In key (getOwnPropertyNames obj) -> property obj key = None.
Proof.
  induction obj as [|[k v] more IH]; intros Hnot; [reflexivity|].
  cbn [property]. destruct (String.eqb_spec k key) as [->|_].
  - exfalso. apply Hnot. now left.
  - apply IH. intros Hin. apply Hnot. now right.
Qed.

Lemma pairs_extend (V : Type) (k : string) (v : V) (more : JsObject V)
    (keys : list string) :
  ~ In k keys ->
  List.map (fun key => (key, property ((k, v) :: more) key)) keys
  = List.map (fun key => (key, property more key)) keys.
Proof.
  intros Hnot. apply map_ext_in. intros key Hin. cbn [property].
  destruct (String.eqb_spec k key) as [->|_]; [contradiction | reflexivity].
Qed.

End ObjectFacts.

(** X19. [objectPairs] lists every own property of an object once, with
    its value, in the order of [Object.getOwnPropertyNames]. *)
Theorem objectPairs_own_properties (V : Type) (obj : JsObject V) :
  NoDup (getOwnPropertyNames obj) ->
  objectPairs obj = List.map (fun kv => (fst kv, Some (snd kv))) obj.
Proof.
  unfold objectPairs.
  induction obj as [|[k v] more IH]; intros Hkeys; [reflexivity|].
  inversion_clear Hkeys as [|? ? Hk Hmore].
  change (getOwnPropertyNames ((k, v) :: more))
    with (k :: getOwnPropertyNames more).
  rewrite map_cons, ObjectFacts.pairs_extend by exact Hk.
  rewrite (IH Hmore). cbn [property List.map fst snd].
  now rewrite String.eqb_refl.
Qed.

Lemma objectPairs_own_properties_witness :
  NoDup (getOwnPropertyNames [("generator", "Ninja"); ("jobs", "4")])
  /\ objectPairs [("generator", "Ninja"); ("jobs", "4")]
     = [("generator", Some "Ninja"); ("jobs", Some "4")].
Proof.
  assert (Hkeys : NoDup (getOwnPropertyNames
                           [("generator", "Ninja"); ("jobs", "4")])).
  { repeat constructor; cbn; intuition discriminate. }
  split; [exact Hkeys|].
  exact (objectPairs_own_properties string
           [("generator", "Ninja"); ("jobs", "4")] Hkeys).
Defined.

(* ------------------------------------------------------------------ *)
(** * replaceVars on any workspace *)

Module VarsFacts.

(** [replaceAll] does not throw: the escaped needle is a pattern. *)
Lemma replaceAll_returns (str needle what : string) :
  replaceAll str needle what
  = Ok (RegExp.replace_global (RegExp.literal needle) str what).
Proof.
  unfold replaceAll. now rewrite ParseFacts.create_escaped.
Qed.

(** A text without [$] holds no placeholder. *)
Lemma no_dollar_absent (s key : string) :
  Str.all (fun c => negb (Ascii.eqb c "$")) s = true ->
  Str.includes s (String "$" key) = false.
Proof.
  induction s as [|c t IH]; intros Hs; [reflexivity|].
  cbn [Str.all] in Hs. apply andb_true_iff in Hs as [Hc Ht].
  apply negb_true_iff in Hc.
  cbn [Str.includes]. rewrite StrFacts.prefix_cons, Ascii.eqb_sym, Hc.
  cbn [andb orb]. now apply IH.
Qed.

End VarsFacts.

(** X20. [replaceVars] reads the values of the workspace as replacement
    templates: where no [$] of a value is followed by a backquote or a
    quote, each pass puts the expansion of its value in, in which [$$] is
    one [$] and [$&] is the placeholder itself. *)
Theorem replaceVars_expands_values (host : Host) (ws : Workspace)
    (str : string) :
  context_free (or_else (rootPath ws) ".") = true ->
  context_free (path_basename host (or_else (rootPath ws) ".")) = true ->
  context_free (or_else (toolset ws) "unknown") = true ->
  replaceVars host ws str
  = Ok (replace_literal
          (replace_literal
             (replace_literal str "${workspaceRoot}"
                (RegExp.expand "${workspaceRoot}" EmptyString EmptyString
                   [] 0 (or_else (rootPath ws) ".")))
             "${workspaceRootFolderName}"
             (RegExp.expand "${workspaceRootFolderName}" EmptyString
                EmptyString [] 0
                (path_basename host (or_else (rootPath ws) "."))))
          "${toolset}"
          (RegExp.expand "${toolset}" EmptyString EmptyString [] 0
             (or_else (toolset ws) "unknown"))).
Proof.
  intros Hroot Hname Htool.
  unfold replaceVars, replacements, Object_keys.
  cbn [List.map fst Array_reduce get String.eqb Ascii.eqb Bool.eqb].
  rewrite (TemplateFacts.replaceAll_template _ _ _ Hroot); cbn [bind].
  rewrite (TemplateFacts.replaceAll_template _ _ _ Hname); cbn [bind].
  now rewrite (TemplateFacts.replaceAll_template _ _ _ Htool).
Qed.

Lemma replaceVars_expands_values_witness :
  let ws := mkWorkspace (Some "/home/me/a$$b") (Some "$&") in
  context_free (or_else (rootPath ws) ".") = true
  /\ context_free (path_basename Posix.host (or_else (rootPath ws) "."))
     = true
  /\ context_free (or_else (toolset ws) "unknown") = true
  /\ replaceVars Posix.host ws
       "${workspaceRoot}:${workspaceRootFolderName}:${toolset}"
     = Ok "/home/me/a$b:a$b:${toolset}".
Proof.
  intros ws.
  assert (Hroot : context_free (or_else (rootPath ws) ".") = true)
    by reflexivity.
  assert (Hname : context_free
                    (path_basename Posix.host (or_else (rootPath ws) "."))
                  = true) by reflexivity.
  assert (Htool : context_free (or_else (toolset ws) "unknown") = true)
    by reflexivity.
  split; [exact Hroot|]. split; [exact Hname|]. split; [exact Htool|].
  exact (replaceVars_expands_values Posix.host ws
           "${workspaceRoot}:${workspaceRootFolderName}:${toolset}"
           Hroot Hname Htool).
Defined.

(** X21. [replaceVars] returns on every workspace and every text, whatever
    the values hold, and a text without [$] comes back as it is. *)
Theorem replaceVars_returns (host : Host) (ws : Workspace) (str : string) :
  exists out,
    replaceVars host ws str = Ok out
    /\ (Str.all (fun c => negb (Ascii.eqb c "$")) str = true -> out = str).
Proof.
  unfold replaceVars, replacements, Object_keys.
  cbn [List.map fst Array_reduce get String.eqb Ascii.eqb Bool.eqb].
  rewrite !VarsFacts.replaceAll_returns; cbn [bind].
  rewrite !VarsFacts.replaceAll_returns; cbn [bind].
  rewrite !VarsFacts.replaceAll_returns; cbn [bind].
  eexists. split; [reflexivity|]. intros Hs.
  unfold RegExp.replace_global.
  rewrite (ReplaceFacts.replace_scan_absent _ _ str)
    by now apply VarsFacts.no_dollar_absent.
  rewrite (ReplaceFacts.replace_scan_absent _ _ str)
    by now apply VarsFacts.no_dollar_absent.
  now rewrite (ReplaceFacts.replace_scan_absent _ _ str)
    by now apply VarsFacts.no_dollar_absent.
Qed.

(* ------------------------------------------------------------------ *)
(** * Decimal digits *)

Module DecimalText.

Lemma digit_facts (c : ascii) :
  Str.is_digit c = true ->
  Str.is_space c = false
  /\ Ascii.eqb c "-" = false /\ Ascii.eqb c "+" = false
  /\ Ascii.eqb c "x" = false /\ Ascii.eqb c "X" = false
  /\ Ascii.eqb c Str.newline = false
  /\ exists v, ParseInt.digit 10 c = Some v.
Proof.
  destruct c as [[] [] [] [] [] [] [] []]; intros H;
    try (vm_compute in H; discriminate H);
    repeat split; eexists; vm_compute; reflexivity.
Qed.

Lemma uint_digits (d : Decimal.uint) :
  Str.all Str.is_digit (NilEmpty.string_of_uint d) = true.
Proof.
  induction d; cbn [NilEmpty.string_of_uint Str.all];
    [reflexivity | rewrite IHd; reflexivity ..].
Qed.

Lemma uint_text (d : Decimal.uint) :
  d <> Decimal.Nil ->
  exists c t, NilEmpty.string_of_uint d = String c t.
Proof.
  destruct d; intros H; [contradiction | do 2 eexists; reflexivity ..].
Qed.

Lemma decimal_text (p : positive) :
  exists c t, decimal p = String c t
              /\ Str.is_digit c = true /\ Str.all Str.is_digit t = true.
Proof.
  unfold decimal, NilZero.string_of_uint.
  pose proof (DecimalPos.Unsigned.to_uint_nonnil p) as Hnil.
  pose proof (uint_digits (Pos.to_uint p)) as Hdigits.
  destruct (uint_text _ Hnil) as (c & t & Htext).
  rewrite Htext in Hdigits. cbn [Str.all] in Hdigits.
  apply andb_true_iff in Hdigits as [Hc Ht].
  exists c, t. destruct (Pos.to_uint p); [contradiction | auto ..].
Qed.

Lemma decimal_digits (p : positive) :
  Str.all Str.is_digit (decimal p) = true.
Proof.
  destruct (decimal_text p) as (c & t & -> & Hc & Ht).
  cbn [Str.all]. now rewrite Hc, Ht.
Qed.

(** *** Reading the digits back *)

Lemma digits_acc (d : Decimal.uint) :
  forall acc : positive,
    ParseInt.digits 10 (Some (Z.pos acc)) (NilEmpty.string_of_uint d)
    = Some (Z.pos (Pos.of_uint_acc d acc)).
Proof.
  induction d; intros acc;
    cbn [NilEmpty.string_of_uint ParseInt.digits Pos.of_uint_acc];
    [reflexivity | ..];
    match goal with
    | |- context [ParseInt.digit 10 ?c] =>
        let v := eval vm_compute in (ParseInt.digit 10 c) in
        change (ParseInt.digit 10 c) with v
    end;
    cbv iota; rewrite <- IHd; do 2 f_equal; lia.
Qed.

Lemma digits_zero (d : Decimal.uint) :
  ParseInt.digits 10 (Some 0%Z) (NilEmpty.string_of_uint d)
  = Some (Z.of_N (Pos.of_uint d)).
Proof.
  induction d; cbn [NilEmpty.string_of_uint ParseInt.digits Pos.of_uint];
    [reflexivity | ..];
    match goal with
    | |- context [ParseInt.digit 10 ?c] =>
        let v := eval vm_compute in (ParseInt.digit 10 c) in
        change (ParseInt.digit 10 c) with v
    end;
    cbv iota; cbn [Z.mul Z.add]; [exact IHd | apply digits_acc ..].
Qed.

Lemma digits_start (c : ascii) (t : string) :
  Str.is_digit c = true ->
  ParseInt.digits 10 None (String c t)
  = ParseInt.digits 10 (Some 0%Z) (String c t).
Proof.
  intros Hc. destruct (digit_facts c Hc) as (_ & _ & _ & _ & _ & _ & v & Hv).
  cbn [ParseInt.digits]. now rewrite Hv.
Qed.

Lemma option_map_sign (o : option Z) :
  option_map (fun v : Z => if false then (- v)%Z else v) o = o.
Proof. now destruct o. Qed.

(** [parseInt] on a text of digits reads all of them in base ten. *)
Lemma parseInt_digits (c : ascii) (t : string) :
  Str.is_digit c = true -> Str.all Str.is_digit t = true ->
  ParseInt.parseInt (String c t)
  = ParseInt.digits 10 (Some 0%Z) (String c t).
Proof.
  intros Hc Ht. rewrite <- digits_start by exact Hc.
  destruct (digit_facts c Hc) as (Hspace & Hminus & Hplus & _).
  unfold ParseInt.parseInt. cbn [Str.trimStart]. rewrite Hspace.
  rewrite Hminus, Hplus.
  destruct t as [|x t1]; [apply option_map_sign|].
  cbn [Str.all] in Ht. apply andb_true_iff in Ht as [Hx _].
  destruct (digit_facts x Hx) as (_ & _ & _ & Hx1 & Hx2 & _).
  rewrite Hx1, Hx2, andb_false_r. apply option_map_sign.
Qed.

Lemma parseInt_decimal (p : positive) :
  ParseInt.parseInt (decimal p) = Some (Z.pos p).
Proof.
  destruct (decimal_text p) as (c & t & Htext & Hc & Ht).
  rewrite Htext, parseInt_digits by assumption. rewrite <- Htext.
  unfold decimal, NilZero.string_of_uint.
  pose proof (DecimalPos.Unsigned.to_uint_nonnil p) as Hnil.
  pose proof (DecimalPos.Unsigned.of_to p) as Hback.
  destruct (Pos.to_uint p) eqn:Hd; [contradiction | ..];
    rewrite digits_zero, Hback; reflexivity.
Qed.

End DecimalText.

(* ------------------------------------------------------------------ *)
(** * The truth of a converted value *)

Module TruthFacts.
Import DecimalText.

Lemma escape_append (a b : string) :
  escape_semicolons (a ++ b) = escape_semicolons a ++ escape_semicolons b.
Proof.
  induction a as [|c t IH]; [reflexivity|].
  cbn [append escape_semicolons]. rewrite IH.
  now destruct (Ascii.eqb c ";").
Qed.

Lemma escape_plain (s : string) :
  Str.all (fun c => negb (Ascii.eqb c ";")) s = true ->
  escape_semicolons s = s.
Proof.
  induction s as [|c t IH]; [reflexivity|].
  cbn [Str.all escape_semicolons]. intros H.
  apply andb_true_iff in H as [Hc Ht]. apply negb_true_iff in Hc.
  now rewrite Hc, IH.
Qed.

Lemma escape_keeps_semicolons (s : string) :
  Str.all (fun c => negb (Ascii.eqb c ";")) (escape_semicolons s) = true ->
  Str.all (fun c => negb (Ascii.eqb c ";")) s = true.
Proof.
  induction s as [|c t IH]; [reflexivity|].
  cbn [escape_semicolons]. destruct (Ascii.eqb c ";") eqn:Hc.
  - cbn [Str.all]. rewrite Hc. cbn [negb andb].
    now rewrite andb_false_r.
  - cbn [Str.all]. rewrite Hc. cbn [negb andb]. exact IH.
Qed.

Lemma unescape_no_semicolon (s : string) :
  Str.all (fun c => negb (Ascii.eqb c ";")) s = true ->
  unescape_semicolons s = s.
Proof.
  induction s as [|c t IH]; [reflexivity|].
  cbn [Str.all unescape_semicolons]. intros H.
  apply andb_true_iff in H as [_ Ht]. rewrite (IH Ht).
  destruct t as [|c1 t1]; [now rewrite andb_false_r|].
  cbn [Str.all] in Ht. apply andb_true_iff in Ht as [Hc1 _].
  apply negb_true_iff in Hc1. now rewrite Hc1, andb_false_r.
Qed.

Lemma unescape_append (a b : string) :
  Str.all (fun c => negb (Ascii.eqb c ";")) b = true ->
  unescape_semicolons (a ++ b) = unescape_semicolons a ++ b.
Proof.
  intros Hb. induction a as [|c t IH]; [now apply unescape_no_semicolon|].
  cbn [append unescape_semicolons]. rewrite IH.
  destruct t as [|c1 t1].
  - cbn [append]. destruct b as [|c1 b1];
      [now rewrite andb_false_r|].
    cbn [Str.all] in Hb. apply andb_true_iff in Hb as [Hc1 _].
    apply negb_true_iff in Hc1. now rewrite Hc1, andb_false_r.
  - cbn [append].
    now destruct (Ascii.eqb c Str.backslash && Ascii.eqb c1 ";").
Qed.

Lemma denylist_plain (m : string) :
  In m (EmptyString :: denylist) ->
  Str.all (fun c => negb (Ascii.eqb c ";")) m = true.
Proof.
  cbn [In denylist]. intuition (subst; reflexivity).
Qed.

(** Escaping the semicolons of a string does not change its truth. *)
Lemma isTruthy_escaped (render : JsNumber -> string) (s : string) :
  isTruthy (VString (escape_semicolons s)) = isTruthy (VString s).
Proof.
  cbn [isTruthy]. f_equal. apply eq_true_iff_eq.
  rewrite !orb_true_iff, !TruthyFacts.indexOf_found,
    !TruthyFacts.endsWith_suffix.
  change [EmptyString; "FALSE"; "OFF"; "0"; "NOTFOUND"; "NO"; "N"; "IGNORE"]
    with (EmptyString :: denylist).
  split; intros [Hin|[p Hp]].
  - left. pose proof (denylist_plain _ Hin) as Hplain.
    apply escape_keeps_semicolons in Hplain.
    now rewrite (escape_plain s Hplain) in Hin.
  - right. exists (unescape_semicolons p).
    rewrite <- (MarshalFacts.unescape_escape s), Hp.
    now apply unescape_append.
  - left. now rewrite (escape_plain s (denylist_plain _ Hin)).
  - right. exists (escape_semicolons p).
    rewrite Hp, escape_append. f_equal.
Qed.

Lemma decimal_not_zero (p : positive) : decimal p <> "0".
Proof.
  unfold decimal, NilZero.string_of_uint.
  pose proof (DecimalPos.Unsigned.to_uint_nonzero p) as Hzero.
  pose proof (DecimalPos.Unsigned.to_uint_nonnil p) as Hnil.
  destruct (Pos.to_uint p) as [|d|d|d|d|d|d|d|d|d|d];
    [contradiction | | discriminate ..].
  destruct d; [contradiction | discriminate ..].
Qed.

(** The digits of a positive integer are a true text. *)
Lemma isTruthy_decimal (p : positive) :
  isTruthy (VString (decimal p)) = true.
Proof.
  cbn [isTruthy]. apply negb_true_iff, not_true_iff_false.
  rewrite orb_true_iff, TruthyFacts.indexOf_found,
    TruthyFacts.endsWith_suffix.
  pose proof (decimal_digits p) as Hdigits.
  intros [Hin|[pre Hpre]].
  - cbn [In] in Hin.
    destruct Hin as [H|[H|[H|[H|[H|[H|[H|[H|[]]]]]]]]];
      try (rewrite <- H in Hdigits; discriminate Hdigits).
    + destruct (decimal_text p) as (c & t & Htext & _).
      rewrite Htext in H. discriminate.
    + now apply (decimal_not_zero p).
  - rewrite Hpre, UnquoteFacts.all_append in Hdigits.
    now rewrite andb_false_r in Hdigits.
Qed.

Lemma isTruthy_negative (p : positive) :
  isTruthy (VString (String "-" (decimal p))) = true.
Proof.
  cbn [isTruthy]. apply negb_true_iff, not_true_iff_false.
  rewrite orb_true_iff, TruthyFacts.indexOf_found,
    TruthyFacts.endsWith_suffix.
  pose proof (decimal_digits p) as Hdigits.
  intros [Hin|[pre Hpre]].
  - cbn [In] in Hin.
    destruct Hin as [H|[H|[H|[H|[H|[H|[H|[H|[]]]]]]]]]; discriminate.
  - destruct pre as [|a pre1]; cbn [append] in Hpre.
    + injection Hpre as Hpre. rewrite Hpre in Hdigits. discriminate.
    + injection Hpre as _ Hpre.
      rewrite Hpre, UnquoteFacts.all_append in Hdigits.
      now rewrite andb_false_r in Hdigits.
Qed.

(** A number that is an integer is true exactly when the integer is not
    zero. *)
Lemma isTruthy_is_integer (n : JsNumber) (z : Z) :
  is_integer n z ->
  isTruthy (VNumber n) = negb (z =? 0)%Z.
Proof.
  destruct n as [negative| | |negative m e]; cbn [is_integer];
    [now intros -> | contradiction | contradiction |].
  intros Hz. cbn [isTruthy Number.toBoolean].
  symmetry. apply negb_true_iff, Z.eqb_neq. intros ->.
  assert (Hpow : (0 < 2 ^ Z.max 0 e)%Z) by (apply Z.pow_pos_nonneg; lia).
  destruct negative; nia.
Qed.

End TruthFacts.

(** X22. [cmakeify] keeps the truth of booleans, of strings, of the
    integers below 2^53, whatever mantissa and exponent hold them, and of
    the infinities: the text of the conversion is true for [isTruthy]
    exactly when the value is.  NaN is false and its text is true. *)
Theorem cmakeify_keeps_truth (render : JsNumber -> string) (b : bool)
    (s : string) (n : JsNumber) (z : Z) :
  (exists cv,
      cmakeify render (VBool b) = Ok cv
      /\ isTruthy (VString (value cv)) = isTruthy (VBool b))
  /\ (exists cv,
        cmakeify render (VString s) = Ok cv
        /\ isTruthy (VString (value cv)) = isTruthy (VString s))
  /\ (is_integer n z -> (Z.abs z < 2 ^ 53)%Z ->
      exists cv,
        cmakeify render (VNumber n) = Ok cv
        /\ isTruthy (VString (value cv)) = isTruthy (VNumber n))
  /\ (forall negative,
        exists cv,
          cmakeify render (VNumber (S754_infinity negative)) = Ok cv
          /\ isTruthy (VString (value cv)) = true
          /\ isTruthy (VNumber (S754_infinity negative)) = true)
  /\ (exists cv,
        cmakeify render (VNumber S754_nan) = Ok cv
        /\ isTruthy (VString (value cv)) = true
        /\ isTruthy (VNumber S754_nan) = false).
Proof.
  split; [|split; [|split; [|split]]].
  - eexists. split; [reflexivity|]. now destruct b.
  - exists (mkCMakeValue STRING (escape_semicolons s)).
    split; [apply cmakeify_string|].
    cbn [value]. now apply TruthFacts.isTruthy_escaped.
  - intros Hn Hz. eexists. split; [reflexivity|]. cbn [value].
    rewrite (toString_is_integer render n z Hn Hz).
    rewrite (TruthFacts.isTruthy_is_integer n z Hn).
    destruct z as [|p|p]; [reflexivity| |].
    + apply TruthFacts.isTruthy_decimal.
    + apply TruthFacts.isTruthy_negative.
  - intros negative. eexists. split; [reflexivity|].
    destruct negative; split; reflexivity.
  - eexists. split; [reflexivity|]. split; reflexivity.
Qed.

Lemma cmakeify_keeps_truth_witness :
  let n := S754_finite false (2 ^ 52) (- 52) in
  is_integer n 1
  /\ (Z.abs 1 < 2 ^ 53)%Z
  /\ exists cv,
       cmakeify unrendered (VNumber n) = Ok cv
       /\ isTruthy (VString (value cv)) = isTruthy (VNumber n).
Proof.
  intros n.
  assert (Hn : is_integer n 1) by reflexivity.
  assert (Hz : (Z.abs 1 < 2 ^ 53)%Z) by reflexivity.
  split; [exact Hn|]. split; [exact Hz|].
  exact (proj1 (proj2 (proj2
           (cmakeify_keeps_truth unrendered true EmptyString n 1))) Hn Hz).
Defined.

(* ------------------------------------------------------------------ *)
(** * The children that _killTree reads from pgrep *)

Module ListingFacts.
Import DecimalText.

Lemma rev_onto_append (s : string) :
  forall acc, Str.rev_onto s acc = Str.rev_onto s EmptyString ++ acc.
Proof.
  induction s as [|c t IH]; intros acc; [reflexivity|].
  cbn [Str.rev_onto]. rewrite IH, (IH (String c EmptyString)).
  now rewrite StrFacts.append_assoc.
Qed.

Lemma rev_append (a b : string) :
  Str.rev (a ++ b) = Str.rev b ++ Str.rev a.
Proof.
  unfold Str.rev. induction a as [|c t IH]; cbn [append Str.rev_onto].
  - now rewrite StrFacts.append_nil_r.
  - rewrite rev_onto_append, IH, (rev_onto_append t (String c _)).
    now rewrite StrFacts.append_assoc.
Qed.

Lemma rev_rev (s : string) : Str.rev (Str.rev s) = s.
Proof. apply DecodeFacts.rev_rev_onto. Qed.

(** A text of digits, reversed, starts with a digit. *)
Lemma rev_digits (s : string) :
  s <> EmptyString -> Str.all Str.is_digit s = true ->
  exists c t, Str.rev s = String c t /\ Str.is_digit c = true.
Proof.
  induction s as [|a s IH]; intros Hne Hs; [contradiction|].
  cbn [Str.all] in Hs. apply andb_true_iff in Hs as [Ha Hs].
  change (String a s) with (Str.char a ++ s). rewrite rev_append.
  destruct s as [|b s1].
  - exists a, EmptyString. now split.
  - destruct IH as (c & t & Hrev & Hc); [discriminate | exact Hs|].
    rewrite Hrev. exists c, (t ++ Str.rev (Str.char a)). now split.
Qed.

(** The lines of a listing. *)
Lemma listing_lines (p : positive) (more : list positive) :
  listing (p :: more)
  = String.concat (Str.char Str.newline) (List.map decimal (p :: more))
      ++ Str.char Str.newline.
Proof.
  revert p. induction more as [|q more IH]; intros p.
  - reflexivity.
  - change (listing (p :: q :: more))
      with (decimal p ++ String Str.newline (listing (q :: more))).
    rewrite IH.
    change (String.concat (Str.char Str.newline)
              (List.map decimal (p :: q :: more)))
      with (decimal p
              ++ String Str.newline
                   (String.concat (Str.char Str.newline)
                      (List.map decimal (q :: more)))).
    now rewrite StrFacts.append_assoc.
Qed.

Lemma concat_digits_head (p : positive) (more : list positive) :
  exists c t,
    String.concat (Str.char Str.newline) (List.map decimal (p :: more))
    = String c t
    /\ Str.is_digit c = true.
Proof.
  destruct (decimal_text p) as (c & t & Htext & Hc & _).
  destruct more as [|q more]; cbn [List.map String.concat];
    rewrite Htext; do 2 eexists; split; try reflexivity; exact Hc.
Qed.

Lemma concat_digits_last (p : positive) (more : list positive) :
  exists c t,
    Str.rev (String.concat (Str.char Str.newline)
               (List.map decimal (p :: more)))
    = String c t
    /\ Str.is_digit c = true.
Proof.
  revert p. induction more as [|q more IH]; intros p.
  - cbn [List.map String.concat]. apply rev_digits.
    + destruct (decimal_text p) as (c & t & -> & _). discriminate.
    + apply decimal_digits.
  - change (String.concat (Str.char Str.newline)
              (List.map decimal (p :: q :: more)))
      with (decimal p
              ++ String Str.newline
                   (String.concat (Str.char Str.newline)
                      (List.map decimal (q :: more)))).
    change (String Str.newline ?s) with (Str.char Str.newline ++ s).
    rewrite !rev_append.
    destruct (IH q) as (c & t & -> & Hc).
    do 2 eexists. split; [reflexivity | exact Hc].
Qed.

Lemma trimStart_digit (c : ascii) (t : string) :
  Str.is_digit c = true -> Str.trimStart (String c t) = String c t.
Proof.
  intros Hc. destruct (digit_facts c Hc) as (Hspace & _).
  cbn [Str.trimStart]. now rewrite Hspace.
Qed.

(** [trim] takes the last line break of a listing away. *)
Lemma trim_listing (p : positive) (more : list positive) :
  Str.trim (listing (p :: more))
  = String.concat (Str.char Str.newline) (List.map decimal (p :: more)).
Proof.
  rewrite listing_lines. unfold Str.trim.
  destruct (concat_digits_head p more) as (c & t & Hhead & Hc).
  destruct (concat_digits_last p more) as (c1 & t1 & Hlast & Hc1).
  rewrite Hhead at 1. cbn [append]. rewrite trimStart_digit by exact Hc.
  change (String c (t ++ Str.char Str.newline))
    with (String c t ++ Str.char Str.newline).
  rewrite <- Hhead, rev_append, Hlast.
  change (Str.rev (Str.char Str.newline)) with (Str.char Str.newline).
  unfold Str.char at 1. cbn [append].
  change (Str.trimStart (String Str.newline (String c1 t1)))
    with (Str.trimStart (String c1 t1)).
  rewrite trimStart_digit by exact Hc1.
  rewrite <- Hlast. apply rev_rev.
Qed.

Lemma split_line (line tail : string) :
  Str.all Str.is_digit line = true ->
  Str.split Str.newline (line ++ String Str.newline tail)
  = line :: Str.split Str.newline tail.
Proof.
  induction line as [|c t IH]; intros Hline.
  - cbn [append Str.split]. now rewrite Ascii.eqb_refl.
  - cbn [Str.all] in Hline. apply andb_true_iff in Hline as [Hc Ht].
    destruct (digit_facts c Hc) as (_ & _ & _ & _ & _ & Hnl & _).
    cbn [append Str.split]. now rewrite Hnl, (IH Ht).
Qed.

Lemma split_last_line (line : string) :
  Str.all Str.is_digit line = true ->
  Str.split Str.newline line = [line].
Proof.
  induction line as [|c t IH]; intros Hline; [reflexivity|].
  cbn [Str.all] in Hline. apply andb_true_iff in Hline as [Hc Ht].
  destruct (digit_facts c Hc) as (_ & _ & _ & _ & _ & Hnl & _).
  cbn [Str.split]. now rewrite Hnl, (IH Ht).
Qed.

Lemma split_lines (p : positive) (more : list positive) :
  Str.split Str.newline
    (String.concat (Str.char Str.newline) (List.map decimal (p :: more)))
  = List.map decimal (p :: more).
Proof.
  revert p. induction more as [|q more IH]; intros p.
  - cbn [List.map String.concat]. apply split_last_line, decimal_digits.
  - change (String.concat (Str.char Str.newline)
              (List.map decimal (p :: q :: more)))
      with (decimal p
              ++ String Str.newline
                   (String.concat (Str.char Str.newline)
                      (List.map decimal (q :: more)))).
    rewrite split_line by apply decimal_digits.
    now rewrite IH.
Qed.

End ListingFacts.

(** X23. Where pgrep prints the children of a process as decimal
    identifiers, one on each line, [_killTree] reads exactly these
    children, in the order printed; an empty output gives no child. *)
Theorem children_of_listing (os : OS) (parent : Z)
    (children : list positive) :
  pgrep os parent = listing children ->
  children_of os parent = List.map (fun c => Some (Z.pos c)) children.
Proof.
  intros Hout. unfold children_of. rewrite Hout.
  destruct children as [|p more]; [reflexivity|].
  rewrite ListingFacts.trim_listing.
  destruct (ListingFacts.concat_digits_head p more) as (c & t & Hhead & _).
  rewrite Hhead at 1. cbn [String.length Nat.eqb negb].
  rewrite ListingFacts.split_lines, map_map.
  apply map_ext. intros q. apply DecimalText.parseInt_decimal.
Qed.

Lemma children_of_listing_witness :
  pgrep three_children 1 = listing [20; 300; 4000]%positive
  /\ children_of three_children 1
     = [Some 20%Z; Some 300%Z; Some 4000%Z].
Proof.
  assert (Hout : pgrep three_children 1 = listing [20; 300; 4000]%positive)
    by reflexivity.
  split; [exact Hout|].
  exact (children_of_listing three_children 1 [20; 300; 4000]%positive Hout).
Defined.

(* ------------------------------------------------------------------ *)
(** * map and reduce over iterables *)

Module HeapFacts.

Lemma nth_set_same (ref : nat) (g : Generator) (heap : Heap) :
  ref < List.length heap -> nth_error (set_nth ref g heap) ref = Some g.
Proof.
  revert ref. induction heap as [|x heap IH]; intros ref Hlt;
    [cbn in Hlt; lia|].
  destruct ref as [|r]; [reflexivity|].
  cbn [set_nth nth_error]. apply IH. cbn [List.length] in Hlt. lia.
Qed.

Lemma nth_set_other (ref r : nat) (g : Generator) (heap : Heap) :
  r <> ref -> nth_error (set_nth ref g heap) r = nth_error heap r.
Proof.
  revert ref r. induction heap as [|x heap IH]; intros ref r Hne;
    [now destruct ref|].
  destruct ref as [|ref1]; destruct r as [|r1];
    cbn [set_nth nth_error]; try reflexivity; [contradiction|].
  apply IH. lia.
Qed.

Lemma nth_in_heap (heap : Heap) (ref : nat) (g : Generator) :
  nth_error heap ref = Some g -> ref < List.length heap.
Proof. intros H. apply nth_error_Some. now rewrite H. Qed.

(** A generator has one list of items to yield. *)
Lemma yields_one (heap : Heap) (ref d1 : nat) (l1 : list JsValue) :
  yields heap ref d1 l1 ->
  forall d2 l2, yields heap ref d2 l2 -> l1 = l2.
Proof.
  induction 1 as [ref d1 H1|ref d1 rem proj H1
                  |ref inner d1 items proj H1 _ IH];
    intros d2 l2 H2;
    inversion H2 as [? ? H|? ? rem2 proj2 H|? inner2 ? items2 proj2 H Hin];
    subst; rewrite H1 in H; try discriminate H.
  - reflexivity.
  - injection H as <- <-. reflexivity.
  - injection H as <- <-. f_equal. eapply IH. eassumption.
Qed.

(** Marking a generator that has nothing left as finished changes
    nothing of what the generators yield. *)
Lemma finish_preserves (heap : Heap) (ref d0 : nat) :
  yields heap ref d0 [] ->
  forall r d l,
    yields heap r d l -> yields (set_nth ref Finished heap) r d l.
Proof.
  intros Hdone r d l Hr.
  induction Hr as [r d H|r d rem proj H|r inner d items proj H Hinner IH].
  - apply yields_finished.
    destruct (Nat.eq_dec r ref) as [->|Hne].
    + apply nth_set_same. eapply nth_in_heap, H.
    + now rewrite nth_set_other.
  - destruct (Nat.eq_dec r ref) as [->|Hne].
    + rewrite <- (yields_one _ _ _ _ Hdone d _ (yields_items _ _ d _ _ H)).
      apply yields_finished, nth_set_same. eapply nth_in_heap, H.
    + apply yields_items. now rewrite nth_set_other.
  - destruct (Nat.eq_dec r ref) as [->|Hne].
    + rewrite <- (yields_one _ _ _ _ Hdone (S d) _
                    (yields_from _ _ _ _ _ _ H Hinner)).
      apply yields_finished, nth_set_same. eapply nth_in_heap, H.
    + eapply yields_from; [|exact IH]. now rewrite nth_set_other.
Qed.

(** [next] on a generator that has nothing left: it is done. *)
Lemma next_done (heap : Heap) (ref d : nat) (items : list JsValue) :
  yields heap ref d items -> items = [] ->
  forall fuel, d < fuel ->
  exists heap1,
    next fuel heap ref = Some (None, heap1)
    /\ forall r d' l, yields heap r d' l -> yields heap1 r d' l.
Proof.
  induction 1 as [ref d H|ref d rem proj H
                  |ref inner d items proj H Hinner IH];
    intros Hnil fuel Hfuel; (destruct fuel as [|f]; [lia|]);
    cbn [next]; rewrite H.
  - exists heap. now split.
  - apply map_eq_nil in Hnil. subst rem.
    eexists. split; [reflexivity|].
    apply (finish_preserves heap ref d).
    exact (yields_items heap ref d [] proj H).
  - apply map_eq_nil in Hnil. subst items.
    destruct (IH eq_refl f) as (heap1 & -> & Hkeep); [lia|].
    eexists. split; [reflexivity|].
    intros r d' l Hr. apply (finish_preserves heap1 ref (S d)).
    + apply Hkeep. exact (yields_from heap ref inner d [] proj H Hinner).
    + now apply Hkeep.
Qed.

(** [next] on a generator that has an item left: the item is yielded,
    and it is taken from the array at the bottom. *)
Lemma next_item (heap : Heap) (ref d : nat) (items : list JsValue) :
  yields heap ref d items ->
  forall x rest, items = x :: rest ->
  forall fuel, d < fuel ->
  exists base a l0 p0,
    nth_error heap base = Some (Active (Items (a :: l0)) p0)
    /\ next fuel heap ref
       = Some (Some x, set_nth base (Active (Items l0) p0) heap)
    /\ yields (set_nth base (Active (Items l0) p0) heap) ref d rest.
Proof.
  induction 1 as [ref d H|ref d rem proj H
                  |ref inner d items proj H Hinner IH];
    intros x rest Hcons fuel Hfuel; [discriminate| |];
    (destruct fuel as [|f]; [lia|]); cbn [next]; rewrite H.
  - destruct rem as [|a l0]; [discriminate|].
    cbn [List.map] in Hcons. injection Hcons as <- <-.
    exists ref, a, l0, proj. split; [exact H|]. split; [reflexivity|].
    apply yields_items, nth_set_same. eapply nth_in_heap, H.
  - destruct items as [|a l1]; [discriminate|].
    cbn [List.map] in Hcons. injection Hcons as <- <-.
    destruct (IH a l1 eq_refl f) as (base & a0 & l0 & p0 & Hbase & -> & Hrest);
      [lia|].
    exists base, a0, l0, p0. split; [exact Hbase|].
    split; [reflexivity|].
    eapply yields_from; [|exact Hrest].
    rewrite nth_set_other; [exact H|]. intros ->. congruence.
Qed.

(** The loop of [reduce] over a generator folds the items it has left
    and leaves it, and the generator it reads from, with nothing. *)
Lemma drain_spec (Out : Type) (mapper : Out -> JsValue -> Out)
    (items : list JsValue) :
  forall (heap : Heap) (ref d : nat) (init : Out) (fuel : nat),
    yields heap ref d items ->
    d + List.length items < fuel ->
    exists heap1,
      drain fuel heap ref init mapper
      = Some (fold_left mapper items init, heap1)
      /\ yields heap1 ref d []
      /\ forall src proj,
           nth_error heap ref = Some (Active (From src) proj) ->
           yields heap1 src (Nat.pred d) [].
Proof.
  induction items as [|x rest IH]; intros heap ref d init fuel Hy Hfuel;
    (destruct fuel as [|f]; [lia|]); cbn [drain].
  - destruct (next_done heap ref d [] Hy eq_refl (S f)) as (heap1 & -> & Hkeep);
      [lia|].
    exists heap1. split; [reflexivity|]. split; [now apply Hkeep|].
    intros src proj Hentry. apply Hkeep.
    inversion Hy as [? ? H|? ? rem proj1 H|? inner d1 items1 proj1 H Hinner];
      subst; try congruence.
    assert (Heq : Some (Active (From src) proj)
                  = Some (Active (From inner) proj1)) by congruence.
    injection Heq as -> _.
    match goal with
    | Hnil : List.map _ items1 = [] |- _ => apply map_eq_nil in Hnil; subst
    end.
    exact Hinner.
  - cbn [List.length] in Hfuel.
    destruct (next_item heap ref d (x :: rest) Hy x rest eq_refl (S f))
      as (base & a & l0 & p0 & Hbase & -> & Hrest); [lia|].
    destruct (IH _ ref d (mapper init x) f Hrest) as (heap1 & Hrun & Hdone & Hsrc);
      [lia|].
    exists heap1. split; [exact Hrun|]. split; [exact Hdone|].
    intros src proj Hentry. apply (Hsrc src proj).
    rewrite nth_set_other; [exact Hentry|]. intros ->. congruence.
Qed.

Lemma yields_extend (heap : Heap) (g : Generator) (r d : nat)
    (l : list JsValue) :
  yields heap r d l -> yields (heap ++ [g])%list r d l.
Proof.
  induction 1 as [r d H|r d rem proj H|r inner d items proj H _ IH].
  - apply yields_finished. rewrite nth_error_app1; [exact H|].
    eapply nth_in_heap, H.
  - apply yields_items. rewrite nth_error_app1; [exact H|].
    eapply nth_in_heap, H.
  - eapply yields_from; [|exact IH].
    rewrite nth_error_app1; [exact H|]. eapply nth_in_heap, H.
Qed.

Lemma nth_fresh (heap : Heap) (g : Generator) :
  nth_error (heap ++ [g])%list (List.length heap) = Some g.
Proof. rewrite nth_error_app2, Nat.sub_diag by lia. reflexivity. Qed.

(** The generator that [map] makes has the projections of the items of
    its iterable to yield. *)
Lemma map_yields (heap : Heap) (iter : Iterable) (depth : nat)
    (items : list JsValue) (proj : JsValue -> JsValue) :
  iterates heap iter depth items ->
  yields (snd (map heap iter proj)) (List.length heap) (S depth)
    (List.map proj items).
Proof.
  unfold map, iterates. cbn [snd]. destruct iter as [elems|ref]; intros H.
  - subst items. apply yields_items, nth_fresh.
  - eapply yields_from; [apply nth_fresh|]. now apply yields_extend.
Qed.

Lemma fold_left_projected (Out : Type) (mapper : Out -> JsValue -> Out)
    (proj : JsValue -> JsValue) (items : list JsValue) :
  forall init,
    fold_left mapper (List.map proj items) init
    = fold_left (fun acc item => mapper acc (proj item)) items init.
Proof.
  induction items as [|x rest IH]; intros init; [reflexivity|].
  cbn [List.map fold_left]. apply IH.
Qed.

End HeapFacts.

(** X24. [reduce] over the generator of [map(iter, proj)] folds the
    projections of the items that [iter] has to give, from the left: with
    fuel for the generators below and for the items, it returns what folding
    [mapper] after [proj] over the items returns. *)
Theorem reduce_map_folds (Out : Type) (heap : Heap) (iter : Iterable)
    (depth : nat) (items : list JsValue) (proj : JsValue -> JsValue)
    (init : Out) (mapper : Out -> JsValue -> Out) (fuel : nat) :
  iterates heap iter depth items ->
  S depth + List.length items < fuel ->
  exists heap1,
    reduce fuel (snd (map heap iter proj)) (fst (map heap iter proj))
      init mapper
    = Some (fold_left (fun acc item => mapper acc (proj item)) items init,
            heap1).
Proof.
  intros Hiter Hfuel.
  pose proof (HeapFacts.map_yields heap iter depth items proj Hiter) as Hy.
  destruct (HeapFacts.drain_spec Out mapper _ _ _ _ init fuel Hy)
    as (heap1 & Hrun & _); [rewrite length_map; lia|].
  exists heap1. cbn [map fst reduce].
  now rewrite Hrun, HeapFacts.fold_left_projected.
Qed.

Lemma reduce_map_folds_witness :
  iterates [] (IArray [VBool true; VNull; VString "a"]) 0
    [VBool true; VNull; VString "a"]
  /\ 1 + List.length [VBool true; VNull; VString "a"] < 5
  /\ exists heap1,
       reduce 5
         (snd (map [] (IArray [VBool true; VNull; VString "a"])
                 (fun v => VArray [v])))
         (fst (map [] (IArray [VBool true; VNull; VString "a"])
                 (fun v => VArray [v])))
         [] (fun acc item => item :: acc)
       = Some (fold_left (fun acc item => VArray [item] :: acc)
                 [VBool true; VNull; VString "a"] [],
               heap1).
Proof.
  assert (Hiter : iterates [] (IArray [VBool true; VNull; VString "a"]) 0
                    [VBool true; VNull; VString "a"]) by reflexivity.
  assert (Hfuel : 1 + List.length [VBool true; VNull; VString "a"] < 5)
    by (cbn; lia).
  split; [exact Hiter|]. split; [exact Hfuel|].
  exact (reduce_map_folds (list JsValue) []
           (IArray [VBool true; VNull; VString "a"]) 0
           [VBool true; VNull; VString "a"] (fun v => VArray [v])
           [] (fun acc item => item :: acc) 5 Hiter Hfuel).
Defined.

(** X25. The generator of [map] is used up by one loop: after [reduce] has
    run over it, a second [reduce] over the same generator finds no item
    and returns its initial value, and so does a [reduce] over the
    generator that [map] was given, which the first loop has emptied as
    well. *)
Theorem map_generator_one_shot (Out : Type) (heap : Heap) (iter : Iterable)
    (depth : nat) (items : list JsValue) (proj : JsValue -> JsValue)
    (init : Out) (mapper : Out -> JsValue -> Out) (fuel : nat) :
  iterates heap iter depth items ->
  S depth + List.length items < fuel ->
  exists result heap1,
    reduce fuel (snd (map heap iter proj)) (fst (map heap iter proj))
      init mapper
    = Some (result, heap1)
    /\ (forall again : Out,
          exists heap2,
            reduce fuel heap1 (fst (map heap iter proj)) again mapper
            = Some (again, heap2))
    /\ (forall (src : nat) (again : Out),
          iter = IGenerator src ->
          exists heap2,
            reduce fuel heap1 (IGenerator src) again mapper
            = Some (again, heap2)).
Proof.
  intros Hiter Hfuel.
  pose proof (HeapFacts.map_yields heap iter depth items proj Hiter) as Hy.
  destruct (HeapFacts.drain_spec Out mapper _ _ _ _ init fuel Hy)
    as (heap1 & Hrun & Hdone & Hsrc); [rewrite length_map; lia|].
  exists (fold_left mapper (List.map proj items) init), heap1.
  split; [exact Hrun|]. split.
  - intros again. cbn [map fst reduce].
    destruct (HeapFacts.drain_spec Out mapper [] heap1 _ _ again fuel Hdone)
      as (heap2 & Hagain & _); [cbn [List.length]; lia|].
    now exists heap2.
  - intros src again ->. cbn [reduce].
    assert (Hempty : yields heap1 src depth []).
    { apply (Hsrc src proj). unfold map. cbn [snd].
      apply HeapFacts.nth_fresh. }
    destruct (HeapFacts.drain_spec Out mapper [] heap1 _ _ again fuel Hempty)
      as (heap2 & Hagain & _); [cbn [List.length]; lia|].
    now exists heap2.
Qed.

Lemma map_generator_one_shot_witness :
  let heap := snd (map [] (IArray [VNull; VBool true]) (fun v => v)) in
  iterates heap (IGenerator 0) 0 [VNull; VBool true]
  /\ 1 + List.length [VNull; VBool true] < 6
  /\ exists result heap1,
       reduce 6 (snd (map heap (IGenerator 0) (fun v => VArray [v])))
         (fst (map heap (IGenerator 0) (fun v => VArray [v])))
         0 (fun acc _ => S acc)
       = Some (result, heap1)
       /\ (forall again : nat,
             exists heap2,
               reduce 6 heap1
                 (fst (map heap (IGenerator 0) (fun v => VArray [v])))
                 again (fun acc _ => S acc)
               = Some (again, heap2))
       /\ (forall (src : nat) (again : nat),
             IGenerator 0 = IGenerator src ->
             exists heap2,
               reduce 6 heap1 (IGenerator src) again (fun acc _ => S acc)
               = Some (again, heap2)).
Proof.
  intros heap.
  assert (Hiter : iterates heap (IGenerator 0) 0 [VNull; VBool true]).
  { exact (yields_items heap 0 0 [VNull; VBool true] (fun v => v) eq_refl). }
  assert (Hfuel : 1 + List.length [VNull; VBool true] < 6) by (cbn; lia).
  split; [exact Hiter|]. split; [exact Hfuel|].
  exact (map_generator_one_shot nat heap (IGenerator 0) 0
           [VNull; VBool true] (fun v => VArray [v]) 0 (fun acc _ => S acc) 6
           Hiter Hfuel).
Defined.

Example reduce_twice :
  let made := map [] (IArray [VNull; VBool true]) (fun v => VArray [v]) in
  match reduce 6 (snd made) (fst made) 0 (fun acc _ => S acc) with
  | Some (count, heap1) =>
      count = 2
      /\ option_map fst (reduce 6 heap1 (fst made) 0 (fun acc _ => S acc))
         = Some 0
  | None => False
  end.
Proof. cbn. split; reflexivity. Qed.

(* ------------------------------------------------------------------ *)
(** * replaceAll at its edges *)

Module EdgeFacts.

Lemma replace_empty_needle (what s : string) :
  replace_literal s EmptyString what = interleave what s.
Proof.
  induction s as [|c t IH].
  - now rewrite LiteralFacts.replace_literal_end.
  - rewrite LiteralFacts.replace_literal_empty_needle. cbn [interleave].
    now rewrite IH.
Qed.

Lemma length_interleave (what s : string) :
  String.length (interleave what s)
  = String.length s + (String.length s + 1) * String.length what.
Proof.
  induction s as [|c t IH]; cbn [interleave String.length]; [lia|].
  rewrite StrFacts.length_append. cbn [String.length]. rewrite IH. lia.
Qed.

End EdgeFacts.

(** X26. The empty needle occurs before every code unit and at the end:
    [replaceAll] with it puts [what], a text without replacement patterns,
    at each of these places, which makes the result longer by the length of
    [what] for each; [removeAllPatterns] with it leaves the string as it
    is; and in the empty string a needle that is not empty is not found. *)
Theorem replaceAll_empty_needle (str needle what : string) :
  plain what = true ->
  replaceAll str EmptyString what = Ok (interleave what str)
  /\ String.length (interleave what str)
     = String.length str + (String.length str + 1) * String.length what
  /\ removeAllPatterns str [EmptyString] = Ok str
  /\ (needle <> EmptyString ->
      replaceAll EmptyString needle what = Ok EmptyString).
Proof.
  intros Hplain. split; [|split; [|split]].
  - rewrite replaceAll_literal by exact Hplain.
    now rewrite EdgeFacts.replace_empty_needle.
  - apply EdgeFacts.length_interleave.
  - rewrite removeAllPatterns_literal. cbn [fold_left].
    rewrite EdgeFacts.replace_empty_needle. f_equal.
    induction str as [|c t IH]; [reflexivity|].
    cbn [interleave append]. now rewrite IH.
  - intros Hne. rewrite replaceAll_literal by exact Hplain.
    rewrite LiteralFacts.replace_literal_end.
    destruct needle; [contradiction | reflexivity].
Qed.

Lemma replaceAll_empty_needle_witness :
  plain "-" = true
  /\ replaceAll "ab" EmptyString "-" = Ok "-a-b-"
  /\ String.length "-a-b-" = 2 + (2 + 1) * 1
  /\ removeAllPatterns "ab" [EmptyString] = Ok "ab"
  /\ ("x" <> EmptyString -> replaceAll EmptyString "x" "-" = Ok EmptyString).
Proof.
  assert (Hplain : plain "-" = true) by reflexivity.
  split; [exact Hplain|].
  exact (replaceAll_empty_needle "ab" "x" "-" Hplain).
Defined.

(* ------------------------------------------------------------------ *)
(** * termProc on the process table *)

Section TableRuns.

Variables (os : OS) (table : Z -> list positive).
Hypothesis printed : Table.printed_by table os.






End TableRuns.



